(** * Event streaming and job orchestration of the coding-video generator

    A shallow embedding of the Python server (package [server_python]):
    - [services/sse_manager.py]: the per-job event buffer and its subscribers,
    - [services/progress.py]: the progress tracker of one job,
    - [utils/timeout.py]: the deadline wrapper,
    - [routers/generate.py]: the job pipeline and the delete endpoint.

    Python objects that are shared by reference (a [JobBuffer] held both by
    the manager's table and by a running subscriber, an [asyncio.Task] held
    by the table of pending teardowns) live in an explicit store and are
    named by their address. *)

From Stdlib Require Import ZArith QArith Qround String Ascii List DecimalString DecimalZ.
From stdpp Require Import gmap strings list fin_maps sorting.

Local Open Scope string_scope.
Local Open Scope Z_scope.
Local Open Scope list_scope.

(** ** Python built-ins used by the code *)

(** [str(n)] of a Python integer. *)
Definition py_str (n : Z) : string := NilZero.string_of_int (Z.to_int n).

(** [int(s)] of a Python string, on the plain decimal numerals (an optional
    minus sign followed by digits); [None] stands for [ValueError]. *)
Definition py_int (s : string) : option Z :=
  option_map Z.of_int (NilZero.int_of_string s).

(** Truth value of a string: the empty string is false. *)
Definition str_truthy (s : string) : bool :=
  match s with EmptyString => false | _ => true end.

(** [l[-n:]] for a positive [n]. *)
Definition py_last {A} (n : nat) (l : list A) : list A :=
  drop (length l - n) l.

(** *** [json.dumps] on the values the manager serialises

    Strings are sequences of code points below 256.  With the default
    [ensure_ascii], every character outside [' '..'~'] and the two characters
    double quote and backslash are escaped. *)

Definition hex_digit (n : N) : ascii :=
  ascii_of_N (if (n <? 10)%N then 48 + n else 87 + n)%N.

Definition json_escape_char (c : ascii) : string :=
  let n := N_of_ascii c in
  if (n =? 34)%N then String "\" (String c EmptyString)
  else if (n =? 92)%N then String "\" (String "\" EmptyString)
  else if (n =? 10)%N then "\n"
  else if (n =? 13)%N then "\r"
  else if (n =? 9)%N then "\t"
  else if (n =? 8)%N then "\b"
  else if (n =? 12)%N then "\f"
  else if ((32 <=? n) && (n <=? 126))%N then String c EmptyString
  else "\u00" +:+ String (hex_digit (n / 16)) (String (hex_digit (n mod 16)) EmptyString).

Fixpoint json_escape (s : string) : string :=
  match s with
  | EmptyString => EmptyString
  | String c s' => json_escape_char c +:+ json_escape s'
  end.

Definition dquote : string := String (ascii_of_N 34) EmptyString.

Definition json_str (s : string) : string := dquote +:+ json_escape s +:+ dquote.

(** ** Data model of [sse_manager.py] *)

Inductive StreamEventType := STDOUT | STDERR | STATUS | CONNECTED | HISTORY.

(** The [.value] of the enumeration. *)
Definition type_value (t : StreamEventType) : string :=
  match t with
  | STDOUT => "stdout"
  | STDERR => "stderr"
  | STATUS => "status"
  | CONNECTED => "connected"
  | HISTORY => "history"
  end.

Record StreamLine := mkLine {
  line_id : string;
  line_type : StreamEventType;
  line_data : string;
  line_timestamp : string
}.

(** The dictionary built from a line, both in [_format_sse] and in the
    history payload. *)
Definition json_line (l : StreamLine) : string :=
  "{" +:+ json_str "id" +:+ ": " +:+ json_str (line_id l) +:+ ", "
      +:+ json_str "type" +:+ ": " +:+ json_str (type_value (line_type l)) +:+ ", "
      +:+ json_str "data" +:+ ": " +:+ json_str (line_data l) +:+ ", "
      +:+ json_str "timestamp" +:+ ": " +:+ json_str (line_timestamp l) +:+ "}".

Fixpoint json_join (l : list string) : string :=
  match l with
  | [] => ""
  | [x] => x
  | x :: rest => x +:+ ", " +:+ json_join rest
  end.

Definition json_lines (ls : list StreamLine) : string :=
  "[" +:+ json_join (map json_line ls) +:+ "]".

Definition nl : string := String (ascii_of_N 10) EmptyString.

Definition _format_sse (l : StreamLine) : string :=
  "id: " +:+ line_id l +:+ nl +:+ "event: " +:+ type_value (line_type l) +:+ nl
         +:+ "data: " +:+ json_line l +:+ nl +:+ nl.

Definition keepalive : string := ": keepalive" +:+ nl +:+ nl.

(** [config.py] *)
Definition MAX_BUFFER_LINES : nat := 500.
Definition MAX_LOGS : nat := 50.

(** Capacity of a subscriber's [asyncio.Queue(maxsize=100)]. *)
Definition QUEUE_MAXSIZE : nat := 100.

(** Addresses of objects in the store. *)
Abbreviation addr := nat (only parsing).

(** A [JobBuffer].  The set [subscribers] holds queue objects; a queue is
    named by its address and the map gives each member queue its content,
    oldest item first. *)
Record JobBuffer := mkBuffer {
  lines : list StreamLine;
  event_counter : Z;
  is_complete : bool;
  subscribers : gmap addr (list StreamLine)
}.

(** [JobBuffer()] *)
Definition new_buffer : JobBuffer := mkBuffer [] 0 false ∅.

(** The teardown task created by [complete_job]: it sleeps for the grace
    period and then calls [cleanup] for its job.  A task is pending until
    it is done, and it is done when it has finished or was cancelled. *)
Inductive TaskState := Pending | Cancelled | Finished.

Record Task := mkTask { task_job : string; task_state : TaskState }.

(** The manager together with the objects it refers to. *)
Record SSEManager := mkManager {
  _jobs : gmap string addr;
  _cleanup_tasks : gmap string addr;
  buffers : gmap addr JobBuffer;
  tasks : gmap addr Task
}.

(** [SSEManager()] *)
Definition new_manager : SSEManager := mkManager ∅ ∅ ∅ ∅.

(** The buffer object at an address. *)
Definition buffer_at (m : SSEManager) (a : addr) : JobBuffer :=
  default new_buffer (buffers m !! a).

Definition set_buffer (a : addr) (b : JobBuffer) (m : SSEManager) : SSEManager :=
  mkManager (_jobs m) (_cleanup_tasks m) (<[a := b]> (buffers m)) (tasks m).

(** ** Operations of [SSEManager] *)

Definition _get_or_create_buffer (job_id : string) (m : SSEManager)
  : addr * SSEManager :=
  match _jobs m !! job_id with
  | Some a => (a, m)
  | None =>
      let a := fresh (dom (buffers m)) in
      (a, mkManager (<[job_id := a]> (_jobs m)) (_cleanup_tasks m)
                    (<[a := new_buffer]> (buffers m)) (tasks m))
  end.

(** [queue.put_nowait(line)] guarded by [except asyncio.QueueFull: pass]. *)
Definition put_nowait (line : StreamLine) (q : list StreamLine) : list StreamLine :=
  if (length q <? QUEUE_MAXSIZE)%nat then q ++ [line] else q.

(** The trimming of [broadcast]. *)
Definition trim (ls : list StreamLine) : list StreamLine :=
  if (MAX_BUFFER_LINES <? length ls)%nat then py_last MAX_BUFFER_LINES ls else ls.

(** What [broadcast] does to the buffer object; [now] is the reading of
    the clock. *)
Definition appended (event_type : StreamEventType) (data now : string)
    (b : JobBuffer) : JobBuffer :=
  let c := event_counter b + 1 in
  let line := mkLine (py_str c) event_type data now in
  mkBuffer (trim (lines b ++ [line])) c (is_complete b)
           (put_nowait line <$> subscribers b).

Definition broadcast (job_id : string) (event_type : StreamEventType)
    (data now : string) (m : SSEManager) : SSEManager :=
  let '(a, m1) := _get_or_create_buffer job_id m in
  set_buffer a (appended event_type data now (buffer_at m1 a)) m1.

(** [task.cancel()]: only a task that is not done is affected. *)
Definition cancel (t : Task) : Task :=
  match task_state t with
  | Pending => mkTask (task_job t) Cancelled
  | _ => t
  end.

(** The common prefix of [subscribe] and [cleanup]: cancel and forget the
    pending teardown of the job. *)
Definition cancel_pending (job_id : string) (m : SSEManager) : SSEManager :=
  match _cleanup_tasks m !! job_id with
  | Some t =>
      mkManager (_jobs m) (delete job_id (_cleanup_tasks m)) (buffers m)
                (alter cancel t (tasks m))
  | None => m
  end.

Definition cleanup (job_id : string) (m : SSEManager) : SSEManager :=
  let m1 := cancel_pending job_id m in
  mkManager (delete job_id (_jobs m1)) (_cleanup_tasks m1) (buffers m1) (tasks m1).

(** [complete_job].  A [JobBuffer] instance is always true, so
    [if not buffer] is taken exactly when the table has no entry. *)
Definition complete_job (job_id now : string) (m : SSEManager) : SSEManager :=
  match _jobs m !! job_id with
  | None => m
  | Some a =>
      let b := buffer_at m a in
      let m1 := set_buffer a
                  (mkBuffer (lines b) (event_counter b) true (subscribers b)) m in
      let m2 := broadcast job_id STATUS "completed" now m1 in
      let t := fresh (dom (tasks m2)) in
      mkManager (_jobs m2) (<[job_id := t]> (_cleanup_tasks m2)) (buffers m2)
                (<[t := mkTask job_id Pending]> (tasks m2))
  end.

(** The end of a task's coroutine: a task that was cancelled while it ran
    ends cancelled, any other ends finished. *)
Definition finish (t : Task) : Task :=
  match task_state t with
  | Pending => mkTask (task_job t) Finished
  | _ => t
  end.

(** The grace period of task [t] elapses: a task that is still pending
    wakes up, runs [self.cleanup(job_id)] and ends. *)
Definition expire (t : addr) (m : SSEManager) : SSEManager :=
  match tasks m !! t with
  | Some (mkTask job_id Pending) =>
      let m1 := cleanup job_id m in
      mkManager (_jobs m1) (_cleanup_tasks m1) (buffers m1) (alter finish t (tasks m1))
  | _ => m
  end.

Definition get_client_count (job_id : string) (m : SSEManager) : nat :=
  match _jobs m !! job_id with
  | Some a => size (subscribers (buffer_at m a))
  | None => 0%nat
  end.

Definition has_buffer (job_id : string) (m : SSEManager) : bool :=
  match _jobs m !! job_id with
  | Some a => (0 <? length (lines (buffer_at m a)))%nat
  | None => false
  end.

(** The buffer currently registered for a job. *)
Definition job_buffer (job_id : string) (m : SSEManager) : option JobBuffer :=
  a ← _jobs m !! job_id; buffers m !! a.

(** ** The subscriber: the asynchronous generator [subscribe]

    Calling [subscribe] only creates the generator; its body runs when the
    consumer asks for the next chunk.  A generator is described by the
    point at which it is suspended. *)
Inductive Generator :=
| GNew (job_id : string) (last_event_id : option string)
    (* created, body not started *)
| GConnected (last_event_id : option string) (buf q : addr)
    (* suspended at the [yield] of the connected line *)
| GHistory (buf q : addr)
    (* suspended at the [yield] of the history line *)
| GWaiting (buf q : addr)
    (* inside [await asyncio.wait_for(queue.get(), timeout=30)] *)
| GLoopYield (buf q : addr)
    (* suspended at one of the two [yield]s of the loop *)
| GClosed.

(** What the consumer receives. *)
Inductive Chunk := Event (l : StreamLine) | Keepalive.

(** The text of a chunk. *)
Definition chunk_text (c : Chunk) : string :=
  match c with Event l => _format_sse l | Keepalive => keepalive end.

(** Outcome of running the generator up to its next suspension. *)
Inductive Outcome := Yield (c : Chunk) | Await | Stop | Raise.

Definition queue_at (m : SSEManager) (buf q : addr) : list StreamLine :=
  default [] (subscribers (buffer_at m buf) !! q).

Definition set_subscribers (buf : addr) (f : gmap addr (list StreamLine) -> gmap addr (list StreamLine))
    (m : SSEManager) : SSEManager :=
  let b := buffer_at m buf in
  set_buffer buf (mkBuffer (lines b) (event_counter b) (is_complete b) (f (subscribers b))) m.

(** The [finally] clause: [buffer.subscribers.discard(queue)]. *)
Definition discard (buf q : addr) (m : SSEManager) : SSEManager :=
  set_subscribers buf (delete q) m.

(** [int(last_event_id) if last_event_id else 0] *)
Definition history_start_id (last_event_id : option string) : option Z :=
  match last_event_id with
  | None => Some 0
  | Some s => if str_truthy s then py_int s else Some 0
  end.

(** [[line for line in buffer.lines if int(line.id) > history_start_id]] *)
Fixpoint missed_lines (start : Z) (ls : list StreamLine)
  : option (list StreamLine) :=
  match ls with
  | [] => Some []
  | l :: rest =>
      n ← py_int (line_id l);
      r ← missed_lines start rest;
      Some (if (start <? n)%Z then l :: r else r)
  end.

(** The consumer asks for the next chunk while the generator is suspended
    at a [yield] (or has not started). *)
Definition resume (g : Generator) (now : string) (m : SSEManager)
  : Generator * SSEManager * Outcome :=
  match g with
  | GNew job_id last_event_id =>
      let '(a, m1) := _get_or_create_buffer job_id m in
      let m2 := cancel_pending job_id m1 in
      let b := buffer_at m2 a in
      let q := fresh (dom (subscribers b)) in
      let c := event_counter b + 1 in
      let connected_line :=
        mkLine (py_str c) CONNECTED ("Connected to job " +:+ job_id) now in
      (GConnected last_event_id a q,
       set_buffer a
         (mkBuffer (lines b) c (is_complete b) (<[q := []]> (subscribers b))) m2,
       Yield (Event connected_line))
  | GConnected last_event_id a q =>
      let b := buffer_at m a in
      match lines b with
      | [] => (GWaiting a q, m, Await)
      | _ :: _ =>
          match history_start_id last_event_id ≫= λ k, missed_lines k (lines b) with
          | None => (GClosed, discard a q m, Raise)
          | Some [] => (GWaiting a q, m, Await)
          | Some missed =>
              let c := event_counter b + 1 in
              let history_line := mkLine (py_str c) HISTORY (json_lines missed) now in
              (GHistory a q,
               set_buffer a
                 (mkBuffer (lines b) c (is_complete b) (subscribers b)) m,
               Yield (Event history_line))
          end
      end
  | GHistory a q => (GWaiting a q, m, Await)
  | GLoopYield a q =>
      if is_complete (buffer_at m a) && bool_decide (queue_at m a q = [])
      then (GClosed, discard a q m, Stop)
      else (GWaiting a q, m, Await)
  | GWaiting a q => (g, m, Await)
  | GClosed => (GClosed, m, Stop)
  end.

(** [queue.get()] returns an item to the waiting generator. *)
Definition deliver (g : Generator) (m : SSEManager)
  : Generator * SSEManager * Outcome :=
  match g with
  | GWaiting a q =>
      match queue_at m a q with
      | line :: rest =>
          (GLoopYield a q, set_subscribers a (<[q := rest]>) m, Yield (Event line))
      | [] => (g, m, Await)
      end
  | _ => (g, m, Await)
  end.

(** Thirty seconds pass without an item: [asyncio.TimeoutError]. *)
Definition timeout (g : Generator) (m : SSEManager)
  : Generator * SSEManager * Outcome :=
  match g with
  | GWaiting a q =>
      match queue_at m a q with
      | [] => (GLoopYield a q, m, Yield Keepalive)
      | _ :: _ => (g, m, Await)
      end
  | _ => (g, m, Await)
  end.

(** The consumer walks away: the generator is closed (or its task
    cancelled) at its suspension point and the [finally] clause runs. *)
Definition close (g : Generator) (m : SSEManager) : Generator * SSEManager :=
  match g with
  | GNew _ _ | GClosed => (GClosed, m)
  | GConnected _ a q | GHistory a q | GWaiting a q | GLoopYield a q =>
      (GClosed, discard a q m)
  end.

(** ** The process: one manager, any number of subscribers

    The server runs on one event loop: between two suspension points a
    stretch of code runs alone.  A state of the process holds the manager,
    the generators of the subscribers, and what each consumer has received
    so far. *)

Record System := mkSystem {
  manager : SSEManager;
  generators : gmap nat Generator;
  received : gmap nat (list Chunk)
}.

Definition initial : System := mkSystem new_manager ∅ ∅.

(** The stretches of code that can run: the calls of the manager, the
    expiry of a grace period, the creation of a generator by [subscribe],
    and the four ways a generator moves on. *)
Inductive Action :=
| ABroadcast (job_id : string) (event_type : StreamEventType) (data now : string)
| ACompleteJob (job_id now : string)
| ACleanup (job_id : string)
| AExpire (t : addr)
| ASubscribe (s : nat) (job_id : string) (last_event_id : option string)
| AResume (s : nat) (now : string)
| ADeliver (s : nat)
| ATimeout (s : nat)
| AClose (s : nat).

Definition on_manager (f : SSEManager -> SSEManager) (σ : System) : System :=
  mkSystem (f (manager σ)) (generators σ) (received σ).

Definition record_outcome (s : nat) (o : Outcome) (r : gmap nat (list Chunk))
  : gmap nat (list Chunk) :=
  match o with
  | Yield c => <[s := default [] (r !! s) ++ [c]]> r
  | _ => r
  end.

Definition on_generator (s : nat)
    (f : Generator -> SSEManager -> Generator * SSEManager * Outcome)
    (σ : System) : System :=
  match generators σ !! s with
  | Some g =>
      let '(g', m', o) := f g (manager σ) in
      mkSystem m' (<[s := g']> (generators σ)) (record_outcome s o (received σ))
  | None => σ
  end.

Definition step (a : Action) (σ : System) : System :=
  match a with
  | ABroadcast job_id ty data now => on_manager (broadcast job_id ty data now) σ
  | ACompleteJob job_id now => on_manager (complete_job job_id now) σ
  | ACleanup job_id => on_manager (cleanup job_id) σ
  | AExpire t => on_manager (expire t) σ
  | ASubscribe s job_id last =>
      match generators σ !! s with
      | Some _ => σ
      | None =>
          mkSystem (manager σ) (<[s := GNew job_id last]> (generators σ)) (received σ)
      end
  | AResume s now => on_generator s (λ g, resume g now) σ
  | ADeliver s => on_generator s deliver σ
  | ATimeout s => on_generator s timeout σ
  | AClose s => on_generator s (λ g m, let '(g', m') := close g m in (g', m', Stop)) σ
  end.

Definition run (tr : list Action) (σ : System) : System :=
  foldl (λ σ a, step a σ) σ tr.

(** The chunks subscriber [s] has received, oldest first. *)
Definition chunks_of (s : nat) (σ : System) : list Chunk :=
  default [] (received σ !! s).

(** ** The deadline wrapper, [utils/timeout.py] *)

Inductive Exception :=
| AsyncioTimeoutError
    (* [asyncio.TimeoutError] *)
| TimeoutError (operation : string) (timeout_seconds : Q)
    (* the class [TimeoutError] of [utils/timeout.py] *)
| RuntimeError (msg : string)
| OtherError (msg : string).

(** How an awaited call ends. *)
Inductive Completion (A : Type) :=
| Returns (v : A)
| Raises (e : Exception).
Arguments Returns {A} v.
Arguments Raises {A} e.

(** A coroutine as seen by the code awaiting it: the time it needs (in
    seconds, [None] when it never finishes) and the way it ends. *)
Record Coroutine (A : Type) := mkCoroutine {
  finishes_after : option Q;
  completion : Completion A
}.
Arguments mkCoroutine {A}.
Arguments finishes_after {A}.
Arguments completion {A}.

(** Numbers are the finite ones, integers and floats alike, taken as
    rationals; [nan] and the infinities are outside the model. *)

(** [int(x)] of a number: truncation towards zero. *)
Definition py_trunc (x : Q) : Z := Z.quot (Qnum x) (Z.pos (Qden x)).

(** [round(x)] of a number: to the nearest integer, ties to the even one. *)
Definition py_round (x : Q) : Z :=
  let f := Qfloor x in
  match (x - inject_Z f ?= 1 # 2)%Q with
  | Lt => f
  | Gt => f + 1
  | Eq => if Z.even f then f else f + 1
  end.

(** [str(e)] *)
Definition exception_str (e : Exception) : string :=
  match e with
  | AsyncioTimeoutError => ""
  | TimeoutError operation timeout_seconds =>
      "Operation " +:+ dquote +:+ operation +:+ dquote +:+ " timed out after "
        +:+ py_str (py_trunc timeout_seconds) +:+ " seconds"
  | RuntimeError msg => msg
  | OtherError msg => msg
  end.

(** [asyncio.wait_for(coro, timeout)]: the coroutine's own ending when it
    finishes in time, [asyncio.TimeoutError] otherwise. *)
Definition wait_for {A} (coro : Coroutine A) (timeout : Q) : Completion A :=
  match finishes_after coro with
  | Some d => if Qlt_le_dec d timeout then completion coro else Raises AsyncioTimeoutError
  | None => Raises AsyncioTimeoutError
  end.

Definition with_timeout {A} (coro : Coroutine A) (timeout_seconds : Q)
    (operation : string) : Completion A :=
  match wait_for coro timeout_seconds with
  | Raises AsyncioTimeoutError => Raises (TimeoutError operation timeout_seconds)
  | r => r
  end.

(** ** The job record, [models/schemas.py] *)

Inductive JobStatus :=
| PENDING | GENERATING_CONTENT | GENERATING_AUDIO | RENDERING | COMPLETED | ERROR.

Definition status_value (s : JobStatus) : string :=
  match s with
  | PENDING => "pending"
  | GENERATING_CONTENT => "generating_content"
  | GENERATING_AUDIO => "generating_audio"
  | RENDERING => "rendering"
  | COMPLETED => "completed"
  | ERROR => "error"
  end.

Inductive StyleLevel := BEGINNER | INTERMEDIATE | ADVANCED.

Record TutorialStep := mkStep {
  code : string;
  explanation : string;
  step_language : string
}.

Record TutorialContent := mkContent {
  title : string;
  steps : list TutorialStep
}.

Record LogEntry := mkLog {
  timestamp : string;
  message : string
}.

Record ProgressDetails := mkProgress {
  currentAction : string;
  subProgress : Q;
  currentStep : option Z;
  totalSteps : option Z;
  phaseStartedAt : string;
  logs : list LogEntry
}.

Record GenerationJob := mkJob {
  job_ident : string;
  status : JobStatus;
  prompt : string;
  language : option string;
  style : option StyleLevel;
  voiceSpeed : option Q;
  content : option TutorialContent;
  audioFiles : option (list string);
  videoPath : option string;
  error : option string;
  createdAt : string;
  startedAt : option string;
  completedAt : option string;
  progress : option ProgressDetails
}.

(** Field updates of the job object. *)
Definition set_status (v : JobStatus) (j : GenerationJob) : GenerationJob :=
  mkJob (job_ident j) v (prompt j) (language j) (style j) (voiceSpeed j) (content j)
        (audioFiles j) (videoPath j) (error j) (createdAt j) (startedAt j)
        (completedAt j) (progress j).
Definition set_content (v : option TutorialContent) (j : GenerationJob) : GenerationJob :=
  mkJob (job_ident j) (status j) (prompt j) (language j) (style j) (voiceSpeed j) v
        (audioFiles j) (videoPath j) (error j) (createdAt j) (startedAt j)
        (completedAt j) (progress j).
Definition set_audioFiles (v : option (list string)) (j : GenerationJob) : GenerationJob :=
  mkJob (job_ident j) (status j) (prompt j) (language j) (style j) (voiceSpeed j) (content j)
        v (videoPath j) (error j) (createdAt j) (startedAt j)
        (completedAt j) (progress j).
Definition set_videoPath (v : option string) (j : GenerationJob) : GenerationJob :=
  mkJob (job_ident j) (status j) (prompt j) (language j) (style j) (voiceSpeed j) (content j)
        (audioFiles j) v (error j) (createdAt j) (startedAt j)
        (completedAt j) (progress j).
Definition set_job_error (v : option string) (j : GenerationJob) : GenerationJob :=
  mkJob (job_ident j) (status j) (prompt j) (language j) (style j) (voiceSpeed j) (content j)
        (audioFiles j) (videoPath j) v (createdAt j) (startedAt j)
        (completedAt j) (progress j).
Definition set_startedAt (v : option string) (j : GenerationJob) : GenerationJob :=
  mkJob (job_ident j) (status j) (prompt j) (language j) (style j) (voiceSpeed j) (content j)
        (audioFiles j) (videoPath j) (error j) (createdAt j) v
        (completedAt j) (progress j).
Definition set_completedAt (v : option string) (j : GenerationJob) : GenerationJob :=
  mkJob (job_ident j) (status j) (prompt j) (language j) (style j) (voiceSpeed j) (content j)
        (audioFiles j) (videoPath j) (error j) (createdAt j) (startedAt j)
        v (progress j).
Definition set_progress (v : option ProgressDetails) (j : GenerationJob) : GenerationJob :=
  mkJob (job_ident j) (status j) (prompt j) (language j) (style j) (voiceSpeed j) (content j)
        (audioFiles j) (videoPath j) (error j) (createdAt j) (startedAt j)
        (completedAt j) v.

(** ** The progress tracker, [services/progress.py]

    A tracker holds one job; its methods are functions on the job.  [now]
    is the reading of the clock during the call.  Lines written to standard
    output are not part of the state. *)

Definition _get_default_action (s : JobStatus) : string :=
  match s with
  | PENDING => "Waiting to start..."
  | GENERATING_CONTENT => "AI is generating tutorial content..."
  | GENERATING_AUDIO => "Converting text to speech..."
  | RENDERING => "Rendering video..."
  | COMPLETED => "Done!"
  | ERROR => "An error occurred"
  end.

(** [logs[-MAX_LOGS:]] when the list has grown beyond [MAX_LOGS]. *)
Definition trim_logs (l : list LogEntry) : list LogEntry :=
  if (MAX_LOGS <? length l)%nat then py_last MAX_LOGS l else l.

Definition log (msg now : string) (j : GenerationJob) : GenerationJob :=
  let p := match progress j with
           | Some p => p
           | None => mkProgress "" 0 None None now []
           end in
  set_progress
    (Some (mkProgress (currentAction p) (subProgress p) (currentStep p) (totalSteps p)
                      (phaseStartedAt p) (trim_logs (logs p ++ [mkLog now msg]))))
    j.

(** Truth value of an optional integer: [None] and [0] are false. *)
Definition int_truthy (n : option Z) : bool :=
  match n with Some k => negb (k =? 0) | None => false end.

Definition start_phase (s : JobStatus) (total_steps : option Z) (now : string)
    (j : GenerationJob) : GenerationJob :=
  let old_logs := match progress j with Some p => logs p | None => [] end in
  let j1 := set_status s j in
  let j2 := set_progress
              (Some (mkProgress (_get_default_action s) 0
                                (if int_truthy total_steps then Some 1 else None)
                                total_steps now old_logs)) j1 in
  log ("Starting phase: " +:+ status_value s) now j2.

(** [max(0, min(100, percent))]: [min] and [max] return their first
    argument unless the second is strictly smaller, respectively larger. *)
Definition py_min (a b : Q) : Q := if Qlt_le_dec b a then b else a.
Definition py_max (a b : Q) : Q := if Qlt_le_dec a b then b else a.

Definition update_progress (percent : Q) (action : string) (step : option Z)
    (file : option string) (now : string) (j : GenerationJob) : GenerationJob :=
  let p := match progress j with
           | Some p => p
           | None => mkProgress action percent None None now []
           end in
  let p1 := mkProgress action (py_max 0 (py_min 100 percent))
                       (match step with Some k => Some k | None => currentStep p end)
                       (totalSteps p) (phaseStartedAt p) (logs p) in
  let log_message :=
    match file with
    | Some f => if str_truthy f then action +:+ " (" +:+ f +:+ ")" else action
    | None => action
    end in
  log ("[" +:+ py_str (py_round percent) +:+ "%] " +:+ log_message) now
      (set_progress (Some p1) j).

Definition complete_phase (now : string) (j : GenerationJob) : GenerationJob :=
  match progress j with
  | Some p =>
      log ("Phase completed: " +:+ status_value (status j)) now
          (set_progress
             (Some (mkProgress (currentAction p) 100 (currentStep p) (totalSteps p)
                               (phaseStartedAt p) (logs p))) j)
  | None => j
  end.

Definition set_error (msg now : string) (j : GenerationJob) : GenerationJob :=
  log ("Error: " +:+ msg) now
      (set_completedAt (Some now) (set_job_error (Some msg) (set_status ERROR j))).

(** ** The pipeline and the delete endpoint, [routers/generate.py] *)

(** Files kept by the server: the names present in [AUDIO_DIR] and in
    [OUTPUT_DIR]. *)
Record Server := mkServer {
  jobs : gmap string GenerationJob;
  sse_manager : SSEManager;
  audio_dir : gset string;
  output_dir : gset string
}.

(** What a collaborator does to the server while it runs: calls of
    [tracker.update_progress], calls of [sse_manager.broadcast] for the
    job, and files it writes. *)
Inductive Effect :=
| Progress (percent : Q) (action : string) (step : option Z) (file : option string)
           (now : string)
| Emit (event_type : StreamEventType) (data now : string)
| WriteAudio (name : string)
| WriteVideo (name : string).

(** One awaited collaborator call: its effects, in order, and its end. *)
Record Run (A : Type) := mkRun {
  effects : list Effect;
  outcome : Completion A
}.
Arguments mkRun {A}.
Arguments effects {A}.
Arguments outcome {A}.

(** The three collaborators, as [process_job] calls them; the arguments
    taken from the request (prompt, language, style, voice speed) are
    part of the collaborator. *)
Record Collaborators := mkCollaborators {
  generate_tutorial_content : Run TutorialContent;
  generate_all_audio : TutorialContent -> Run (list string);
  render_video : TutorialContent -> list string -> Run string
}.

(** The state [process_job] works on: the job object it holds and the
    rest of the server. *)
Definition apply_effect (job_id : string) (e : Effect)
    (st : GenerationJob * Server) : GenerationJob * Server :=
  let '(j, srv) := st in
  match e with
  | Progress percent action step file now =>
      (update_progress percent action step file now j, srv)
  | Emit ty data now =>
      (j, mkServer (jobs srv) (broadcast job_id ty data now (sse_manager srv))
                   (audio_dir srv) (output_dir srv))
  | WriteAudio name =>
      (j, mkServer (jobs srv) (sse_manager srv) ({[name]} ∪ audio_dir srv) (output_dir srv))
  | WriteVideo name =>
      (j, mkServer (jobs srv) (sse_manager srv) (audio_dir srv) ({[name]} ∪ output_dir srv))
  end.

Definition apply_effects (job_id : string) (es : list Effect)
    (st : GenerationJob * Server) : GenerationJob * Server :=
  foldl (λ st e, apply_effect job_id e st) st es.

Definition on_sse (f : SSEManager -> SSEManager) (st : GenerationJob * Server)
  : GenerationJob * Server :=
  (st.1, mkServer (jobs st.2) (f (sse_manager st.2)) (audio_dir st.2) (output_dir st.2)).

Definition on_job (f : GenerationJob -> GenerationJob) (st : GenerationJob * Server)
  : GenerationJob * Server :=
  (f st.1, st.2).

(** [s] starts with [p]. *)
Fixpoint starts_with (p s : string) : bool :=
  match p, s with
  | EmptyString, _ => true
  | String a p', String b s' => if Ascii.eqb a b then starts_with p' s' else false
  | String _ _, EmptyString => false
  end.

(** [cleanup_audio]: unlink what [AUDIO_DIR.glob(f"{job_id}_*")] finds.
    Job ids are UUIDs and hold no character that is special in a
    pattern, so the pattern matches the names that start with the id and
    an underscore. *)
Definition cleanup_audio (job_id : string) (srv : Server) : Server :=
  mkServer (jobs srv) (sse_manager srv)
           (filter (λ name, starts_with (job_id +:+ "_") name = false) (audio_dir srv))
           (output_dir srv).

(** [delete_video]: unlink [OUTPUT_DIR / f"{job_id}.mp4"], ignoring a
    missing file. *)
Definition delete_video (job_id : string) (srv : Server) : Server :=
  mkServer (jobs srv) (sse_manager srv) (audio_dir srv)
           (output_dir srv ∖ {[job_id +:+ ".mp4"]}).

(** The [except Exception] branch of [process_job]. *)
Definition on_failure (job_id : string) (clock : nat -> string) (e : Exception)
    (st : GenerationJob * Server) : GenerationJob * Server :=
  let st1 := on_job (set_error (exception_str e) (clock 12%nat)) st in
  let st2 := on_sse (broadcast job_id STATUS "error" (clock 13%nat)) st1 in
  on_sse (complete_job job_id (clock 14%nat)) st2.

(** The body of [process_job] once the job object has been found.
    [clock n] is the reading of the clock at the [n]-th place where the
    body reads it. *)
Definition process_job_body (job_id : string) (clock : nat -> string)
    (co : Collaborators) (st : GenerationJob * Server) : GenerationJob * Server :=
  let st := on_job (set_startedAt (Some (clock 0%nat))) st in
  (* Step 1: generate content *)
  let st := on_job (start_phase GENERATING_CONTENT None (clock 1%nat)) st in
  let st := on_sse (broadcast job_id STATUS "generating_content" (clock 2%nat)) st in
  let r1 := generate_tutorial_content co in
  let st := apply_effects job_id (effects r1) st in
  match outcome r1 with
  | Raises e => on_failure job_id clock e st
  | Returns c =>
      let st := on_job (set_content (Some c)) st in
      let st := on_job (complete_phase (clock 3%nat)) st in
      (* Step 2: generate audio *)
      let st := on_job (start_phase GENERATING_AUDIO
                          (Some (Z.of_nat (length (steps c)))) (clock 4%nat)) st in
      let st := on_sse (broadcast job_id STATUS "generating_audio" (clock 5%nat)) st in
      let r2 := generate_all_audio co c in
      let st := apply_effects job_id (effects r2) st in
      match outcome r2 with
      | Raises e => on_failure job_id clock e st
      | Returns audio_files =>
          let st := on_job (set_audioFiles (Some audio_files)) st in
          let st := on_job (complete_phase (clock 6%nat)) st in
          (* Step 3: render video *)
          let st := on_job (start_phase RENDERING None (clock 7%nat)) st in
          let st := on_sse (broadcast job_id STATUS "rendering" (clock 8%nat)) st in
          let r3 := render_video co c audio_files in
          let st := apply_effects job_id (effects r3) st in
          match outcome r3 with
          | Raises e => on_failure job_id clock e st
          | Returns video_path =>
              let st := on_job (set_videoPath (Some video_path)) st in
              let st := on_job (set_status COMPLETED) st in
              let st := on_job (set_completedAt (Some (clock 9%nat))) st in
              let st := on_job (complete_phase (clock 10%nat)) st in
              let st := (st.1, cleanup_audio job_id st.2) in
              on_sse (complete_job job_id (clock 11%nat)) st
          end
      end
  end.

(** [process_job]: nothing happens for an unknown job; otherwise the job
    object of the table is the one the body updates. *)
Definition process_job (job_id : string) (clock : nat -> string)
    (co : Collaborators) (srv : Server) : Server :=
  match jobs srv !! job_id with
  | None => srv
  | Some job =>
      let '(job', srv') := process_job_body job_id clock co (job, srv) in
      mkServer (<[job_id := job']> (jobs srv')) (sse_manager srv')
               (audio_dir srv') (output_dir srv')
  end.

(** The job [start_generation] puts into the table. *)
Definition new_job (job_id prompt_ : string) (language_ : string) (style_ : StyleLevel)
    (voiceSpeed_ : Q) (now : string) : GenerationJob :=
  mkJob job_id PENDING prompt_ (Some language_) (Some style_) (Some voiceSpeed_)
        None None None None now None None None.

(** Answer of an endpoint. *)
Inductive Response := Success | HTTPException (status_code : Z) (detail : string).

Definition delete_job (job_id : string) (srv : Server) : Server * Response :=
  match jobs srv !! job_id with
  | None => (srv, HTTPException 404 "Job not found")
  | Some _ =>
      let srv1 := delete_video job_id srv in
      let srv2 := cleanup_audio job_id srv1 in
      (mkServer (delete job_id (jobs srv2)) (sse_manager srv2)
                (audio_dir srv2) (output_dir srv2),
       Success)
  end.

(** ** Notions used in the statements *)

#[global] Instance StreamEventType_eq_dec : EqDecision StreamEventType.
Proof. solve_decision. Defined.
#[global] Instance StreamLine_eq_dec : EqDecision StreamLine.
Proof. solve_decision. Defined.
#[global] Instance TaskState_eq_dec : EqDecision TaskState.
Proof. solve_decision. Defined.
#[global] Instance Task_eq_dec : EqDecision Task.
Proof. solve_decision. Defined.

(** *** The buffer *)

(** A request to broadcast: type, data and clock reading. *)
Definition Request : Type := StreamEventType * string * string.

Definition broadcast_all (job_id : string) (rs : list Request) (m : SSEManager)
  : SSEManager :=
  foldl (λ m '(ty, data, now), broadcast job_id ty data now m) m rs.

Definition appended_all (rs : list Request) (b : JobBuffer) : JobBuffer :=
  foldl (λ b '(ty, data, now), appended ty data now b) b rs.

(** The lines created for a list of requests when the counter stands at [c]. *)
Fixpoint emitted (c : Z) (rs : list Request) : list StreamLine :=
  match rs with
  | [] => []
  | (ty, data, now) :: rest => mkLine (py_str (c + 1)) ty data now :: emitted (c + 1) rest
  end.

(** The number a line's id stands for. *)
Definition line_num (l : StreamLine) : Z := default 0 (py_int (line_id l)).

(** An id is the numeral of its number. *)
Definition canonical (l : StreamLine) : Prop := line_id l = py_str (line_num l).

(** Ids grow strictly along the list. *)
Definition increasing (ls : list StreamLine) : Prop :=
  StronglySorted Z.lt (map line_num ls).

(** Well-formed buffer: retained ids are numerals, between 1 and the
    counter, and grow strictly. *)
Definition buffer_ok (b : JobBuffer) : Prop :=
  0 ≤ event_counter b ∧
  Forall (λ l, canonical l ∧ 1 ≤ line_num l ≤ event_counter b) (lines b) ∧
  increasing (lines b).

(** Two views of what a call does to one buffer object: nothing that the
    subscribers can see, or one more line. *)
Definition same (b b' : JobBuffer) : Prop :=
  lines b' = lines b ∧ event_counter b' = event_counter b ∧
  subscribers b' = subscribers b.

Definition pushed (b b' : JobBuffer) : Prop :=
  ∃ ty d now,
    let line := mkLine (py_str (event_counter b + 1)) ty d now in
    lines b' = trim (lines b ++ [line]) ∧
    event_counter b' = event_counter b + 1 ∧
    subscribers b' = put_nowait line <$> subscribers b.

(** *** Teardown *)

(** No teardown of the job is pending. *)
Definition no_pending_teardown (job_id : string) (m : SSEManager) : Prop :=
  map_Forall (λ _ t, task_job t = job_id → task_state t ≠ Pending) (tasks m).

(** Actions other than an explicit [complete_job] or [cleanup] of the job. *)
Definition leaves_alone (job_id : string) (a : Action) : Prop :=
  match a with
  | ACompleteJob j _ | ACleanup j => j ≠ job_id
  | _ => True
  end.

(** The job keeps its buffer at [a], with a counter of at least [c], and
    no teardown is pending for it. *)
Definition kept (job_id : string) (a : addr) (c : Z) (m : SSEManager) : Prop :=
  _jobs m !! job_id = Some a ∧ is_Some (buffers m !! a) ∧
  c ≤ event_counter (buffer_at m a) ∧ no_pending_teardown job_id m.

(** *** Subscribers *)

(** The events among the chunks, keepalives left out. *)
Definition events_of (cs : list Chunk) : list StreamLine :=
  omap (λ c, match c with Event l => Some l | Keepalive => None end) cs.

(** Events that come from [broadcast] calls of the server: the pipeline
    broadcasts [stdout], [stderr] and [status] events only. *)
Definition is_live (l : StreamLine) : bool :=
  match line_type l with
  | STDOUT | STDERR | STATUS => true
  | CONNECTED | HISTORY => false
  end.

Definition live_events (s : nat) (σ : System) : list StreamLine :=
  filter (λ l, is_live l = true) (events_of (chunks_of s σ)).

(** The buffer and queue a running generator holds. *)
Definition attached (g : Generator) : option (addr * addr) :=
  match g with
  | GNew _ _ | GClosed => None
  | GConnected _ a q | GHistory a q | GWaiting a q | GLoopYield a q => Some (a, q)
  end.

(** Number of the first event received (the connected event). *)
Definition conn_num (cs : list Chunk) : Z :=
  match events_of cs with
  | c :: _ => line_num c
  | [] => 0
  end.

Definition queue_len (s : nat) (σ : System) : nat :=
  match generators σ !! s ≫= attached with
  | Some (a, q) => length (queue_at (manager σ) a q)
  | None => 0%nat
  end.

(** No action of the trace finds the queue of subscriber [s] full. *)
Fixpoint never_full (s : nat) (tr : list Action) (σ : System) : bool :=
  match tr with
  | [] => true
  | a :: rest => (queue_len s σ <? QUEUE_MAXSIZE)%nat && never_full s rest (step a σ)
  end.

(** The chunks received once an outcome is known. *)
Definition record (cs : list Chunk) (o : Outcome) : list Chunk :=
  match o with
  | Yield c => cs ++ [c]
  | _ => cs
  end.

(** The step of a generator that an action stands for. *)
Definition generator_step (act : Action)
  : option (nat * (Generator -> SSEManager -> Generator * SSEManager * Outcome)) :=
  match act with
  | AResume s now => Some (s, λ g, resume g now)
  | ADeliver s => Some (s, deliver)
  | ATimeout s => Some (s, timeout)
  | AClose s => Some (s, λ g m, let '(g', m') := close g m in (g', m', Stop))
  | _ => None
  end.

(** *** The invariant of the process *)

(** Well-formed subscriber: what it has received is its connected event
    [conn], at most one history event [H] and the events [D] taken from its
    queue; [D] followed by the content of the queue grows strictly above
    [conn] and stays below the counter. *)
Definition gen_ok (B : addr → JobBuffer) (g : Generator) (cs : list Chunk) : Prop :=
  match g with
  | GNew _ _ => cs = []
  | _ =>
      (attached g = None ∧ cs = []) ∨
      ∃ conn H D,
        events_of cs = conn :: H ++ D ∧
        line_type conn = CONNECTED ∧
        Forall (λ h, line_type h = HISTORY) H ∧
        match g with
        | GConnected _ _ _ => H = [] ∧ D = [] ∧ cs = [Event conn]
        | GHistory _ _ => D = [] ∧ cs = Event conn :: map Event H
        | _ => True
        end ∧
        let Q := match attached g with
                 | Some (a, q) => default [] (subscribers (B a) !! q)
                 | None => []
                 end in
        increasing (D ++ Q) ∧
        Forall (λ l, canonical l ∧ line_num conn < line_num l) (D ++ Q) ∧
        match attached g with
        | Some (a, q) =>
            is_Some (subscribers (B a) !! q) ∧
            line_num conn ≤ event_counter (B a) ∧
            Forall (λ l, line_num l ≤ event_counter (B a)) (D ++ Q)
        | None => True
        end
  end.

Definition Inv (σ : System) : Prop :=
  let B := buffer_at (manager σ) in
  (∀ a, buffer_ok (B a)) ∧
  (∀ s, match generators σ !! s with
        | Some g => gen_ok B g (chunks_of s σ)
        | None => chunks_of s σ = []
        end) ∧
  (∀ s1 s2 g1 g2 p,
      generators σ !! s1 = Some g1 → generators σ !! s2 = Some g2 →
      attached g1 = Some p → attached g2 = Some p → s1 = s2).

(** What one step of a generator guarantees: the generator stays
    well-formed, buffers only grow their counter, and the queues of the
    other subscribers are left alone. *)
Definition step_post (m : SSEManager) (g : Generator) (cs : list Chunk)
    (r : Generator * SSEManager * Outcome) : Prop :=
  let B := buffer_at m in
  let B' := buffer_at r.1.2 in
  gen_ok B' r.1.1 (record cs r.2) ∧
  (∀ a, lines (B' a) = lines (B a) ∧ event_counter (B a) ≤ event_counter (B' a)) ∧
  (∀ a q', is_Some (subscribers (B a) !! q') → attached g ≠ Some (a, q') →
           subscribers (B' a) !! q' = subscribers (B a) !! q') ∧
  (∀ p, attached r.1.1 = Some p →
        attached g = Some p ∨ subscribers (B p.1) !! p.2 = None).

(** Every retained event above the connected event is in the queue or has
    been received. *)
Definition covered (B : addr → JobBuffer) (g : Generator) (cs : list Chunk) : Prop :=
  match attached g with
  | Some (a, q) =>
      ∀ x, x ∈ lines (B a) → conn_num cs < line_num x →
           x ∈ default [] (subscribers (B a) !! q) ∨ x ∈ events_of cs
  | None => True
  end.

Definition covered_at (s : nat) (σ : System) : Prop :=
  match generators σ !! s with
  | Some g => covered (buffer_at (manager σ)) g (chunks_of s σ)
  | None => True
  end.

(** *** The pipeline *)

(** The first stage that fails, if any. *)
Definition first_failure (co : Collaborators) : option Exception :=
  match outcome (generate_tutorial_content co) with
  | Raises e => Some e
  | Returns c =>
      match outcome (generate_all_audio co c) with
      | Raises e => Some e
      | Returns fs =>
          match outcome (render_video co c fs) with
          | Raises e => Some e
          | Returns _ => None
          end
      end
  end.

(** The result fields of a job. *)
Definition results (j : GenerationJob)
  : option TutorialContent * option (list string) * option string :=
  (content j, audioFiles j, videoPath j).

(** ** Data of the examples *)

(** A server with one job, its buffer, and files of two jobs. *)
Definition demo_server : Server :=
  mkServer {[ "job-1" := new_job "job-1" "sorting" "python" BEGINNER 1 "t0" ]}
           (broadcast "job-1" STATUS "generating_content" "t1" new_manager)
           {[ "job-1_step_0.mp3"; "job-2_step_0.mp3" ]}
           {[ "job-1.mp4" ]}.

(** Collaborators of a run in which the speech synthesis exceeds its
    deadline. *)
Definition audio_times_out : Collaborators :=
  mkCollaborators
    (mkRun [Progress 10 "Preparing prompt for AI..." None None "1"]
           (Returns (mkContent "T" [mkStep "c" "e" "python"])))
    (λ _, mkRun [] (Raises (TimeoutError "Audio generation for step 1" 60)))
    (λ _ _, mkRun [] (Returns "out.mp4")).

(** In [reordered] a broadcast falls between the connected event and the
    history event of subscriber 0. *)
Definition reordered : list Action :=
  [ABroadcast "job-1" STDOUT "a" "t0"; ASubscribe 0%nat "job-1" None;
   AResume 0%nat "t1"; ABroadcast "job-1" STDOUT "b" "t2";
   AResume 0%nat "t3"; AResume 0%nat "t4"; ADeliver 0%nat].

(** In [overflow] subscriber 0 does not read while 101 events are
    broadcast, then reads one event, another event is broadcast, and it
    reads the rest of its queue. *)
Definition overflow : list Action :=
  [ASubscribe 0%nat "job-1" None; AResume 0%nat "t0"; AResume 0%nat "t1"]
  ++ replicate 101 (ABroadcast "job-1" STDOUT "x" "t2")
  ++ [ADeliver 0%nat; AResume 0%nat "t3"; ABroadcast "job-1" STDOUT "y" "t4"]
  ++ concat (replicate 100 [ADeliver 0%nat; AResume 0%nat "t5"]).

(** In [in_step] subscriber 0 reads three events from a queue that never
    fills. *)
Definition in_step : list Action :=
  [ASubscribe 0%nat "job-1" None; AResume 0%nat "t0"; AResume 0%nat "t1";
   ABroadcast "job-1" STDOUT "a" "t2"; ABroadcast "job-1" STDERR "b" "t3";
   ABroadcast "job-1" STATUS "c" "t4";
   ADeliver 0%nat; AResume 0%nat "t5"; ADeliver 0%nat; AResume 0%nat "t6"; ADeliver 0%nat].
(** ** Further notions for the bus *)

(** The buffer holds at most [MAX_BUFFER_LINES] lines and each queue at
    most [QUEUE_MAXSIZE] items. *)
Definition bounded (b : JobBuffer) : Prop :=
  (length (lines b) <= MAX_BUFFER_LINES)%nat ∧
  map_Forall (λ _ Q, (length Q <= QUEUE_MAXSIZE)%nat) (subscribers b).

(** A buffer object only moves forward: its counter does not decrease and
    the completion flag is not taken back. *)
Definition grows (b b' : JobBuffer) : Prop :=
  event_counter b ≤ event_counter b' ∧ (is_complete b = true → is_complete b' = true).

(** The consumer of subscriber [s] reads [n] items in a row: each item is
    taken from the queue and the generator is resumed after it. *)
Definition read_items (s : nat) (now : string) (n : nat) : list Action :=
  concat (replicate n [ADeliver s; AResume s now]).


(** What a subscriber that waits on a completed job does until its
    generator ends: with items in its queue it takes them one by one; with
    an empty queue the thirty seconds pass, it yields a keepalive and is
    resumed. *)
Definition drain (s : nat) (now : string) (Q : list StreamLine) : list Action :=
  match Q with
  | [] => [ATimeout s; AResume s now]
  | _ :: _ => read_items s now (length Q)
  end.

Definition drained (Q : list StreamLine) : list Chunk :=
  match Q with
  | [] => [Keepalive]
  | _ :: _ => Event <$> Q
  end.

(** ** Further notions for the tracker *)

(** The log entries a job holds. *)
Definition job_logs (j : GenerationJob) : list LogEntry :=
  match progress j with Some p => logs p | None => [] end.

(** A call of one of the methods of the tracker. *)
Inductive TrackerCall :=
| CallStartPhase (s : JobStatus) (total_steps : option Z) (now : string)
| CallUpdateProgress (percent : Q) (action : string) (step : option Z)
    (file : option string) (now : string)
| CallLog (msg now : string)
| CallCompletePhase (now : string)
| CallSetError (msg now : string).

Definition call (c : TrackerCall) (j : GenerationJob) : GenerationJob :=
  match c with
  | CallStartPhase s total_steps now => start_phase s total_steps now j
  | CallUpdateProgress percent action step file now =>
      update_progress percent action step file now j
  | CallLog msg now => log msg now j
  | CallCompletePhase now => complete_phase now j
  | CallSetError msg now => set_error msg now j
  end.

Definition calls (cs : list TrackerCall) (j : GenerationJob) : GenerationJob :=
  foldl (λ j c, call c j) j cs.

(** The calls of [update_progress] made during a phase: percentage,
    action, step and time of each (no file is named). *)
Definition Update : Type := Q * string * option Z * string.

Definition updates (us : list Update) (j : GenerationJob) : GenerationJob :=
  foldl (λ j '(percent, action, step, now), update_progress percent action step None now j)
        j us.

(** The step and the action shown after the updates of a phase. *)
Definition shown_step (start : option Z) (us : list Update) : option Z :=
  foldl (λ acc '(_, _, step, _), match step with Some k => Some k | None => acc end)
        start us.

Definition shown_action (start : string) (us : list Update) : string :=
  foldl (λ acc '(_, action, _, _), action) start us.

(** ** Speech synthesis, [services/tts.py]

    The text-to-speech service is outside the program.  A call of
    [generate_audio] is described by the way it is seen from
    [generate_all_audio]: the coroutine that is awaited, and whether a
    file is found at the output path when the call did not return (it
    failed, or was cancelled at the deadline); a call that returns has
    saved its file.  [AUDIO_DIR] is the text of the directory path, on a
    system where the parts of a path are joined by a slash.
    [percent_of i n] is the value of [round((i / n) * 100)], which the
    code computes in floating point. *)

Record Synthesis := mkSynthesis {
  synthesis : Coroutine unit;
  leaves_file : bool
}.

Module tts.

(** [Timeouts.AUDIO_PER_STEP] *)
Definition AUDIO_PER_STEP : Q := 60.

(** [f"{job_id}_step_{i}.mp3"] *)
Definition audio_name (job_id : string) (i : nat) : string :=
  job_id +:+ "_step_" +:+ py_str (Z.of_nat i) +:+ ".mp3".

(** [str(AUDIO_DIR / name)] *)
Definition audio_path (AUDIO_DIR : string) (name : string) : string :=
  AUDIO_DIR +:+ "/" +:+ name.

(** The loop of [generate_all_audio] from index [i] on; [audio_paths] are
    the paths collected so far.  [tracker] tells whether a tracker was
    passed; [clock i] is the reading of the clock in the [i]-th call of
    [update_progress]. *)
Fixpoint audio_loop (AUDIO_DIR : string) (generate_audio : string -> string -> Q -> Synthesis)
    (percent_of : nat -> nat -> Z) (clock : nat -> string)
    (total_steps : nat) (job_id : string) (voice_speed : Q) (tracker : bool)
    (i : nat) (explanations : list string) (audio_paths : list string)
  : Run (list string) :=
  match explanations with
  | [] =>
      mkRun (if tracker
             then [Progress 100 "Audio generation complete"
                            (Some (Z.of_nat total_steps)) None (clock i)]
             else [])
            (Returns audio_paths)
  | explanation :: rest =>
      let step_num := Z.of_nat i + 1 in
      let percent := percent_of i total_steps in
      let report :=
        if tracker
        then [Progress (inject_Z percent)
                       ("Generating audio for step " +:+ py_str step_num +:+ "/"
                          +:+ py_str (Z.of_nat total_steps))
                       (Some step_num) None (clock i)]
        else [] in
      let output_path := audio_path AUDIO_DIR (audio_name job_id i) in
      let call := generate_audio explanation output_path voice_speed in
      match with_timeout (synthesis call) AUDIO_PER_STEP
                         ("Audio generation for step " +:+ py_str step_num) with
      | Returns _ =>
          let r := audio_loop AUDIO_DIR generate_audio percent_of clock total_steps
                              job_id voice_speed tracker (S i) rest
                              (audio_paths ++ [output_path]) in
          mkRun (report ++ WriteAudio (audio_name job_id i) :: effects r) (outcome r)
      | Raises e =>
          mkRun (report ++ if leaves_file call then [WriteAudio (audio_name job_id i)] else [])
                (Raises e)
      end
  end.

Definition generate_all_audio (AUDIO_DIR : string)
    (generate_audio : string -> string -> Q -> Synthesis)
    (percent_of : nat -> nat -> Z) (clock : nat -> string)
    (explanations : list string) (job_id : string) (voice_speed : Q) (tracker : bool)
  : Run (list string) :=
  audio_loop AUDIO_DIR generate_audio percent_of clock (length explanations)
             job_id voice_speed tracker 0 explanations [].

End tts.

(** The call of [generate_all_audio] in [process_job]:
    [job.voiceSpeed or 1.0] is the speed, and the tracker is passed. *)
Definition speed_or_default (v : option Q) : Q :=
  match v with
  | Some x => if Qeq_bool x 0 then 1 else x
  | None => 1
  end.

Definition audio_stage (AUDIO_DIR : string)
    (generate_audio : string -> string -> Q -> Synthesis)
    (percent_of : nat -> nat -> Z) (clock : nat -> string)
    (job_id : string) (voice_speed : option Q) (c : TutorialContent)
  : Run (list string) :=
  tts.generate_all_audio AUDIO_DIR generate_audio percent_of clock
    (explanation <$> steps c) job_id (speed_or_default voice_speed) true.

(** The synthesis of step [i] ends in time with its file saved. *)
Definition in_time (AUDIO_DIR : string) (generate_audio : string -> string -> Q -> Synthesis)
    (job_id : string) (voice_speed : Q) (i : nat) (text : string) : Prop :=
  ∃ d, finishes_after (synthesis (generate_audio text
                         (tts.audio_path AUDIO_DIR (tts.audio_name job_id i)) voice_speed))
       = Some d ∧ (d < 60)%Q ∧
       completion (synthesis (generate_audio text
                    (tts.audio_path AUDIO_DIR (tts.audio_name job_id i)) voice_speed))
       = Returns ().

(** The files written by a run. *)
Definition written {A} (r : Run A) : list string :=
  omap (λ e, match e with WriteAudio name => Some name | _ => None end) (effects r).

(** The steps for which a run reports progress. *)
Definition reported {A} (r : Run A) : list (option Z) :=
  omap (λ e, match e with Progress _ _ step _ _ => Some step | _ => None end) (effects r).

(** Two services for the examples: one that saves every file after two
    seconds, and one that never answers for the text [slow]. *)
Definition quick_service (text output_path : string) (voice_speed : Q) : Synthesis :=
  mkSynthesis (mkCoroutine (Some 2%Q) (Returns ())) false.

Definition stalling_service (text output_path : string) (voice_speed : Q) : Synthesis :=
  if bool_decide (text = "slow")
  then mkSynthesis (mkCoroutine None (Returns ())) false
  else mkSynthesis (mkCoroutine (Some 2%Q) (Returns ())) false.

(** ** The other endpoints, [routers/generate.py] *)

(** The body of a request to [/generate] and [/preview]. *)
Record GenerateRequest := mkRequest {
  req_prompt : string;
  req_language : option string;
  req_style : option StyleLevel;
  req_voiceSpeed : option Q
}.

(** What an endpoint answers: the value it returns, or the
    [HTTPException] it raises. *)
Inductive Reply (A : Type) :=
| Body (v : A)
| Refused (status_code : Z) (detail : string).
Arguments Body {A} v.
Arguments Refused {A} status_code detail.

(** [request.language or "javascript"] *)
Definition language_or_default (l : option string) : string :=
  match l with
  | Some s => if str_truthy s then s else "javascript"
  | None => "javascript"
  end.

(** [request.style or StyleLevel.BEGINNER]: every member of the
    enumeration is a non-empty string. *)
Definition style_or_default (s : option StyleLevel) : StyleLevel :=
  match s with Some s => s | None => BEGINNER end.

(** [start_generation]; [job_id] is the identifier drawn by
    [uuid.uuid4()].  The third component is the argument of the call of
    [process_job] handed to the background tasks. *)
Definition start_generation (request : GenerateRequest) (job_id now : string)
    (srv : Server) : Server * Reply (string * JobStatus) * option string :=
  if negb (str_truthy (req_prompt request))
  then (srv, Refused 400 "Prompt is required", None)
  else
    let job := new_job job_id (req_prompt request)
                 (language_or_default (req_language request))
                 (style_or_default (req_style request))
                 (speed_or_default (req_voiceSpeed request)) now in
    (mkServer (<[job_id := job]> (jobs srv)) (sse_manager srv)
              (audio_dir srv) (output_dir srv),
     Body (job_id, status job), Some job_id).

Definition get_job (job_id : string) (srv : Server) : Reply GenerationJob :=
  match jobs srv !! job_id with
  | None => Refused 404 "Job not found"
  | Some job => Body job
  end.

(** [serve_video]: the path and the file name of the response. *)
Definition serve_video (job_id : string) (srv : Server) : Reply (string * string) :=
  match jobs srv !! job_id with
  | None => Refused 404 "Video not found"
  | Some job =>
      match status job, videoPath job with
      | COMPLETED, Some path =>
          if str_truthy path then Body (path, job_id +:+ ".mp4")
          else Refused 404 "Video not found"
      | _, _ => Refused 404 "Video not found"
      end
  end.

(** [serve_audio]: the path and the file name of the response. *)
Definition serve_audio (AUDIO_DIR : string) (job_id : string) (step : Z) (srv : Server)
  : Reply (string * string) :=
  let name := job_id +:+ "_step_" +:+ py_str step +:+ ".mp3" in
  if bool_decide (name ∈ audio_dir srv)
  then Body (tts.audio_path AUDIO_DIR name, name)
  else Refused 404 "Audio not found".

(** [stream_job]: the response carries the generator made by
    [sse_manager.subscribe], which has not started. *)
Definition stream_job (job_id : string) (last_event_id : option string) (srv : Server)
  : Reply Generator :=
  match jobs srv !! job_id with
  | None => Refused 404 "Job not found"
  | Some _ => Body (GNew job_id last_event_id)
  end.

(** [get_video_path] of [services/remotion.py] *)
Definition get_video_path (OUTPUT_DIR : string) (job_id : string) (srv : Server)
  : option string :=
  if bool_decide (job_id +:+ ".mp4" ∈ output_dir srv)
  then Some (OUTPUT_DIR +:+ "/" +:+ job_id +:+ ".mp4")
  else None.

(** The names of the audio files among the effects of a run. *)
Definition audio_written (es : list Effect) : list string :=
  omap (λ e, match e with WriteAudio name => Some name | _ => None end) es.

(** A subscriber that is resumed [n] times after a keepalive. *)
Definition idle (s : nat) (now : string) (n : nat) : list Action :=
  concat (replicate n [ATimeout s; AResume s now]).

(** Collaborators of a run in which every stage returns. *)
Definition all_return : Collaborators :=
  mkCollaborators
    (mkRun [Progress 10 "Preparing prompt for AI..." None None "1";
            Emit STDOUT "{}" "2"]
           (Returns (mkContent "T" [mkStep "c" "e" "python"])))
    (λ _, mkRun [Progress 0 "Generating audio for step 1/1" (Some 1) None "3";
                 WriteAudio "job-1_step_0.mp3"]
                (Returns ["/audio/job-1_step_0.mp3"]))
    (λ _ _, mkRun [WriteVideo "job-1.mp4"] (Returns "/output/job-1.mp4")).

(** Collaborators for job [job-1] whose speech synthesis is the model of
    [generate_all_audio] over the service that stalls on [slow]. *)
Definition second_step_stalls : Collaborators :=
  mkCollaborators
    (mkRun [] (Returns (mkContent "T" [mkStep "c0" "one" "python";
                                       mkStep "c1" "slow" "python";
                                       mkStep "c2" "three" "python"])))
    (audio_stage "/audio" stalling_service (λ _ _, 0) (λ _, "t") "job-1" (Some 1%Q))
    (λ _ _, mkRun [] (Returns "/output/job-1.mp4")).

(** ** The validation of the generated content, [services/claude.py]

    What [json.loads] returns: the finite numbers are integers or
    floats, and a dict is given by its items, whose keys are distinct. *)
#[warnings="-register-all"] Inductive JSON :=
| JNull
| JBool (b : bool)
| JInt (n : Z)
| JFloat (x : Q)
| JStr (s : string)
| JList (l : list JSON)
| JDict (items : list (string * JSON)).

(** Truth value of a parsed value. *)
Definition truthy (v : JSON) : bool :=
  match v with
  | JNull => false
  | JBool b => b
  | JInt n => negb (n =? 0)
  | JFloat x => negb (Qeq_bool x 0)
  | JStr s => str_truthy s
  | JList l => match l with [] => false | _ :: _ => true end
  | JDict items => match items with [] => false | _ :: _ => true end
  end.

(** [d.get(key)]: the value of the key, [None] when it is absent. *)
Definition dict_get (key : string) (items : list (string * JSON)) : JSON :=
  match find (λ item, String.eqb item.1 key) items with
  | Some item => item.2
  | None => JNull
  end.

(** How the checks on the parsed content end: with the validated value,
    with [RuntimeError(msg)], with the [AttributeError] of a call of
    [.get] on a value that is not a dict, or with the [ValidationError]
    of a model whose field of type [str] is given another value. *)
Inductive Checked (A : Type) :=
| Valid (v : A)
| Invalid (msg : string)
| AttributeError
| ValidationError.
Arguments Valid {A} v.
Arguments Invalid {A} msg.
Arguments AttributeError {A}.
Arguments ValidationError {A}.

(** A field of type [str] accepts a string only. *)
Definition as_str (v : JSON) : option string :=
  match v with JStr s => Some s | _ => None end.

(** The loop over the steps. *)
Fixpoint validated_steps (steps : list JSON) : Checked (list TutorialStep) :=
  match steps with
  | [] => Valid []
  | step :: rest =>
      match step with
      | JDict items =>
          if negb (truthy (dict_get "code" items))
             || negb (truthy (dict_get "explanation" items))
             || negb (truthy (dict_get "language" items))
          then Invalid "Invalid step structure: missing code, explanation, or language"
          else
            match as_str (dict_get "code" items), as_str (dict_get "explanation" items),
                  as_str (dict_get "language" items) with
            | Some c, Some e, Some l =>
                match validated_steps rest with
                | Valid vs => Valid (mkStep c e l :: vs)
                | failure => failure
                end
            | _, _, _ => ValidationError
            end
      | _ => AttributeError
      end
  end.

(** The checks of [run_claude] on the parsed [content_dict], from
    "Validate structure" to the end.  The first component tells whether
    the report "Content generation complete" was reached. *)
Definition validate_content (content_dict : JSON) : bool * Checked TutorialContent :=
  match content_dict with
  | JDict items =>
      if negb (truthy (dict_get "title" items)) || negb (truthy (dict_get "steps" items))
      then (false, Invalid "Invalid tutorial structure: missing title or steps")
      else
        match dict_get "steps" items with
        | JList ((_ :: _) as steps) =>
            match validated_steps steps with
            | Valid vs =>
                (true,
                 match as_str (dict_get "title" items) with
                 | Some t => Valid (mkContent t vs)
                 | None => ValidationError
                 end)
            | Invalid msg => (false, Invalid msg)
            | AttributeError => (false, AttributeError)
            | ValidationError => (false, ValidationError)
            end
        | _ =>
            (false, Invalid "Invalid tutorial structure: steps must be a non-empty array")
        end
  | _ => (false, AttributeError)
  end.

(** The message of the second check. *)
Definition not_an_array : string :=
  "Invalid tutorial structure: steps must be a non-empty array".

(** A parsed answer with one step. *)
Definition one_step_answer : JSON :=
  JDict [("title", JStr "T");
         ("steps", JList [JDict [("code", JStr "c"); ("explanation", JStr "e");
                                 ("language", JStr "python")]])].

(** * Properties *)

(** ** The definitions at work *)

Example json_lines_escapes :
  json_lines [mkLine "1" STDOUT ("a" +:+ dquote +:+ "b" +:+ nl) "t"] =
  "[{" +:+ dquote +:+ "id" +:+ dquote +:+ ": " +:+ dquote +:+ "1" +:+ dquote +:+ ", "
       +:+ dquote +:+ "type" +:+ dquote +:+ ": " +:+ dquote +:+ "stdout" +:+ dquote +:+ ", "
       +:+ dquote +:+ "data" +:+ dquote +:+ ": " +:+ dquote +:+ "a\" +:+ dquote +:+ "b\n" +:+ dquote +:+ ", "
       +:+ dquote +:+ "timestamp" +:+ dquote +:+ ": " +:+ dquote +:+ "t" +:+ dquote +:+ "}]".
Proof. reflexivity. Qed.

Example format_sse_head :
  _format_sse (mkLine "7" STATUS "rendering" "t") =
  "id: 7" +:+ nl +:+ "event: status" +:+ nl +:+ "data: "
    +:+ json_line (mkLine "7" STATUS "rendering" "t") +:+ nl +:+ nl.
Proof. reflexivity. Qed.

Example py_int_examples :
  map py_int ["12"; ""; "-3"; "007"; "x"] = [Some 12; None; Some (-3); Some 7; None].
Proof. reflexivity. Qed.

Example broadcast_first :
  job_buffer "job-1" (broadcast "job-1" STDOUT "x" "t0" new_manager)
  = Some (mkBuffer [mkLine "1" STDOUT "x" "t0"] 1 false ∅).
Proof. by vm_compute. Qed.

Example reordered_chunks :
  map (λ l, (line_id l, line_type l)) (events_of (chunks_of 0%nat (run reordered initial)))
  = [("2", CONNECTED); ("4", HISTORY); ("3", STDOUT)].
Proof. by vm_compute. Qed.

(** A subscriber that arrives after completion finds an empty queue: it
    leaves the loop only after a keepalive. *)
Example late_subscriber_closes_after_keepalive :
  let σ := run [ABroadcast "job-1" STDOUT "x" "t0"; ACompleteJob "job-1" "t1";
                ASubscribe 0%nat "job-1" None; AResume 0%nat "t2"; AResume 0%nat "t3";
                AResume 0%nat "t4"; ATimeout 0%nat; AResume 0%nat "t5"] initial in
  generators σ !! 0%nat = Some GClosed ∧
  map chunk_text (drop 2 (chunks_of 0%nat σ)) = [keepalive].
Proof. by vm_compute. Qed.

(** ** Numerals *)

Lemma py_int_str (n : Z) : py_int (py_str n) = Some n.
Proof.
  unfold py_int, py_str.
  rewrite NilZero.isi.
  - simpl. f_equal. apply DecimalZ.of_to.
  - destruct n; simpl; try discriminate.
    intros [= H]. by apply DecimalPos.Unsigned.to_uint_nonnil in H.
  - destruct n; simpl; try discriminate.
    intros [= H]. by apply DecimalPos.Unsigned.to_uint_nonnil in H.
Qed.

Lemma py_str_inj (n k : Z) : py_str n = py_str k → n = k.
Proof.
  intros H. apply (f_equal py_int) in H. rewrite !py_int_str in H. congruence.
Qed.

Lemma line_num_str n ty d t : line_num (mkLine (py_str n) ty d t) = n.
Proof. unfold line_num. simpl. by rewrite py_int_str. Qed.

Lemma trim_py_last ls : trim ls = py_last MAX_BUFFER_LINES ls.
Proof.
  unfold trim, py_last. destruct (Nat.ltb_spec MAX_BUFFER_LINES (length ls)) as [H|H]; [done|].
  replace (length ls - MAX_BUFFER_LINES)%nat with 0%nat by lia. done.
Qed.

(** ** The store: how each operation changes the buffer objects *)

Lemma buffer_at_set_buffer a b m a' :
  buffer_at (set_buffer a b m) a' = if decide (a' = a) then b else buffer_at m a'.
Proof.
  unfold buffer_at, set_buffer. simpl. case_decide as H.
  - subst. by rewrite lookup_insert_eq.
  - by rewrite lookup_insert_ne.
Qed.

Lemma buffer_at_fresh m : buffer_at m (fresh (dom (buffers m))) = new_buffer.
Proof.
  unfold buffer_at.
  assert (buffers m !! fresh (dom (buffers m)) = None) as ->; [|done].
  apply not_elem_of_dom, is_fresh.
Qed.

Lemma buffer_at_get_or_create job m a' :
  buffer_at (_get_or_create_buffer job m).2 a' = buffer_at m a'.
Proof.
  unfold _get_or_create_buffer. destruct (_jobs m !! job); [done|]. simpl.
  unfold buffer_at at 1. simpl.
  destruct (decide (a' = fresh (dom (buffers m)))) as [->|H].
  - by rewrite lookup_insert_eq, buffer_at_fresh.
  - by rewrite lookup_insert_ne.
Qed.

Lemma jobs_get_or_create job m :
  _jobs (_get_or_create_buffer job m).2 !! job = Some (_get_or_create_buffer job m).1.
Proof.
  unfold _get_or_create_buffer. destruct (_jobs m !! job) eqn:E; simpl; [done|].
  by rewrite lookup_insert_eq.
Qed.

Lemma buffer_at_broadcast job ty d now m a' :
  buffer_at (broadcast job ty d now m) a' =
  if decide (a' = (_get_or_create_buffer job m).1)
  then appended ty d now (buffer_at m a') else buffer_at m a'.
Proof.
  unfold broadcast. destruct (_get_or_create_buffer job m) as [a m1] eqn:E. simpl.
  rewrite buffer_at_set_buffer.
  replace m1 with (_get_or_create_buffer job m).2 by (by rewrite E).
  rewrite !buffer_at_get_or_create. by case_decide; subst.
Qed.

Lemma jobs_broadcast job ty d now m :
  _jobs (broadcast job ty d now m) !! job = Some (_get_or_create_buffer job m).1.
Proof.
  unfold broadcast. pose proof (jobs_get_or_create job m) as H.
  destruct (_get_or_create_buffer job m) as [a m1]. done.
Qed.

Lemma job_buffer_at job m a :
  _jobs m !! job = Some a → is_Some (buffers m !! a) →
  job_buffer job m = Some (buffer_at m a).
Proof.
  intros Hj [b Hb]. unfold job_buffer, buffer_at. rewrite Hj. simpl. by rewrite Hb.
Qed.

Lemma buffers_broadcast_some job ty d now m :
  is_Some (buffers (broadcast job ty d now m) !! (_get_or_create_buffer job m).1).
Proof.
  unfold broadcast. destruct (_get_or_create_buffer job m) as [a m1]. simpl.
  rewrite lookup_insert_eq. eauto.
Qed.

(** The buffer of a job after a broadcast, whether or not it existed. *)
Lemma job_buffer_broadcast job ty d now m :
  (_jobs m !! job = None ∨ is_Some (job_buffer job m)) →
  job_buffer job (broadcast job ty d now m) =
  Some (appended ty d now (default new_buffer (job_buffer job m))).
Proof.
  intros Hwf.
  rewrite (job_buffer_at _ _ _ (jobs_broadcast job ty d now m) (buffers_broadcast_some _ _ _ _ _)).
  rewrite buffer_at_broadcast, decide_True by done. do 2 f_equal.
  unfold job_buffer, _get_or_create_buffer.
  destruct (_jobs m !! job) as [a|] eqn:E; simpl.
  - destruct Hwf as [|[b Hb]]; [done|]. unfold job_buffer in Hb. rewrite E in Hb. simpl in Hb.
    unfold buffer_at. by rewrite Hb.
  - apply buffer_at_fresh.
Qed.

Lemma job_buffer_broadcast_all job rs m :
  (_jobs m !! job = None ∨ is_Some (job_buffer job m)) → rs ≠ [] →
  job_buffer job (broadcast_all job rs m) =
  Some (appended_all rs (default new_buffer (job_buffer job m))).
Proof.
  revert m. induction rs as [|[[ty d] now] rs IH]; intros m Hwf Hne; [done|].
  change (broadcast_all job ((ty, d, now) :: rs) m)
    with (broadcast_all job rs (broadcast job ty d now m)).
  change (appended_all ((ty, d, now) :: rs) ?b)
    with (appended_all rs (appended ty d now b)).
  destruct (decide (rs = [])) as [->|Hrs].
  - simpl. by apply job_buffer_broadcast.
  - rewrite IH; [|right|done].
    + by rewrite job_buffer_broadcast.
    + rewrite job_buffer_broadcast by done. eauto.
Qed.

Lemma py_last_app {A} n (l k : list A) :
  py_last n (py_last n l ++ k) = py_last n (l ++ k).
Proof.
  unfold py_last. rewrite !length_app, length_drop.
  destruct (decide (length l <= n)%nat) as [H|H].
  - replace (length l - n)%nat with 0%nat by lia. by rewrite drop_0, Nat.sub_0_r.
  - replace (length l - (length l - n) + length k - n)%nat with (length k) by lia.
    destruct (decide (length k <= n)%nat) as [Hk|Hk].
    + rewrite !drop_app_le by (rewrite ?length_drop; lia).
      rewrite drop_drop. do 2 f_equal. lia.
    + rewrite !drop_app_ge by (rewrite ?length_drop; lia).
      rewrite length_drop. f_equal. lia.
Qed.

Lemma length_py_last {A} n (l : list A) : length (py_last n l) = (length l `min` n)%nat.
Proof. unfold py_last. rewrite length_drop. lia. Qed.

Lemma length_emitted c rs : length (emitted c rs) = length rs.
Proof. revert c. induction rs as [|[[??]?] rs IH]; intros c; simpl; [done|]. by rewrite IH. Qed.

Lemma appended_all_spec rs b :
  (length (lines b) <= MAX_BUFFER_LINES)%nat →
  lines (appended_all rs b) = py_last MAX_BUFFER_LINES (lines b ++ emitted (event_counter b) rs)
  ∧ event_counter (appended_all rs b) = event_counter b + Z.of_nat (length rs).
Proof.
  revert b. induction rs as [|[[ty d] now] rs IH]; intros b Hb.
  - simpl. split; [|lia]. rewrite app_nil_r. unfold py_last.
    replace (length (lines b) - MAX_BUFFER_LINES)%nat with 0%nat by lia. done.
  - change (appended_all ((ty, d, now) :: rs) b)
      with (appended_all rs (appended ty d now b)).
    destruct (IH (appended ty d now b)) as [-> ->].
    + simpl. rewrite trim_py_last, length_py_last. lia.
    + simpl. split; [|lia].
      rewrite trim_py_last, py_last_app, <- app_assoc. done.
Qed.

Lemma emitted_ids c rs :
  map line_id (emitted c rs) = map py_str (seqZ (c + 1) (Z.of_nat (length rs))).
Proof.
  revert c. induction rs as [|[[ty d] now] rs IH]; intros c; [done|].
  simpl length. rewrite Nat2Z.inj_succ, seqZ_cons by lia. simpl.
  rewrite IH. do 3 f_equal. lia.
Qed.

Lemma NoDup_py_str (l : list Z) : NoDup l → NoDup (map py_str l).
Proof.
  intros H. apply NoDup_fmap_2; [|done]. intros ?? Heq. by apply py_str_inj.
Qed.

(** C7: broadcasting 501 events for a job without a buffer leaves the 500
    most recent ones, the first one discarded, the counter at 501, and
    the 501 ids handed out pairwise distinct. *)
Theorem broadcast_501 job rs m :
  _jobs m !! job = None → length rs = 501%nat →
  ∃ b, job_buffer job (broadcast_all job rs m) = Some b ∧
       lines b = drop 1 (emitted 0 rs) ∧
       length (lines b) = 500%nat ∧
       event_counter b = 501 ∧
       map line_id (emitted 0 rs) = map py_str (seqZ 1 501) ∧
       NoDup (map line_id (emitted 0 rs)).
Proof.
  intros Hj Hlen.
  rewrite job_buffer_broadcast_all; [|by left|by destruct rs].
  eexists; split; [done|].
  assert (job_buffer job m = None) as ->.
  { unfold job_buffer. by rewrite Hj. }
  simpl. destruct (appended_all_spec rs new_buffer) as [Hl Hc]; [simpl; lia|].
  simpl in Hl, Hc. rewrite Hl, Hc, Hlen.
  assert (py_last MAX_BUFFER_LINES (emitted 0 rs) = drop 1 (emitted 0 rs)) as ->.
  { unfold py_last. by rewrite length_emitted, Hlen. }
  rewrite length_drop, length_emitted, Hlen, emitted_ids, Hlen.
  repeat split; try done. apply NoDup_py_str, NoDup_seqZ.
Qed.

Lemma broadcast_501_witness :
  ∃ b, job_buffer "job-1" (broadcast_all "job-1" (replicate 501 (STDOUT, "x", "t")) new_manager) = Some b ∧
       length (lines b) = 500%nat ∧ event_counter b = 501.
Proof.
  destruct (broadcast_501 "job-1" (replicate 501 (STDOUT, "x", "t")) new_manager)
    as (b & Hb & _ & Hl & Hc & _).
  - reflexivity.
  - apply length_replicate.
  - exists b. auto.
Defined.

(** ** Completion *)

(** C10: [complete_job] for a job without a buffer changes nothing: no
    buffer is created, nothing is broadcast, no teardown is scheduled. *)
Theorem complete_job_unknown job now m :
  _jobs m !! job = None → complete_job job now m = m.
Proof. intros H. unfold complete_job. by rewrite H. Qed.

Lemma complete_job_unknown_witness :
  complete_job "job-1" "t" new_manager = new_manager.
Proof. apply (complete_job_unknown "job-1" "t" new_manager). reflexivity. Defined.

(** What [complete_job] does to the buffer object. *)
Lemma buffer_at_complete_job job now m a a' :
  _jobs m !! job = Some a →
  buffer_at (complete_job job now m) a' =
  if decide (a' = a)
  then appended STATUS "completed" now
         (mkBuffer (lines (buffer_at m a)) (event_counter (buffer_at m a)) true
                   (subscribers (buffer_at m a)))
  else buffer_at m a'.
Proof.
  intros Hj. unfold complete_job. rewrite Hj.
  unfold buffer_at at 1. simpl. fold (buffer_at (broadcast job STATUS "completed" now
    (set_buffer a (mkBuffer (lines (buffer_at m a)) (event_counter (buffer_at m a)) true
                   (subscribers (buffer_at m a))) m)) a').
  rewrite buffer_at_broadcast.
  unfold _get_or_create_buffer. simpl. rewrite Hj. simpl.
  rewrite buffer_at_set_buffer. by case_decide.
Qed.

Lemma jobs_complete_job job now m j' :
  _jobs (complete_job job now m) !! j' = _jobs m !! j'.
Proof.
  unfold complete_job. destruct (_jobs m !! job) as [a|] eqn:Hj; [|done]. simpl.
  unfold broadcast, _get_or_create_buffer. simpl. by rewrite Hj.
Qed.

Lemma buffers_complete_job_some job now m a :
  _jobs m !! job = Some a → is_Some (buffers (complete_job job now m) !! a).
Proof.
  intros Hj. unfold complete_job. rewrite Hj. simpl.
  unfold broadcast, _get_or_create_buffer. simpl. rewrite Hj. simpl.
  rewrite lookup_insert_eq. eauto.
Qed.

Lemma tasks_complete_job job now m a :
  _jobs m !! job = Some a →
  let t := fresh (dom (tasks m)) in
  _cleanup_tasks (complete_job job now m) = <[job := t]> (_cleanup_tasks m) ∧
  tasks (complete_job job now m) = <[t := mkTask job Pending]> (tasks m).
Proof.
  intros Hj. unfold complete_job. rewrite Hj. simpl.
  unfold broadcast, _get_or_create_buffer. simpl. by rewrite Hj.
Qed.




(** ** The deadline wrapper *)

Lemma with_timeout_returns {A} (coro : Coroutine A) d timeout label v :
  finishes_after coro = Some d → (d < timeout)%Q → completion coro = Returns v →
  with_timeout coro timeout label = Returns v.
Proof.
  intros Hd Hlt Hc. unfold with_timeout, wait_for. rewrite Hd.
  destruct (Qlt_le_dec d timeout) as [_|Hle]; [by rewrite Hc|].
  exfalso. by apply (Qlt_not_le d timeout).
Qed.

Lemma with_timeout_late {A} (coro : Coroutine A) timeout label :
  (∀ d, finishes_after coro = Some d → (timeout <= d)%Q) →
  with_timeout coro timeout label = Raises (TimeoutError label timeout).
Proof.
  intros Hd. unfold with_timeout, wait_for.
  destruct (finishes_after coro) as [d|]; [|done].
  destruct (Qlt_le_dec d timeout) as [Hlt|_]; [|done].
  exfalso. apply (Qlt_not_le d timeout Hlt). by apply Hd.
Qed.

Lemma with_timeout_raises {A} (coro : Coroutine A) d timeout label e :
  finishes_after coro = Some d → (d < timeout)%Q → completion coro = Raises e →
  e ≠ AsyncioTimeoutError →
  with_timeout coro timeout label = Raises e.
Proof.
  intros Hd Hlt Hc He. unfold with_timeout, wait_for. rewrite Hd.
  destruct (Qlt_le_dec d timeout) as [_|Hle].
  - rewrite Hc. by destruct e.
  - exfalso. by apply (Qlt_not_le d timeout).
Qed.

(** C4: an operation that ends in time with an [asyncio.TimeoutError] of
    its own (here after one second, under a deadline of sixty) is reported
    as having exceeded the deadline: the caller receives the wrapper's
    [TimeoutError] in place of the operation's error. *)
Theorem with_timeout_masks_inner_timeout :
  with_timeout (mkCoroutine (Some 1%Q) (Raises AsyncioTimeoutError : Completion string))
               60 "Audio generation for step 1"
  = Raises (TimeoutError "Audio generation for step 1" 60).
Proof. reflexivity. Qed.

(** ** The progress tracker *)

Lemma progress_log msg now j :
  ∃ p, progress (log msg now j) = Some p ∧
       subProgress p = match progress j with Some p0 => subProgress p0 | None => 0%Q end.
Proof. unfold log. simpl. eexists; split; [done|]. by destruct (progress j). Qed.

(** C8: [update_progress] stores the percentage clamped to [0,100]; a
    missing snapshot is created first. *)
Theorem update_progress_clamps percent action step file now j :
  ∃ p, progress (update_progress percent action step file now j) = Some p ∧
       (0 <= subProgress p)%Q ∧ (subProgress p <= 100)%Q ∧
       ((100 <= percent)%Q → subProgress p = 100%Q) ∧
       ((percent <= 0)%Q → subProgress p = 0%Q) ∧
       ((0 < percent)%Q → (percent < 100)%Q → subProgress p = percent) ∧
       currentAction p = action ∧
       (progress j = None →
          phaseStartedAt p = now ∧ totalSteps p = None ∧ currentStep p = step ∧
          ∃ entry, logs p = [entry] ∧ timestamp entry = now).
Proof.
  unfold update_progress, log. simpl. eexists. split; [reflexivity|]. simpl.
  unfold py_max, py_min.
  split; [|split; [|split; [|split; [|split; [|split]]]]].
  - destruct (Qlt_le_dec percent 100), (Qlt_le_dec 0 _); try done; by apply Qlt_le_weak.
  - destruct (Qlt_le_dec percent 100), (Qlt_le_dec 0 _); try done; by apply Qlt_le_weak.
  - intros H. destruct (Qlt_le_dec percent 100) as [Hlt|_].
    + exfalso. by apply (Qlt_not_le percent 100).
    + by destruct (Qlt_le_dec 0 100).
  - intros H. destruct (Qlt_le_dec percent 100) as [Hlt|Hge].
    + destruct (Qlt_le_dec 0 percent) as [Hpos|_]; [|done].
      exfalso. by apply (Qlt_not_le 0 percent).
    + exfalso. apply (Qlt_not_le 0 100); [done|]. by apply (Qle_trans _ percent).
  - intros Hpos Hlt. destruct (Qlt_le_dec percent 100) as [_|Hge].
    + destruct (Qlt_le_dec 0 percent) as [_|Hle]; [done|].
      exfalso. by apply (Qlt_not_le 0 percent).
    + exfalso. by apply (Qlt_not_le percent 100).
  - done.
  - intros ->. simpl. split; [done|]. split; [done|]. split; [by destruct step|].
    eexists. split; [reflexivity|done].
Qed.

Lemma update_progress_clamps_witness :
  ∃ p, progress (update_progress 150 "Rendering" None None "t1"
                   (new_job "job-1" "sorting" "python" BEGINNER 1 "t0")) = Some p ∧
       subProgress p = 100%Q.
Proof.
  destruct (update_progress_clamps 150 "Rendering" None None "t1"
              (new_job "job-1" "sorting" "python" BEGINNER 1 "t0"))
    as (p & Hp & _ & _ & H100 & _).
  exists p. split; [exact Hp|]. apply H100. unfold Qle. simpl. lia.
Defined.

Example update_progress_150 j :
  subProgress <$> progress (update_progress 150 "a" None None "t" j) = Some 100%Q.
Proof. reflexivity. Qed.

Example update_progress_minus_10 j :
  subProgress <$> progress (update_progress (-10) "a" None None "t" j) = Some 0%Q.
Proof. reflexivity. Qed.

Example update_progress_log :
  (map message <$> (logs <$> progress (update_progress (5 # 2) "Bundling" None (Some "a.ts") "t"
                  (new_job "job-1" "sorting" "python" BEGINNER 1 "t0"))))
  = Some ["[2%] Bundling (a.ts)"].
Proof. reflexivity. Qed.

Example py_round_ties :
  map py_round [1 # 2; 3 # 2; 5 # 2; -(1 # 2); 7 # 3; -(7 # 3)]%Q = [0; 2; 2; 0; 2; -2].
Proof. reflexivity. Qed.

Example exception_str_timeout :
  exception_str (TimeoutError "Video rendering" 780) =
  "Operation " +:+ dquote +:+ "Video rendering" +:+ dquote +:+ " timed out after 780 seconds".
Proof. reflexivity. Qed.

(** ** The delete endpoint *)

Lemma audio_dir_cleanup_audio job_id srv name :
  name ∈ audio_dir (cleanup_audio job_id srv) ↔
  name ∈ audio_dir srv ∧ starts_with (job_id +:+ "_") name = false.
Proof. unfold cleanup_audio. simpl. rewrite elem_of_filter. tauto. Qed.

(** C6 (as the code has it): deleting an existing job removes the job
    record, the video file and the audio files of the job, and leaves the
    broadcast bus exactly as it was. *)
Theorem delete_job_effect job_id srv j :
  jobs srv !! job_id = Some j →
  let srv' := (delete_job job_id srv).1 in
  (delete_job job_id srv).2 = Success ∧
  jobs srv' = delete job_id (jobs srv) ∧
  output_dir srv' = output_dir srv ∖ {[job_id +:+ ".mp4"]} ∧
  (∀ name, name ∈ audio_dir srv' ↔
           name ∈ audio_dir srv ∧ starts_with (job_id +:+ "_") name = false) ∧
  sse_manager srv' = sse_manager srv.
Proof.
  intros Hj. unfold delete_job. rewrite Hj. simpl.
  split; [done|]. split; [done|]. split; [done|]. split; [|done].
  intros name. apply (audio_dir_cleanup_audio job_id (delete_video job_id srv)).
Qed.

Lemma delete_job_effect_witness :
  sse_manager (delete_job "job-1" demo_server).1 = sse_manager demo_server.
Proof.
  apply (delete_job_effect "job-1" demo_server
           (new_job "job-1" "sorting" "python" BEGINNER 1 "t0")).
  reflexivity.
Defined.

(** C6 as stated fails: after [delete_job] the record and the files of
    the job are gone, but its buffer is still registered with the bus,
    where [cleanup] would have discarded it. *)
Lemma delete_job_keeps_buffer :
  let srv' := (delete_job "job-1" demo_server).1 in
  jobs srv' !! "job-1" = None ∧
  ("job-1_step_0.mp3" ∉ audio_dir srv') ∧ ("job-1.mp4" ∉ output_dir srv') ∧
  _jobs (sse_manager srv') !! "job-1" = Some 0%nat ∧
  _jobs (cleanup "job-1" (sse_manager demo_server)) !! "job-1" = None ∧
  sse_manager srv' ≠ cleanup "job-1" (sse_manager demo_server).
Proof.
  cbv zeta. split; [reflexivity|]. split; [|split; [|split; [|split]]].
  - change (audio_dir (delete_job "job-1" demo_server).1)
      with (audio_dir (cleanup_audio "job-1" (delete_video "job-1" demo_server))).
    rewrite audio_dir_cleanup_audio. by intros [_ ?].
  - change (output_dir (delete_job "job-1" demo_server).1)
      with (output_dir demo_server ∖ {["job-1.mp4"]}).
    rewrite elem_of_difference. intros [_ H]. apply H. by apply elem_of_singleton.
  - reflexivity.
  - reflexivity.
  - intros H. apply (f_equal (λ m, _jobs m !! "job-1")) in H. by vm_compute in H.
Qed.

(** ** The pipeline *)

Lemma results_log msg now j : results (log msg now j) = results j.
Proof. done. Qed.

Lemma results_update_progress percent action step file now j :
  results (update_progress percent action step file now j) = results j.
Proof. done. Qed.

Lemma results_start_phase s total now j : results (start_phase s total now j) = results j.
Proof. done. Qed.

Lemma results_complete_phase now j : results (complete_phase now j) = results j.
Proof. unfold complete_phase. by destruct (progress j). Qed.

Lemma results_apply_effects job_id es st :
  results (apply_effects job_id es st).1 = results st.1.
Proof.
  revert st. induction es as [|e es IH]; intros st; [done|].
  simpl. rewrite IH. destruct st as [j srv]. by destruct e.
Qed.

Lemma py_last_keeps_suffix {A} n (l k : list A) :
  (length k <= n)%nat → ∃ pre, py_last n (l ++ k) = pre ++ k.
Proof.
  intros H. unfold py_last. rewrite length_app.
  exists (drop (length l + length k - n) l). apply drop_app_le. lia.
Qed.


Lemma on_failure_spec job_id clock e st :
  let st' := on_failure job_id clock e st in
  status st'.1 = ERROR ∧ error st'.1 = Some (exception_str e) ∧
  completedAt st'.1 = Some (clock 12%nat) ∧
  results st'.1 = results st.1 ∧
  sse_manager st'.2 =
    complete_job job_id (clock 14%nat)
      (broadcast job_id STATUS "error" (clock 13%nat) (sse_manager st.2)).
Proof. done. Qed.

Lemma content_complete_phase now j : content (complete_phase now j) = content j.
Proof. exact (f_equal (λ r, r.1.1) (results_complete_phase now j)). Qed.
Lemma audioFiles_complete_phase now j : audioFiles (complete_phase now j) = audioFiles j.
Proof. exact (f_equal (λ r, r.1.2) (results_complete_phase now j)). Qed.
Lemma videoPath_complete_phase now j : videoPath (complete_phase now j) = videoPath j.
Proof. exact (f_equal (λ r, r.2) (results_complete_phase now j)). Qed.
Lemma content_apply_effects job_id es st :
  content (apply_effects job_id es st).1 = content st.1.
Proof. exact (f_equal (λ r, r.1.1) (results_apply_effects job_id es st)). Qed.
Lemma audioFiles_apply_effects job_id es st :
  audioFiles (apply_effects job_id es st).1 = audioFiles st.1.
Proof. exact (f_equal (λ r, r.1.2) (results_apply_effects job_id es st)). Qed.
Lemma videoPath_apply_effects job_id es st :
  videoPath (apply_effects job_id es st).1 = videoPath st.1.
Proof. exact (f_equal (λ r, r.2) (results_apply_effects job_id es st)). Qed.




(** ** A late subscriber and the teardown *)

Lemma manager_on_generator s f σ g :
  generators σ !! s = Some g →
  manager (on_generator s f σ) = (f g (manager σ)).1.2.
Proof.
  intros Hg. unfold on_generator. rewrite Hg.
  by destruct (f g (manager σ)) as [[??]?].
Qed.

Section kept.
(** The job [job], its buffer object [a] and a lower bound [c] of the
    counter are fixed. *)
Context (job : string) (a : addr) (c : Z).

Lemma kept_set_buffer a' b' m :
  (a' = a → c ≤ event_counter b') →
  kept job a c m → kept job a c (set_buffer a' b' m).
Proof.
  intros Hb (Hj & Hs & Hc & Ht). repeat split; try done.
  - simpl. rewrite lookup_insert. case_decide; eauto.
  - rewrite buffer_at_set_buffer. case_decide; subst; auto.
Qed.

Lemma kept_set_subscribers a' f m :
  kept job a c m → kept job a c (set_subscribers a' f m).
Proof.
  intros H. apply kept_set_buffer; [|done]. intros ->. simpl. apply H.
Qed.

Lemma kept_get_or_create job' m :
  kept job a c m → kept job a c (_get_or_create_buffer job' m).2.
Proof.
  intros (Hj & Hs & Hc & Ht). unfold _get_or_create_buffer.
  destruct (_jobs m !! job') eqn:E; [done|]. simpl.
  assert (fresh (dom (buffers m)) ≠ a) as Hne.
  { intros <-. apply (is_fresh (dom (buffers m))). by apply elem_of_dom. }
  repeat split; simpl.
  - rewrite lookup_insert_ne; [done|]. congruence.
  - by rewrite lookup_insert_ne.
  - unfold buffer_at. simpl. by rewrite lookup_insert_ne.
  - done.
Qed.

Lemma no_pending_cancel t m :
  no_pending_teardown job m →
  map_Forall (λ _ t, task_job t = job → task_state t ≠ Pending) (alter cancel t (tasks m)).
Proof.
  intros H k T. rewrite lookup_alter. case_decide as Hk.
  - subst. destruct (tasks m !! k) as [T0|] eqn:E; [|done]. simpl. intros [= <-].
    unfold cancel. specialize (H k T0 E). destruct (task_state T0); simpl; auto.
  - apply H.
Qed.

Lemma kept_cancel_pending job' m :
  kept job a c m → kept job a c (cancel_pending job' m).
Proof.
  intros (Hj & Hs & Hc & Ht). unfold cancel_pending.
  destruct (_cleanup_tasks m !! job'); [|done].
  repeat split; try done. by apply no_pending_cancel.
Qed.

Lemma kept_cleanup job' m :
  job' ≠ job → kept job a c m → kept job a c (cleanup job' m).
Proof.
  intros Hne H. apply (kept_cancel_pending job') in H.
  destruct H as (Hj & Hs & Hc & Ht). repeat split; try done.
  simpl. by rewrite lookup_delete_ne.
Qed.

Lemma kept_expire t m :
  kept job a c m → kept job a c (expire t m).
Proof.
  intros H. unfold expire.
  destruct (tasks m !! t) as [[job' []]|] eqn:E; try done.
  assert (job' ≠ job) as Hne.
  { intros ->. destruct H as (_ & _ & _ & Ht). by apply (Ht t _ E). }
  pose proof (kept_cleanup job' m Hne H) as (Hj & Hs & Hc & Ht).
  cbv zeta. set (m1 := cleanup job' m) in *.
  split; [done|]. split; [done|]. split; [done|].
  intros k T. cbn [tasks]. rewrite lookup_alter. case_decide as Hk; [|apply Ht].
  subst k. destruct (tasks m1 !! t) as [T0|] eqn:E0; [|done].
  simpl. intros [= <-]. specialize (Ht t T0 E0).
  unfold finish. destruct (task_state T0); simpl; auto.
Qed.

Lemma kept_broadcast job' ty d now m :
  kept job a c m → kept job a c (broadcast job' ty d now m).
Proof.
  intros H. unfold broadcast.
  pose proof (kept_get_or_create job' m H) as H1.
  destruct (_get_or_create_buffer job' m) as [a' m1]. simpl in H1.
  apply kept_set_buffer; [|done]. intros ->. simpl.
  destruct H1 as (_ & _ & ? & _). lia.
Qed.

Lemma kept_complete_job job' now m :
  job' ≠ job → kept job a c m → kept job a c (complete_job job' now m).
Proof.
  intros Hne H. unfold complete_job. destruct (_jobs m !! job') as [a'|]; [|done].
  set (m1 := set_buffer a' _ m).
  assert (kept job a c m1) as H1.
  { apply kept_set_buffer; [|done]. intros ->. simpl. apply H. }
  apply (kept_broadcast job' STATUS "completed" now) in H1.
  destruct H1 as (Hj & Hs & Hc & Ht). repeat split; try done.
  intros k T. simpl. rewrite lookup_insert. case_decide.
  - intros [= <-]. done.
  - apply Ht.
Qed.

Lemma kept_resume g now m :
  kept job a c m → kept job a c (resume g now m).1.2.
Proof.
  intros H. destruct g as [job' last|last a' q|a' q|a' q|a' q|]; simpl; try done.
  - pose proof (kept_get_or_create job' m H) as H1.
    destruct (_get_or_create_buffer job' m) as [a' m1]. simpl in *.
    apply (kept_cancel_pending job') in H1.
    apply kept_set_buffer; [|done]. intros ->. simpl.
    destruct H1 as (_ & _ & ? & _). lia.
  - destruct (lines (buffer_at m a')); [done|].
    destruct (history_start_id last ≫= _) as [[|x missed]|]; simpl; try done.
    + apply kept_set_buffer; [|done]. intros ->. simpl.
      destruct H as (_ & _ & ? & _). lia.
    + by apply kept_set_subscribers.
  - destruct (is_complete (buffer_at m a') && _); simpl; [|done].
    by apply kept_set_subscribers.
Qed.

Lemma kept_deliver g m :
  kept job a c m → kept job a c (deliver g m).1.2.
Proof.
  intros H. destruct g as [job' last|last a' q|a' q|a' q|a' q|]; simpl; try done.
  destruct (queue_at m a' q); simpl; [done|]. by apply kept_set_subscribers.
Qed.

Lemma kept_timeout g m :
  kept job a c m → kept job a c (timeout g m).1.2.
Proof.
  intros H. destruct g as [job' last|last a' q|a' q|a' q|a' q|]; simpl; try done.
  by destruct (queue_at m a' q).
Qed.

Lemma kept_close g m :
  kept job a c m → kept job a c (close g m).2.
Proof.
  intros H. destruct g; simpl; try done; by apply kept_set_subscribers.
Qed.

Lemma kept_step act σ :
  leaves_alone job act → kept job a c (manager σ) → kept job a c (manager (step act σ)).
Proof.
  intros Hact H. destruct act; simpl in *.
  - by apply kept_broadcast.
  - by apply kept_complete_job.
  - by apply kept_cleanup.
  - by apply kept_expire.
  - by destruct (generators σ !! s).
  - destruct (generators σ !! s) as [g|] eqn:E.
    + rewrite (manager_on_generator _ _ _ g E). by apply kept_resume.
    + unfold on_generator. by rewrite E.
  - destruct (generators σ !! s) as [g|] eqn:E.
    + rewrite (manager_on_generator _ _ _ g E). by apply kept_deliver.
    + unfold on_generator. by rewrite E.
  - destruct (generators σ !! s) as [g|] eqn:E.
    + rewrite (manager_on_generator _ _ _ g E). by apply kept_timeout.
    + unfold on_generator. by rewrite E.
  - destruct (generators σ !! s) as [g|] eqn:E.
    + rewrite (manager_on_generator _ _ _ g E).
      pose proof (kept_close g (manager σ) H). by destruct (close g (manager σ)).
    + unfold on_generator. by rewrite E.
Qed.

Lemma kept_run tr σ :
  Forall (leaves_alone job) tr → kept job a c (manager σ) →
  kept job a c (manager (run tr σ)).
Proof.
  intros Htr. revert σ. induction Htr as [|act tr Hact _ IH]; intros σ H; [done|].
  simpl. apply IH. by apply kept_step.
Qed.

End kept.

(** C9: a subscriber that arrives after [complete_job] cancels the
    scheduled teardown; nothing reschedules it, also not the end of that
    subscriber's stream, so the buffer and its counter stay until
    [cleanup] (or another [complete_job]) is called for the job. *)
Theorem late_subscriber_keeps_buffer σ job now1 s last now2 tr a :
  _jobs (manager σ) !! job = Some a →
  no_pending_teardown job (manager σ) →
  generators σ !! s = None →
  Forall (leaves_alone job) tr →
  let σ1 := step (ACompleteJob job now1) σ in
  let σ2 := run [ASubscribe s job last; AResume s now2] σ1 in
  let σ3 := run tr σ2 in
  (∃ t, _cleanup_tasks (manager σ1) !! job = Some t ∧
        tasks (manager σ1) !! t = Some (mkTask job Pending) ∧
        tasks (manager σ2) !! t = Some (mkTask job Cancelled)) ∧
  _cleanup_tasks (manager σ2) !! job = None ∧
  no_pending_teardown job (manager σ3) ∧
  ∃ b2 b3, job_buffer job (manager σ2) = Some b2 ∧
           job_buffer job (manager σ3) = Some b3 ∧
           event_counter b2 ≤ event_counter b3.
Proof.
  intros Hj Hns Hs Htr σ1 σ2 σ3.
  set (m1 := complete_job job now1 (manager σ)).
  destruct (tasks_complete_job job now1 (manager σ) a Hj) as [Hc1 Ht1].
  fold m1 in Hc1, Ht1. set (t := fresh (dom (tasks (manager σ)))) in *.
  assert (_jobs m1 !! job = Some a) as Hj1 by (unfold m1; by rewrite jobs_complete_job).
  assert (Hm2 : manager σ2 =
    set_buffer a (mkBuffer (lines (buffer_at (cancel_pending job m1) a))
                    (event_counter (buffer_at (cancel_pending job m1) a) + 1)
                    (is_complete (buffer_at (cancel_pending job m1) a))
                    (<[fresh (dom (subscribers (buffer_at (cancel_pending job m1) a))) := []]>
                       (subscribers (buffer_at (cancel_pending job m1) a))))
      (cancel_pending job m1)).
  { unfold σ2, σ1. simpl. rewrite Hs. unfold on_generator. simpl.
    rewrite lookup_insert_eq. simpl. fold m1.
    unfold _get_or_create_buffer. rewrite Hj1. done. }
  assert (Hcp : cancel_pending job m1 =
            mkManager (_jobs m1) (delete job (_cleanup_tasks m1)) (buffers m1)
                      (alter cancel t (tasks m1))).
  { unfold cancel_pending. by rewrite Hc1, lookup_insert_eq. }
  assert (Ht2 : tasks (manager σ2) !! t = Some (mkTask job Cancelled)).
  { rewrite Hm2, Hcp. simpl. rewrite lookup_alter, decide_True, Ht1, lookup_insert_eq by done.
    done. }
  assert (Hk : kept job a (event_counter (buffer_at (manager σ2) a)) (manager σ2)).
  { rewrite Hm2 at 2. repeat split.
    - simpl. by rewrite Hcp.
    - simpl. rewrite lookup_insert_eq. eauto.
    - rewrite <- Hm2. lia.
    - unfold no_pending_teardown. cbn [tasks set_buffer]. rewrite Hcp. cbn [tasks].
      intros k T. rewrite lookup_alter. case_decide as Hk.
      + subst k. rewrite Ht1, lookup_insert_eq. simpl. by intros [= <-].
      + rewrite Ht1, lookup_insert_ne by done. apply Hns. }
  split.
  { exists t. split; [|split; [|done]].
    - change (manager σ1) with m1. rewrite Hc1. apply lookup_insert_eq.
    - change (manager σ1) with m1. rewrite Ht1. apply lookup_insert_eq. }
  split.
  { rewrite Hm2, Hcp. simpl. apply lookup_delete_eq. }
  apply (kept_run _ _ _ tr σ2 Htr) in Hk as Hk3. fold σ3 in Hk3.
  destruct Hk as (Hj2 & Hb2 & _ & _). destruct Hk3 as (Hj3 & Hb3 & Hc3 & Hns3).
  split; [done|].
  exists (buffer_at (manager σ2) a), (buffer_at (manager σ3) a).
  split; [by apply job_buffer_at|]. split; [by apply job_buffer_at|]. done.
Qed.

Lemma late_subscriber_keeps_buffer_witness :
  let σ1 := step (ACompleteJob "job-1" "t1")
              (run [ABroadcast "job-1" STDOUT "x" "t0"] initial) in
  let σ2 := run [ASubscribe 7%nat "job-1" None; AResume 7%nat "t2"] σ1 in
  let σ3 := run [AResume 7%nat "t3"; AResume 7%nat "t4"; ATimeout 7%nat;
                 AResume 7%nat "t5"; AExpire 0%nat] σ2 in
  _cleanup_tasks (manager σ2) !! "job-1" = None ∧
  is_Some (job_buffer "job-1" (manager σ3)).
Proof.
  destruct (late_subscriber_keeps_buffer
              (run [ABroadcast "job-1" STDOUT "x" "t0"] initial) "job-1" "t1" 7%nat None "t2"
              [AResume 7%nat "t3"; AResume 7%nat "t4"; ATimeout 7%nat; AResume 7%nat "t5";
               AExpire 0%nat] 0%nat)
    as (_ & H2 & _ & b2 & b3 & _ & H3 & _).
  - reflexivity.
  - intros k T Hk. by vm_compute in Hk.
  - reflexivity.
  - repeat constructor.
  - split; [exact H2|]. exists b3. exact H3.
Defined.

(** ** The invariant of the process *)

Lemma increasing_snoc ls x :
  increasing ls → Forall (λ l, line_num l < line_num x) ls → increasing (ls ++ [x]).
Proof.
  unfold increasing. intros Hs Hf. rewrite map_app. apply StronglySorted_app_2; [|done|].
  - intros n1 n2 H1 H2. apply list_elem_of_fmap in H1 as (l & -> & Hl).
    apply list_elem_of_singleton in H2 as ->.
    by apply (proj1 (Forall_forall _ _) Hf).
  - simpl. repeat constructor.
Qed.

Lemma increasing_app_l l1 l2 : increasing (l1 ++ l2) → increasing l1.
Proof. unfold increasing. rewrite map_app. apply StronglySorted_app_1_l. Qed.

Lemma increasing_app_r l1 l2 : increasing (l1 ++ l2) → increasing l2.
Proof. unfold increasing. rewrite map_app. apply StronglySorted_app_1_r. Qed.

Lemma increasing_drop k ls : increasing ls → increasing (drop k ls).
Proof. intros H. rewrite <- (take_drop k ls) in H. by apply increasing_app_r in H. Qed.

Lemma increasing_lt l1 l2 x y :
  increasing (l1 ++ l2) → x ∈ l1 → y ∈ l2 → line_num x < line_num y.
Proof.
  unfold increasing. rewrite map_app. intros H Hx Hy.
  apply (StronglySorted_app_1_elem_of _ _ _ _ _ H); by apply list_elem_of_fmap_2.
Qed.

Lemma increasing_filter (P : StreamLine → Prop) `{∀ l, Decision (P l)} ls :
  increasing ls → increasing (filter P ls).
Proof.
  unfold increasing. induction ls as [|l ls IH]; [done|].
  simpl. rewrite StronglySorted_cons. intros [Hf Hs].
  rewrite filter_cons. case_decide; [|by apply IH].
  simpl. apply StronglySorted_cons. split; [|by apply IH].
  apply Forall_forall. intros n Hn. apply list_elem_of_fmap in Hn as (y & -> & Hy).
  apply list_elem_of_filter in Hy as [_ Hy].
  apply (proj1 (Forall_forall _ _) Hf). by apply list_elem_of_fmap_2.
Qed.

Lemma increasing_NoDup ls : increasing ls → Forall canonical ls → NoDup (map line_id ls).
Proof.
  unfold increasing. induction ls as [|l ls IH]; [constructor|].
  simpl. rewrite StronglySorted_cons, Forall_cons. intros [Hf Hs] [Hc Hcs].
  constructor; [|by apply IH].
  intros Hin. apply list_elem_of_fmap in Hin as (y & Hy & Hin).
  assert (line_num l < line_num y) as Hlt.
  { apply (proj1 (Forall_forall _ _) Hf). by apply list_elem_of_fmap_2. }
  assert (line_num l = line_num y); [|lia].
  unfold line_num. by rewrite Hy.
Qed.

Lemma canonical_str n ty d t : canonical (mkLine (py_str n) ty d t).
Proof. unfold canonical. by rewrite line_num_str. Qed.

Lemma buffer_ok_new : buffer_ok new_buffer.
Proof. repeat split; simpl; [lia|constructor|constructor]. Qed.

Lemma buffer_ok_same b b' : same b b' → buffer_ok b → buffer_ok b'.
Proof. intros (Hl & Hc & _) H. unfold buffer_ok. by rewrite Hl, Hc. Qed.

Lemma buffer_ok_bump b b' :
  lines b' = lines b → event_counter b ≤ event_counter b' → buffer_ok b → buffer_ok b'.
Proof.
  intros Hl Hc (H0 & Hf & Hs). unfold buffer_ok. rewrite Hl. repeat split; [lia| |done].
  eapply Forall_impl; [exact Hf|]. simpl. intros l [? ?]. split; [done|lia].
Qed.

Lemma buffer_ok_pushed b b' : pushed b b' → buffer_ok b → buffer_ok b'.
Proof.
  intros (ty & d & now & Hl & Hc & _) (H0 & Hf & Hs). unfold buffer_ok.
  rewrite Hl, Hc, trim_py_last. unfold py_last.
  assert (Forall (λ l, canonical l ∧ 1 ≤ line_num l ≤ event_counter b + 1)
            (lines b ++ [mkLine (py_str (event_counter b + 1)) ty d now])) as Hall.
  { apply Forall_app. split.
    - eapply Forall_impl; [exact Hf|]. simpl. intros l [? ?]. split; [done|lia].
    - constructor; [|constructor]. split; [apply canonical_str|].
      rewrite line_num_str. lia. }
  repeat split; [lia| |].
  - by apply Forall_drop.
  - apply increasing_drop, increasing_snoc; [done|].
    eapply Forall_impl; [exact Hf|]. simpl. intros l [? ?]. rewrite line_num_str. lia.
Qed.

Lemma pushed_appended ty d now b : pushed b (appended ty d now b).
Proof. by exists ty, d, now. Qed.

Lemma same_refl b : same b b.
Proof. done. Qed.

(** A generator stays well-formed when the environment lets the counter of
    its buffer grow and appends fresh lines to its queue. *)
Lemma gen_ok_transfer B B' g cs :
  (∀ a q, attached g = Some (a, q) →
     event_counter (B a) ≤ event_counter (B' a) ∧
     (is_Some (subscribers (B a) !! q) → is_Some (subscribers (B' a) !! q)) ∧
     ∃ ext, default [] (subscribers (B' a) !! q) = default [] (subscribers (B a) !! q) ++ ext ∧
            increasing ext ∧
            Forall (λ l, canonical l ∧
                         event_counter (B a) < line_num l ≤ event_counter (B' a)) ext) →
  gen_ok B g cs → gen_ok B' g cs.
Proof.
  intros Hext. destruct g as [job last|last a q|a q|a q|a q|]; simpl; [done| | | | |done].
  all: specialize (Hext a q eq_refl) as (Hc & Hsome & ext & -> & Hinc & Hfa).
  all: intros [[[=] _]|(conn & H & D & Hev & Hty & HH & Hshape & Hs & Hf & Hq & Hcn & Hle)];
    right; exists conn, H, D.
  all: repeat (split; [done|]).
  all: rewrite app_assoc.
  all: split; [|split; [|split; [by apply Hsome|split; [lia|]]]].
  all: try (unfold increasing; rewrite map_app; apply StronglySorted_app_2; [|done|done];
            intros n1 n2 H1 H2;
            apply list_elem_of_fmap in H1 as (l1 & -> & Hl1);
            apply list_elem_of_fmap in H2 as (l2 & -> & Hl2);
            pose proof (proj1 (Forall_forall _ _) Hle l1 Hl1);
            pose proof (proj1 (Forall_forall _ _) Hfa l2 Hl2); simpl in *; lia).
  all: try (apply Forall_app; split; [done|];
            eapply Forall_impl; [exact Hfa|]; simpl; intros l [? ?]; split; [done|lia]).
  all: apply Forall_app; split;
    [eapply Forall_impl; [exact Hle|]; simpl; intros; lia
    |eapply Forall_impl; [exact Hfa|]; simpl; intros l [? ?]; lia].
Qed.

Lemma gen_ok_same B B' g cs :
  (∀ a q, attached g = Some (a, q) → same (B a) (B' a)) →
  gen_ok B g cs → gen_ok B' g cs.
Proof.
  intros H. apply gen_ok_transfer. intros a q Ha.
  destruct (H a q Ha) as (_ & Hc & Hs). rewrite Hs, Hc.
  split; [lia|]. split; [done|]. exists []. rewrite app_nil_r.
  repeat split; constructor.
Qed.

Lemma gen_ok_pushed B B' g cs :
  (∀ a q, attached g = Some (a, q) → same (B a) (B' a) ∨ pushed (B a) (B' a)) →
  gen_ok B g cs → gen_ok B' g cs.
Proof.
  intros H. apply gen_ok_transfer. intros a q Ha.
  destruct (H a q Ha) as [(_ & Hc & Hs)|(ty & d & now & _ & Hc & Hs)].
  - rewrite Hs, Hc.
    split; [lia|]. split; [done|]. exists []. rewrite app_nil_r.
    repeat split; constructor.
  - rewrite Hs, Hc, lookup_fmap.
    split; [lia|]. split; [by intros [? ->]|].
    destruct (subscribers (B a) !! q) as [Q|]; simpl.
    + unfold put_nowait. destruct (length Q <? QUEUE_MAXSIZE)%nat.
      * eexists. split; [done|]. split; [repeat constructor|].
        constructor; [|constructor]. split; [apply canonical_str|].
        rewrite line_num_str. lia.
      * exists []. rewrite app_nil_r. repeat split; constructor.
    + exists []. repeat split; constructor.
Qed.

Lemma buffers_cancel_pending job m : buffers (cancel_pending job m) = buffers m.
Proof. unfold cancel_pending. by destruct (_cleanup_tasks m !! job). Qed.

Lemma buffers_cleanup job m : buffers (cleanup job m) = buffers m.
Proof. unfold cleanup. simpl. apply buffers_cancel_pending. Qed.

Lemma buffers_expire t m : buffers (expire t m) = buffers m.
Proof.
  unfold expire. destruct (tasks m !! t) as [[job []]|]; try done.
  simpl. apply buffers_cancel_pending.
Qed.

Lemma buffer_at_buffers m m' a : buffers m' = buffers m → buffer_at m' a = buffer_at m a.
Proof. unfold buffer_at. by intros ->. Qed.

(** The operations of the manager either leave a buffer object as it is
    or push one line. *)
Lemma broadcast_same_or_pushed job ty d now m a :
  same (buffer_at m a) (buffer_at (broadcast job ty d now m) a) ∨
  pushed (buffer_at m a) (buffer_at (broadcast job ty d now m) a).
Proof.
  rewrite buffer_at_broadcast. case_decide; [right; apply pushed_appended|by left].
Qed.

Lemma complete_job_same_or_pushed job now m a :
  same (buffer_at m a) (buffer_at (complete_job job now m) a) ∨
  pushed (buffer_at m a) (buffer_at (complete_job job now m) a).
Proof.
  destruct (_jobs m !! job) as [a0|] eqn:Hj.
  - rewrite (buffer_at_complete_job job now m a0 a Hj). case_decide; [|by left].
    subst. right. by exists STATUS, "completed", now.
  - unfold complete_job. rewrite Hj. by left.
Qed.

Lemma manager_step_same_or_pushed act σ a :
  generator_step act = None →
  same (buffer_at (manager σ) a) (buffer_at (manager (step act σ)) a) ∨
  pushed (buffer_at (manager σ) a) (buffer_at (manager (step act σ)) a).
Proof.
  intros Hact. destruct act; try done; simpl.
  - apply broadcast_same_or_pushed.
  - apply complete_job_same_or_pushed.
  - left. by rewrite (buffer_at_buffers _ _ _ (buffers_cleanup _ _)).
  - left. by rewrite (buffer_at_buffers _ _ _ (buffers_expire _ _)).
  - left. by destruct (generators σ !! s).
Qed.

Lemma buffer_at_set_subscribers a f m a' :
  buffer_at (set_subscribers a f m) a' =
  if decide (a' = a)
  then mkBuffer (lines (buffer_at m a)) (event_counter (buffer_at m a))
                (is_complete (buffer_at m a)) (f (subscribers (buffer_at m a)))
  else buffer_at m a'.
Proof. unfold set_subscribers. apply buffer_at_set_buffer. Qed.

Lemma events_of_app cs1 cs2 : events_of (cs1 ++ cs2) = events_of cs1 ++ events_of cs2.
Proof. unfold events_of. apply omap_app. Qed.

Lemma events_of_map_Event ls : events_of (map Event ls) = ls.
Proof. induction ls as [|l ls IH]; [done|]. simpl. by rewrite IH. Qed.

(** Closing a well-formed generator. *)
Lemma gen_ok_closed B g cs a q :
  attached g = Some (a, q) → gen_ok B g cs → ∀ B', gen_ok B' GClosed cs.
Proof.
  intros Ha Hg B'. destruct g as [job last|last a' q'|a' q'|a' q'|a' q'|]; try done.
  all: simpl in Hg |- *; destruct Hg as
      [[[=] _]|(conn & H & D & Hev & Hty & HH & _ & Hs & Hf & _)];
    right; exists conn, H, D; rewrite app_nil_r;
    repeat (split; [done|]);
    split; [by apply increasing_app_l in Hs|];
    split; [by apply Forall_app in Hf as [? _]|done].
Qed.

Lemma Forall_le_weaken (c c' : Z) (ls : list StreamLine) :
  c ≤ c' → Forall (λ l, line_num l ≤ c) ls → Forall (λ l, line_num l ≤ c') ls.
Proof. intros Hc H. eapply Forall_impl; [exact H|]. simpl. intros; lia. Qed.

Lemma resume_post m g cs now :
  gen_ok (buffer_at m) g cs → step_post m g cs (resume g now m).
Proof.
  intros Hg. destruct g as [job last|last a q|a q|a q|a q|].
  - (* the body starts: register and yield the connected line *)
    simpl in Hg. subst cs. unfold resume.
    pose proof (buffer_at_get_or_create job m) as Hgoc.
    destruct (_get_or_create_buffer job m) as [a m1]. simpl in Hgoc.
    assert (∀ a', buffer_at (cancel_pending job m1) a' = buffer_at m a') as HB.
    { intros a'. by rewrite (buffer_at_buffers _ _ _ (buffers_cancel_pending _ _)). }
    rewrite HB. set (b := buffer_at m a). set (q := fresh (dom (subscribers b))).
    unfold step_post. cbn [fst snd]. split; [|split; [|split]].
    + simpl. right. eexists _, [], []. split; [done|]. split; [done|].
      split; [constructor|]. split; [done|].
      rewrite buffer_at_set_buffer, decide_True by done. simpl.
      rewrite lookup_insert_eq. simpl.
      split; [constructor|]. split; [constructor|]. split; [eauto|].
      split; [|constructor]. rewrite line_num_str. lia.
    + intros a'. rewrite buffer_at_set_buffer, HB. case_decide; subst; simpl; [|done].
      fold b. split; [done|lia].
    + intros a' q' Hq' _. rewrite buffer_at_set_buffer, HB. case_decide; [|done].
      subst a'. simpl. fold b in Hq'. rewrite lookup_insert_ne; [done|].
      intros <-. apply (is_fresh (dom (subscribers b))). by apply elem_of_dom.
    + intros p [= <-]. right. simpl. apply not_elem_of_dom, is_fresh.
  - (* after the connected line: the history *)
    simpl in Hg. destruct Hg as
      [[[=] _]|(conn & H & D & Hev & Hty & HH & (-> & -> & ->) & Hs & Hf & Hq & Hcn & Hle)].
    simpl in Hs, Hf, Hle. unfold resume.
    assert (step_post m (GConnected last a q) [Event conn] (GWaiting a q, m, Await)) as Hwait.
    { unfold step_post. cbn [fst snd record]. split; [|split; [|split]]; try done.
      - simpl. right. exists conn, [], []. by repeat (split; [done|]).
      - intros p [= <-]. by left. }
    destruct (lines (buffer_at m a)) as [|l0 ls] eqn:Hl; [done|].
    destruct (history_start_id last ≫= _) as [[|x missed]|]; [done| |].
    + unfold step_post. cbn [fst snd record]. split; [|split; [|split]].
      * simpl. right. eexists conn, [_], []. split; [done|]. split; [done|].
        split; [by repeat constructor|]. split; [done|].
        rewrite buffer_at_set_buffer, decide_True by done. simpl.
        split; [done|]. split; [done|]. split; [done|]. split; [lia|].
        eapply Forall_le_weaken; [|done]. lia.
      * intros a'. rewrite buffer_at_set_buffer. case_decide; subst; simpl; [|done].
        split; [by rewrite Hl|lia].
      * intros a' q' _ _. rewrite buffer_at_set_buffer. by case_decide; subst.
      * intros p [= <-]. by left.
    + unfold step_post. cbn [fst snd record]. split; [|split; [|split]].
      * eapply (gen_ok_closed (buffer_at m) (GConnected last a q)); [done|].
        simpl. right. exists conn, [], []. by repeat (split; [done|]).
      * intros a'. unfold discard. rewrite buffer_at_set_subscribers.
        by case_decide; subst.
      * intros a' q' _ Hne. unfold discard. rewrite buffer_at_set_subscribers.
        case_decide; [|done]. subst. simpl. apply lookup_delete_ne. simpl in Hne. congruence.
      * done.
  - (* after the history line *)
    unfold resume, step_post. cbn [fst snd record]. split; [|split; [|split]]; try done.
    + simpl in *. destruct Hg as [[[=] _]|(conn & H & D & Hev & Hty & HH & _ & Hrest)].
      right. exists conn, H, D. by repeat (split; [done|]).
    + intros p [= <-]. by left.
  - (* waiting: nothing to resume *)
    unfold resume, step_post. cbn [fst snd record]. split; [|split; [|split]]; try done.
    intros p [= <-]. by left.
  - (* after a line or a keepalive of the loop *)
    unfold resume.
    destruct (is_complete (buffer_at m a) && bool_decide (queue_at m a q = [])).
    + unfold step_post. cbn [fst snd record]. split; [|split; [|split]].
      * by eapply (gen_ok_closed (buffer_at m) (GLoopYield a q)).
      * intros a'. unfold discard. rewrite buffer_at_set_subscribers.
        by case_decide; subst.
      * intros a' q' _ Hne. unfold discard. rewrite buffer_at_set_subscribers.
        case_decide; [|done]. subst. simpl. apply lookup_delete_ne. simpl in Hne. congruence.
      * done.
    + unfold step_post. cbn [fst snd record]. split; [|split; [|split]]; try done.
      intros p [= <-]. by left.
  - unfold resume, step_post. cbn [fst snd record]. by split; [|split; [|split]].
Qed.

Lemma deliver_post m g cs :
  gen_ok (buffer_at m) g cs → step_post m g cs (deliver g m).
Proof.
  intros Hg.
  assert (step_post m g cs (g, m, Await)) as Hstay.
  { unfold step_post. cbn [fst snd record]. split; [|split; [|split]]; try done.
    intros p ?. by left. }
  destruct g as [job last|last a q|a q|a q|a q|]; try done.
  unfold deliver, queue_at.
  simpl in Hg. destruct Hg as
      [[[=] _]|(conn & H & D & Hev & Hty & HH & _ & Hs & Hf & [Q HQ] & Hcn & Hle)].
  rewrite HQ in *. simpl in *. destruct Q as [|x rest]; [done|].
  unfold step_post. cbn [fst snd record]. split; [|split; [|split]].
  - simpl. right. exists conn, H, (D ++ [x]).
    rewrite events_of_app, Hev. simpl.
    split; [by rewrite <- !app_assoc|]. split; [done|]. split; [done|]. split; [done|].
    rewrite buffer_at_set_subscribers, decide_True by done. simpl.
    rewrite lookup_insert_eq. simpl. rewrite <- !app_assoc. simpl.
    split; [done|]. split; [done|]. split; [eauto|]. done.
  - intros a'. rewrite buffer_at_set_subscribers. by case_decide; subst.
  - intros a' q' _ Hne. rewrite buffer_at_set_subscribers.
    case_decide; [|done]. subst. simpl. apply lookup_insert_ne. simpl in Hne. congruence.
  - intros p [= <-]. by left.
Qed.

Lemma timeout_post m g cs :
  gen_ok (buffer_at m) g cs → step_post m g cs (timeout g m).
Proof.
  intros Hg.
  assert (step_post m g cs (g, m, Await)) as Hstay.
  { unfold step_post. cbn [fst snd record]. split; [|split; [|split]]; try done.
    intros p ?. by left. }
  destruct g as [job last|last a q|a q|a q|a q|]; try done.
  unfold timeout. destruct (queue_at m a q); [|done].
  unfold step_post. cbn [fst snd record]. split; [|split; [|split]]; try done.
  - simpl in *. destruct Hg as [[[=] _]|(conn & H & D & Hev & Hrest)].
    right. exists conn, H, D. rewrite events_of_app, Hev. simpl. rewrite app_nil_r.
    destruct Hrest as (? & ? & _ & ?). by repeat (split; [done|]).
  - intros p [= <-]. by left.
Qed.

Lemma close_post m g cs :
  gen_ok (buffer_at m) g cs →
  step_post m g cs (let '(g', m') := close g m in (g', m', Stop)).
Proof.
  intros Hg.
  destruct g as [job last|last a q|a q|a q|a q|]; simpl.
  1,6: unfold step_post; cbn [fst snd record]; split; [|split; [|split]]; try done.
  1: simpl in *; by left.
  all: unfold step_post; cbn [fst snd record]; split; [|split; [|split]]; try done.
  all: try (eapply gen_ok_closed; [|exact Hg]; done).
  all: try (intros a'; unfold discard; rewrite buffer_at_set_subscribers;
            by case_decide; subst).
  all: intros a' q' _ Hne; unfold discard; rewrite buffer_at_set_subscribers;
    case_decide; [|done]; subst; simpl; apply lookup_delete_ne; simpl in Hne; congruence.
Qed.

Lemma gen_ok_attached B g cs a q :
  gen_ok B g cs → attached g = Some (a, q) → is_Some (subscribers (B a) !! q).
Proof.
  intros Hg Ha. destruct g; try done; simpl in *; injection Ha as -> ->.
  all: by destruct Hg as [[[=] _]|(conn & H & D & _ & _ & _ & _ & _ & _ & ? & _)].
Qed.

Lemma generator_step_post act s f m g cs :
  generator_step act = Some (s, f) →
  gen_ok (buffer_at m) g cs → step_post m g cs (f g m).
Proof.
  intros Hact Hg. destruct act; try done; injection Hact as <- <-.
  - by apply resume_post.
  - by apply deliver_post.
  - by apply timeout_post.
  - by apply close_post.
Qed.

Lemma step_generator_step act s f σ :
  generator_step act = Some (s, f) → step act σ = on_generator s f σ.
Proof. intros Hact. by destruct act; try done; injection Hact as <- <-. Qed.

Lemma chunks_of_on_generator s f σ g s' :
  generators σ !! s = Some g →
  chunks_of s' (on_generator s f σ) =
  if decide (s' = s) then record (chunks_of s σ) (f g (manager σ)).2 else chunks_of s' σ.
Proof.
  intros Hg. unfold on_generator, chunks_of. rewrite Hg.
  destruct (f g (manager σ)) as [[g' m'] o]. simpl.
  unfold record_outcome. case_decide as Hs.
  - subst. destruct o; simpl; try done. by rewrite lookup_insert_eq.
  - destruct o; simpl; try done. by rewrite lookup_insert_ne.
Qed.

Lemma generators_on_generator s f σ g :
  generators σ !! s = Some g →
  generators (on_generator s f σ) = <[s := (f g (manager σ)).1.1]> (generators σ).
Proof.
  intros Hg. unfold on_generator. rewrite Hg.
  by destruct (f g (manager σ)) as [[g' m'] o].
Qed.

Lemma Inv_initial : Inv initial.
Proof.
  split; [|split].
  - intros a. apply buffer_ok_new.
  - intros s. cbn. by rewrite lookup_empty.
  - intros s1 s2 g1 g2 p H. cbn in H. by rewrite lookup_empty in H.
Qed.

Lemma Inv_step act σ : Inv σ → Inv (step act σ).
Proof.
  intros (Hb & Hg & Hu).
  destruct (generator_step act) as [[s f]|] eqn:Hact.
  - (* a step of generator [s] *)
    rewrite (step_generator_step act s f σ Hact).
    destruct (generators σ !! s) as [g|] eqn:Hs;
      [|unfold on_generator; rewrite Hs; by split].
    pose proof (Hg s) as Hgs. rewrite Hs in Hgs.
    pose proof (generator_step_post act s f _ _ _ Hact Hgs) as (Hp1 & Hp2 & Hp3 & Hp4).
    pose proof (manager_on_generator s f σ g Hs) as Hm.
    pose proof (generators_on_generator s f σ g Hs) as Hgen.
    unfold Inv. rewrite Hm, Hgen. split; [|split].
    + intros a. destruct (Hp2 a) as [Hl Hc]. by apply (buffer_ok_bump (buffer_at (manager σ) a)).
    + intros s'. rewrite (chunks_of_on_generator s f σ g s' Hs), lookup_insert.
      destruct (decide (s = s')) as [->|Hne].
      * by rewrite decide_True.
      * rewrite decide_False by done. specialize (Hg s').
        destruct (generators σ !! s') as [g2|] eqn:Hs'; [|done].
        eapply gen_ok_transfer; [|exact Hg]. intros a q Ha.
        destruct (Hp2 a) as [_ Hc]. split; [done|].
        rewrite Hp3; [|exact (gen_ok_attached _ _ _ a q Hg Ha)|].
        -- split; [done|]. exists []. rewrite app_nil_r. repeat split; constructor.
        -- intros Hag. apply Hne. by apply (Hu s s' g g2 (a, q)).
    + intros s1 s2 g1 g2 p. rewrite !lookup_insert.
      destruct (decide (s = s1)) as [E1|H1], (decide (s = s2)) as [E2|H2];
        [congruence| | |apply Hu].
      * subst s1. intros [= <-] H2' Ha1 Ha2. destruct (Hp4 p Ha1) as [Ha|Hnone].
        -- by apply (Hu s s2 g g2 p).
        -- pose proof (Hg s2) as Hg2. rewrite H2' in Hg2. destruct p as [a q].
           apply (gen_ok_attached _ _ _ a q) in Hg2 as [? Hsome]; [|done].
           simpl in Hnone. congruence.
      * subst s2. intros H1' [= <-] Ha1 Ha2. destruct (Hp4 p Ha2) as [Ha|Hnone].
        -- by apply (Hu s1 s g1 g p).
        -- pose proof (Hg s1) as Hg1. rewrite H1' in Hg1. destruct p as [a q].
           apply (gen_ok_attached _ _ _ a q) in Hg1 as [? Hsome]; [|done].
           simpl in Hnone. congruence.
  - (* a call of the manager, or a new generator *)
    pose proof (λ a, manager_step_same_or_pushed act σ a Hact) as HB.
    assert (∀ s', chunks_of s' (step act σ) = chunks_of s' σ) as Hcs.
    { intros s'. destruct act; try done. simpl. by destruct (generators σ !! s). }
    split; [|split].
    + intros a. destruct (HB a); [by eapply buffer_ok_same|by eapply buffer_ok_pushed].
    + intros s'. rewrite Hcs. specialize (Hg s').
      assert (generators (step act σ) !! s' = generators σ !! s' ∨
              generators σ !! s' = None ∧ ∃ j l, generators (step act σ) !! s' = Some (GNew j l))
        as [->|[Hn (j & l & ->)]].
      { destruct act; try done; try by left. simpl.
        destruct (generators σ !! s) eqn:Hs; [by left|]. simpl.
        destruct (decide (s = s')) as [->|Hne].
        - right. rewrite lookup_insert_eq. eauto.
        - left. by rewrite lookup_insert_ne. }
      * destruct (generators σ !! s') as [g|]; [|done].
        eapply gen_ok_pushed; [|exact Hg]. intros a q _. apply HB.
      * by rewrite Hn in Hg.
    + intros s1 s2 g1 g2 p H1 H2 Ha1 Ha2.
      assert (∀ s' g', generators (step act σ) !! s' = Some g' → is_Some (attached g') →
                       generators σ !! s' = Some g') as Hold.
      { intros s' g' H [p' Hp']. destruct act; try done. simpl in H.
        destruct (generators σ !! s) eqn:Hs; [done|]. simpl in H.
        rewrite lookup_insert in H. case_decide; [|done].
        injection H as <-. done. }
      apply (Hu s1 s2 g1 g2 p); eauto.
Qed.

Lemma Inv_run tr σ : Inv σ → Inv (run tr σ).
Proof.
  revert σ. induction tr as [|act tr IH]; intros σ H; [done|].
  simpl. apply IH. by apply Inv_step.
Qed.

Lemma Inv_reachable tr : Inv (run tr initial).
Proof. apply Inv_run, Inv_initial. Qed.

(** ** Coverage: nothing is lost while the queue has room *)

Lemma conn_num_app cs cs' : events_of cs ≠ [] → conn_num (cs ++ cs') = conn_num cs.
Proof.
  intros H. unfold conn_num. rewrite events_of_app.
  by destruct (events_of cs).
Qed.

Lemma gen_ok_events B g cs p :
  gen_ok B g cs → attached g = Some p → events_of cs ≠ [].
Proof.
  intros Hg Ha. destruct g; try done; simpl in Hg.
  all: destruct Hg as [[[=] _]|(conn & H & D & -> & _)]; done.
Qed.

Lemma record_events cs o :
  events_of cs ≠ [] →
  conn_num (record cs o) = conn_num cs ∧
  ∀ x, x ∈ events_of cs → x ∈ events_of (record cs o).
Proof.
  intros H. destruct o as [c| | |]; simpl; try done.
  split; [by apply conn_num_app|]. intros x Hx. rewrite events_of_app.
  apply elem_of_app. by left.
Qed.

Lemma own_step_covered act s f m g cs :
  generator_step act = Some (s, f) →
  (∀ a, buffer_ok (buffer_at m a)) →
  gen_ok (buffer_at m) g cs → covered (buffer_at m) g cs →
  covered (buffer_at (f g m).1.2) (f g m).1.1 (record cs (f g m).2).
Proof.
  intros Hact Hb Hg Hc.
  assert (∀ a q, attached g = Some (a, q) → covered (buffer_at m) g (record cs Await))
    as Hstay by done.
  destruct act; try done; injection Hact as <- <-.
  - (* resume *)
    destruct g as [job last|last a q|a q|a q|a q|]; try done.
    + simpl in Hg. subst cs. unfold resume.
      pose proof (buffer_at_get_or_create job m) as Hgoc.
      destruct (_get_or_create_buffer job m) as [a m1]. simpl in Hgoc.
      assert (∀ a', buffer_at (cancel_pending job m1) a' = buffer_at m a') as HB.
      { intros a'. by rewrite (buffer_at_buffers _ _ _ (buffers_cancel_pending _ _)). }
      rewrite HB. cbn [fst snd record]. unfold covered. cbn [attached].
      intros x Hx Hlt. exfalso.
      rewrite buffer_at_set_buffer, decide_True in Hx by done. simpl in Hx.
      unfold conn_num in Hlt. simpl in Hlt. rewrite line_num_str in Hlt.
      destruct (Hb a) as (_ & Hf & _).
      pose proof (proj1 (Forall_forall _ _) Hf x Hx) as [_ ?]. lia.
    + pose proof (gen_ok_events _ _ _ _ Hg eq_refl) as Hne.
      unfold resume. destruct (lines (buffer_at m a)) as [|l0 ls] eqn:Hl; [done|].
      destruct (history_start_id last ≫= _) as [[|y missed]|]; [done| |done].
      cbn [fst snd]. unfold covered in *. cbn [attached] in *.
      rewrite buffer_at_set_buffer, decide_True by done. simpl lines. simpl subscribers.
      intros x Hx Hlt. destruct (record_events cs (Yield (Event
        (mkLine (py_str (event_counter (buffer_at m a) + 1)) HISTORY
                (json_lines (y :: missed)) now))) Hne) as [Hcn Hin]. cbn [record] in *.
      rewrite Hcn in Hlt. rewrite <- Hl in Hx.
      destruct (Hc x Hx Hlt) as [?|?]; [by left|right; by apply Hin].
    + unfold resume.
      destruct (is_complete (buffer_at m a) && bool_decide (queue_at m a q = [])); done.
  - (* deliver *)
    destruct g as [job last|last a q|a q|a q|a q|]; try done.
    pose proof (gen_ok_events _ _ _ _ Hg eq_refl) as Hne.
    unfold deliver, queue_at. destruct (subscribers (buffer_at m a) !! q) as [Q|] eqn:HQ;
      [|done]. simpl. destruct Q as [|y rest]; [done|].
    cbn [fst snd]. unfold covered in *. cbn [attached] in *.
    rewrite buffer_at_set_subscribers, decide_True by done. simpl lines. simpl subscribers.
    rewrite lookup_insert_eq. simpl. rewrite HQ in Hc. simpl in Hc.
    destruct (record_events cs (Yield (Event y)) Hne) as [Hcn Hin]. cbn [record] in *.
    intros x Hx Hlt. rewrite Hcn in Hlt. destruct (Hc x Hx Hlt) as [Hq|?].
    + apply elem_of_cons in Hq as [->|?]; [|by left].
      right. simpl. rewrite events_of_app. apply elem_of_app. right. by apply list_elem_of_singleton.
    + right. by apply Hin.
  - (* timeout *)
    destruct g as [job last|last a q|a q|a q|a q|]; try done.
    pose proof (gen_ok_events _ _ _ _ Hg eq_refl) as Hne.
    unfold timeout. destruct (queue_at m a q); [|done].
    cbn [fst snd]. unfold covered in *. cbn [attached] in *.
    destruct (record_events cs (Yield Keepalive) Hne) as [Hcn Hin]. cbn [record] in *.
    intros x Hx Hlt. rewrite Hcn in Hlt. destruct (Hc x Hx Hlt) as [?|?]; [by left|].
    right. by apply Hin.
  - (* close *)
    by destruct g.
Qed.

Lemma queue_len_attached s σ g a q :
  generators σ !! s = Some g → attached g = Some (a, q) →
  queue_len s σ = length (default [] (subscribers (buffer_at (manager σ) a) !! q)).
Proof. intros Hs Ha. unfold queue_len. rewrite Hs. simpl. by rewrite Ha. Qed.

Lemma covered_pushed B B' g cs a q :
  attached g = Some (a, q) →
  (length (default [] (subscribers (B a) !! q)) < QUEUE_MAXSIZE)%nat →
  is_Some (subscribers (B a) !! q) →
  same (B a) (B' a) ∨ pushed (B a) (B' a) →
  covered B g cs → covered B' g cs.
Proof.
  intros Ha Hlen [Q HQ] HB Hc. unfold covered in *. rewrite Ha in *.
  destruct HB as [(Hl & _ & Hs)|(ty & d & now & Hl & _ & Hs)].
  - by rewrite Hl, Hs.
  - rewrite Hl, Hs, lookup_fmap, HQ in *. simpl in *.
    unfold put_nowait. apply Nat.ltb_lt in Hlen. rewrite Hlen.
    intros x Hx Hlt. rewrite trim_py_last in Hx. unfold py_last in Hx.
    apply (subseteq_drop _ _ x) in Hx. apply elem_of_app in Hx as [Hx|Hx].
    + destruct (Hc x Hx Hlt) as [?|?]; [|by right]. left. apply elem_of_app. by left.
    + left. apply elem_of_app. by right.
Qed.

Lemma covered_step act s σ :
  Inv σ → (queue_len s σ < QUEUE_MAXSIZE)%nat →
  covered_at s σ → covered_at s (step act σ).
Proof.
  intros HI Hlen Hc. pose proof HI as (Hb & Hg & Hu). unfold covered_at in *.
  destruct (generator_step act) as [[s0 f]|] eqn:Hact.
  - rewrite (step_generator_step act s0 f σ Hact).
    destruct (generators σ !! s0) as [g0|] eqn:Hs0;
      [|unfold on_generator; by rewrite Hs0].
    rewrite (generators_on_generator s0 f σ g0 Hs0), (manager_on_generator s0 f σ g0 Hs0),
      (chunks_of_on_generator s0 f σ g0 s Hs0), lookup_insert.
    pose proof (Hg s0) as Hg0. rewrite Hs0 in Hg0.
    destruct (decide (s0 = s)) as [->|Hne].
    + rewrite decide_True by done. rewrite Hs0 in Hc.
      by apply (own_step_covered act s).
    + rewrite decide_False by done.
      destruct (generators σ !! s) as [g|] eqn:Hs; [|done].
      pose proof (Hg s) as Hgs. rewrite Hs in Hgs.
      pose proof (generator_step_post act s0 f _ _ _ Hact Hg0) as (_ & Hp2 & Hp3 & _).
      unfold covered in *. destruct (attached g) as [[a q]|] eqn:Ha; [|done].
      destruct (Hp2 a) as [-> _]. rewrite Hp3; [done| |].
      * by apply (gen_ok_attached _ _ _ a q Hgs).
      * intros Ha0. apply Hne. by apply (Hu s0 s g0 g (a, q)).
  - pose proof (λ a, manager_step_same_or_pushed act σ a Hact) as HB.
    assert (chunks_of s (step act σ) = chunks_of s σ) as ->.
    { destruct act; try done. simpl. by destruct (generators σ !! s0). }
    assert (generators (step act σ) !! s = generators σ !! s ∨
            ∃ j l, generators (step act σ) !! s = Some (GNew j l)) as [->|(j & l & ->)];
      [| |by unfold covered].
    { destruct act; try done; try by left. simpl.
      destruct (generators σ !! s0) eqn:Hs0; [by left|]. simpl.
      destruct (decide (s0 = s)) as [->|Hne].
      - right. rewrite lookup_insert_eq. eauto.
      - left. by rewrite lookup_insert_ne. }
    destruct (generators σ !! s) as [g|] eqn:Hs; [|done].
    pose proof (Hg s) as Hgs. rewrite Hs in Hgs.
    destruct (attached g) as [[a q]|] eqn:Ha; [|by unfold covered; rewrite Ha].
    eapply (covered_pushed _ _ _ _ a q); try done.
    + by rewrite <- (queue_len_attached s σ g a q).
    + by apply (gen_ok_attached _ _ _ a q Hgs).
Qed.

Lemma covered_run s tr σ :
  Inv σ → never_full s tr σ = true → covered_at s σ → covered_at s (run tr σ).
Proof.
  revert σ. induction tr as [|act tr IH]; intros σ HI Hnf Hc; [done|].
  simpl in *. apply andb_prop in Hnf as [Hlen Hnf]. apply Nat.ltb_lt in Hlen.
  apply IH; [by apply Inv_step|done|by apply covered_step].
Qed.

(** ** What a subscriber receives *)

Lemma missed_lines_filter k ls :
  Forall canonical ls →
  missed_lines k ls = Some (filter (λ l, k < line_num l) ls).
Proof.
  induction 1 as [|l ls Hl _ IH]; [done|].
  simpl. unfold canonical in Hl. rewrite Hl at 1. rewrite py_int_str. simpl.
  rewrite IH. simpl. rewrite filter_cons.
  destruct (Z.ltb_spec k (line_num l)); by case_decide; try lia.
Qed.

Lemma filter_all_above k ls :
  Forall (λ l, k < line_num l) ls → filter (λ l, k < line_num l) ls = ls.
Proof.
  induction 1 as [|l ls Hl _ IH]; [done|].
  rewrite filter_cons, decide_True by done. by rewrite IH.
Qed.

(** C3 (as the code has it): a subscriber first receives the connected
    event; when it asks for the next chunk it receives one history event
    exactly when some retained event has an id above the start id, which
    is [lastSeenId] when given and 0 otherwise; the payload lists exactly
    those events, in order and without repetition. *)
Theorem subscribe_history tr s last a q now k :
  let σ := run tr initial in
  generators σ !! s = Some (GConnected last a q) →
  history_start_id last = Some k →
  let retained := lines (buffer_at (manager σ) a) in
  let missed := filter (λ l, k < line_num l) retained in
  let σ' := step (AResume s now) σ in
  (∃ c, chunks_of s σ = [Event c] ∧ line_type c = CONNECTED ∧
        if decide (missed = []) then chunks_of s σ' = [Event c]
        else ∃ h, chunks_of s σ' = [Event c; Event h] ∧ line_type h = HISTORY ∧
                  line_data h = json_lines missed) ∧
  increasing missed ∧ NoDup (map line_id missed) ∧
  Forall (λ l, k < line_num l) missed ∧
  (last = None → missed = retained).
Proof.
  intros σ Hs Hk retained missed σ'.
  destruct (Inv_reachable tr) as (Hb & Hg & _). fold σ in Hb, Hg.
  specialize (Hg s). rewrite Hs in Hg. simpl in Hg.
  destruct Hg as [[[=] _]|(c & H & D & _ & Hty & _ & (_ & _ & Hcs) & _)].
  destruct (Hb a) as (_ & Hf & Hinc). fold retained in Hf, Hinc.
  assert (Forall canonical retained) as Hcan.
  { eapply Forall_impl; [exact Hf|]. by intros l [? _]. }
  split; [|split; [|split; [|split]]].
  - exists c. split; [done|]. split; [done|].
    assert (chunks_of s σ' =
            record [Event c] (resume (GConnected last a q) now (manager σ)).2) as ->.
    { unfold σ'. simpl. rewrite (chunks_of_on_generator s _ σ _ s Hs).
      rewrite decide_True by done. by rewrite Hcs. }
    cbn [resume]. fold retained. rewrite Hk. simpl.
    rewrite (missed_lines_filter k retained Hcan). fold missed.
    destruct retained as [|l0 ls] eqn:Hret.
    + by rewrite decide_True.
    + destruct missed as [|x rest] eqn:Hmiss.
      * by rewrite decide_True.
      * rewrite decide_False by done. simpl. eauto.
  - by apply increasing_filter.
  - apply increasing_NoDup; [by apply increasing_filter|].
    apply Forall_forall. intros l Hl. apply list_elem_of_filter in Hl as [_ Hl].
    by apply (proj1 (Forall_forall _ _) Hcan).
  - apply Forall_forall. intros l Hl. by apply list_elem_of_filter in Hl as [? _].
  - intros ->. injection Hk as <-. apply filter_all_above.
    eapply Forall_impl; [exact Hf|]. simpl. intros l [_ ?]. lia.
Qed.

Lemma subscribe_history_witness :
  ∃ c h,
    chunks_of 0%nat
      (run [ABroadcast "job-1" STDOUT "a" "t0"; ABroadcast "job-1" STDOUT "b" "t1";
            ASubscribe 0%nat "job-1" (Some "1"); AResume 0%nat "t2"; AResume 0%nat "t3"]
           initial) = [Event c; Event h] ∧
    line_data h = json_lines [mkLine "2" STDOUT "b" "t1"].
Proof.
  destruct (subscribe_history
              [ABroadcast "job-1" STDOUT "a" "t0"; ABroadcast "job-1" STDOUT "b" "t1";
               ASubscribe 0%nat "job-1" (Some "1"); AResume 0%nat "t2"]
              0%nat (Some "1") 0%nat 0%nat "t3" 1)
    as ((c & _ & _ & Hh) & _); [reflexivity|reflexivity|].
  destruct Hh as (h & Hcs & _ & Hd). exists c, h. split; [exact Hcs|exact Hd].
Defined.

(** C3 as stated fails: without a [lastSeenId] and with one retained
    event, the subscriber still receives a history event. *)
Lemma history_without_last_event_id :
  let σ := run [ABroadcast "job-1" STDOUT "hello" "t0";
                ASubscribe 0%nat "job-1" None; AResume 0%nat "t1"; AResume 0%nat "t2"]
               initial in
  map line_type (events_of (chunks_of 0%nat σ)) = [CONNECTED; HISTORY] ∧
  map line_data (events_of (chunks_of 0%nat σ)) =
    ["Connected to job job-1"; json_lines [mkLine "1" STDOUT "hello" "t0"]].
Proof. by vm_compute. Qed.

Lemma live_of_shape conn H D :
  line_type conn = CONNECTED → Forall (λ h, line_type h = HISTORY) H →
  filter (λ l, is_live l = true) (conn :: H ++ D) = filter (λ l, is_live l = true) D.
Proof.
  intros Hc HH. rewrite filter_cons, decide_False by (unfold is_live; by rewrite Hc).
  rewrite filter_app.
  assert (filter (λ l, is_live l = true) H = []) as ->; [|done].
  induction HH as [|h H Hh _ IH]; [done|].
  rewrite filter_cons, decide_False by (unfold is_live; by rewrite Hh). done.
Qed.

Lemma gen_ok_shape B g cs :
  gen_ok B g cs →
  cs = [] ∨
  ∃ conn H D,
    events_of cs = conn :: H ++ D ∧ line_type conn = CONNECTED ∧
    Forall (λ h, line_type h = HISTORY) H ∧
    let Q := match attached g with
             | Some (a, q) => default [] (subscribers (B a) !! q)
             | None => []
             end in
    increasing (D ++ Q) ∧ Forall (λ l, canonical l ∧ line_num conn < line_num l) (D ++ Q).
Proof.
  intros Hg. destruct g; simpl in Hg; [by left| | | | |].
  all: destruct Hg as [[_ ?]|(conn & H & D & ? & ? & ? & _ & ? & ? & _)]; [by left|].
  all: right; exists conn, H, D; done.
Qed.

(** C2 (as the code has it): the stdout, stderr and status events a
    subscriber receives carry strictly increasing ids, without
    repetition, all above the id of its connected event; and as long as
    no action found its queue full, every retained event between two of
    them has been received too. *)
Theorem live_ids_increasing tr s :
  let σ := run tr initial in
  let live := live_events s σ in
  increasing live ∧ NoDup (map line_id live) ∧
  Forall (λ l, conn_num (chunks_of s σ) < line_num l) live ∧
  (never_full s tr initial = true →
   ∀ g a q, generators σ !! s = Some g → attached g = Some (a, q) →
   ∀ x l1 l2, x ∈ lines (buffer_at (manager σ) a) → l1 ∈ live → l2 ∈ live →
              line_num l1 < line_num x < line_num l2 →
              x ∈ events_of (chunks_of s σ)).
Proof.
  intros σ live.
  pose proof (Inv_reachable tr) as HI. fold σ in HI. pose proof HI as (Hb & Hg & _).
  specialize (Hg s). unfold live, live_events.
  destruct (generators σ !! s) as [g|] eqn:Hs.
  2:{ rewrite Hg. simpl. repeat split; try constructor. done. }
  apply gen_ok_shape in Hg as [->|(conn & H & D & Hev & Hty & HH & Hinc & Hf)].
  { simpl. repeat split; try constructor. intros _ g' a q _ _ x l1 l2 _ Hl1. by apply elem_of_nil in Hl1. }
  rewrite Hev, (live_of_shape conn H D Hty HH).
  assert (conn_num (chunks_of s σ) = line_num conn) as -> by (unfold conn_num; by rewrite Hev).
  assert (∀ l, l ∈ filter (λ l, is_live l = true) D → l ∈ D) as Hsub.
  { intros l Hl. by apply list_elem_of_filter in Hl as [_ ?]. }
  apply Forall_app in Hf as Hf'. destruct Hf' as [HfD _].
  pose proof (increasing_app_l _ _ Hinc) as HincD.
  split; [|split; [|split]].
  - by apply increasing_filter.
  - apply increasing_NoDup; [by apply increasing_filter|].
    apply Forall_forall. intros l Hl.
    by apply (proj1 (Forall_forall _ _) HfD l (Hsub l Hl)).
  - apply Forall_forall. intros l Hl.
    by apply (proj1 (Forall_forall _ _) HfD l (Hsub l Hl)).
  - intros Hnf g' a q [= <-] Ha x l1 l2 Hx Hl1 Hl2 [Hlo Hhi].
    pose proof (covered_run s tr initial Inv_initial Hnf) as Hc.
    unfold covered_at in Hc. fold σ in Hc. rewrite Hs in Hc.
    unfold covered in Hc. rewrite Ha in Hc, Hinc, Hf.
    assert (line_num conn < line_num l1) as Hc1.
    { by apply (proj1 (Forall_forall _ _) HfD l1 (Hsub l1 Hl1)). }
    assert (conn_num (chunks_of s σ) < line_num x) as Hcx.
    { unfold conn_num. rewrite Hev. lia. }
    destruct (Hc I x Hx Hcx) as [Hq|?]; [|by rewrite <- Hev].
    pose proof (increasing_lt D _ l2 x Hinc (Hsub l2 Hl2) Hq). lia.
Qed.

Lemma live_ids_increasing_witness :
  mkLine "3" STDERR "b" "t3" ∈ events_of (chunks_of 0%nat (run in_step initial)).
Proof.
  refine (proj2 (proj2 (proj2 (live_ids_increasing in_step 0%nat))) _
            (GLoopYield 0%nat 0%nat) 0%nat 0%nat _ _
            (mkLine "3" STDERR "b" "t3") (mkLine "2" STDOUT "a" "t2")
            (mkLine "4" STATUS "c" "t4") _ _ _ _).
  - reflexivity.
  - reflexivity.
  - reflexivity.
  - apply (bool_decide_unpack _). by vm_compute.
  - apply (bool_decide_unpack _). by vm_compute.
  - apply (bool_decide_unpack _). by vm_compute.
  - by vm_compute.
Defined.

(** C2 as stated fails twice.  In [reordered] the subscriber receives the
    ids 2, 4, 3: the history event takes its id after an event that is
    already queued.  In [overflow] it receives 2..101 and 103 while 102 is
    retained: the event found the queue full and was dropped. *)
Lemma ids_out_of_order_and_gap :
  map line_id (events_of (chunks_of 0%nat (run reordered initial))) = ["2"; "4"; "3"] ∧
  map line_id (live_events 0%nat (run overflow initial)) =
    map py_str (seqZ 2 100 ++ [103]) ∧
  map line_id (lines (buffer_at (manager (run overflow initial)) 0%nat)) =
    map py_str (seqZ 2 102).
Proof. split; [by vm_compute|]. split; by vm_compute. Qed.

(** * Further properties of the code *)

(** ** The bus: bounds and monotonicity *)

Lemma bounded_new : bounded new_buffer.
Proof. split; [simpl; unfold MAX_BUFFER_LINES; lia|]. simpl. apply map_Forall_empty. Qed.

Lemma bounded_appended ty d now b : bounded b → bounded (appended ty d now b).
Proof.
  intros [Hl Hq]. split; simpl.
  - rewrite trim_py_last, length_py_last. lia.
  - intros q Q. rewrite lookup_fmap. destruct (subscribers b !! q) as [Q0|] eqn:E; [|done].
    simpl. intros [= <-]. specialize (Hq q Q0 E). simpl in Hq. unfold put_nowait.
    destruct (Nat.ltb_spec (length Q0) QUEUE_MAXSIZE); [|done].
    rewrite length_app. simpl. lia.
Qed.

Lemma bounded_all_set_buffer a b m :
  bounded b → (∀ a', bounded (buffer_at m a')) →
  ∀ a', bounded (buffer_at (set_buffer a b m) a').
Proof. intros Hb Hm a'. rewrite buffer_at_set_buffer. by case_decide. Qed.

Lemma bounded_all_set_subscribers a f m :
  (∀ subs, map_Forall (λ _ Q, (length Q <= QUEUE_MAXSIZE)%nat) subs →
           map_Forall (λ _ Q, (length Q <= QUEUE_MAXSIZE)%nat) (f subs)) →
  (∀ a', bounded (buffer_at m a')) →
  ∀ a', bounded (buffer_at (set_subscribers a f m) a').
Proof.
  intros Hf Hm. apply bounded_all_set_buffer; [|done].
  destruct (Hm a) as [Hl Hq]. split; [done|]. by apply Hf.
Qed.

Lemma bounded_all_broadcast job ty d now m :
  (∀ a, bounded (buffer_at m a)) → ∀ a, bounded (buffer_at (broadcast job ty d now m) a).
Proof.
  intros Hm a. rewrite buffer_at_broadcast. case_decide; [|done]. by apply bounded_appended.
Qed.

Lemma bounded_all_discard a q m :
  (∀ a', bounded (buffer_at m a')) → ∀ a', bounded (buffer_at (discard a q m) a').
Proof.
  apply bounded_all_set_subscribers. intros subs H k Q Hk.
  apply lookup_delete_Some in Hk as [_ Hk]. by apply (H k).
Qed.

Lemma bounded_all_step act σ :
  (∀ a, bounded (buffer_at (manager σ) a)) →
  ∀ a, bounded (buffer_at (manager (step act σ)) a).
Proof.
  intros Hm. destruct act; simpl.
  - by apply bounded_all_broadcast.
  - unfold complete_job. destruct (_jobs (manager σ) !! job_id) as [a0|]; [|done].
    intros a. unfold buffer_at at 1. simpl.
    match goal with |- bounded (default _ (buffers ?m1 !! a)) =>
      change (bounded (buffer_at m1 a)) end.
    apply bounded_all_broadcast. apply bounded_all_set_buffer; [|done].
    destruct (Hm a0) as [? ?]. by split.
  - intros a. by rewrite (buffer_at_buffers _ _ _ (buffers_cleanup _ _)).
  - intros a. by rewrite (buffer_at_buffers _ _ _ (buffers_expire _ _)).
  - by destruct (generators σ !! s).
  - destruct (generators σ !! s) as [g|] eqn:E; [|unfold on_generator; by rewrite E].
    rewrite (manager_on_generator _ _ _ g E).
    destruct g as [job last|last a q|a q|a q|a q|]; simpl; try done.
    + pose proof (buffer_at_get_or_create job (manager σ)) as Hgoc.
      destruct (_get_or_create_buffer job (manager σ)) as [a m1]. simpl in *.
      assert (∀ a', bounded (buffer_at (cancel_pending job m1) a')) as Hm2.
      { intros a'. by rewrite (buffer_at_buffers _ _ _ (buffers_cancel_pending _ _)), Hgoc. }
      apply bounded_all_set_buffer; [|done].
      destruct (Hm2 a) as [Hl Hq]. split; simpl; [done|].
      apply map_Forall_insert_2; [simpl; lia|done].
    + destruct (lines (buffer_at (manager σ) a)) eqn:Hl; [done|].
      destruct (history_start_id last ≫= _) as [[|x missed]|]; simpl; [done| |].
      * apply bounded_all_set_buffer; [|done]. rewrite <- Hl.
        destruct (Hm a) as [? ?]. by split.
      * by apply bounded_all_discard.
    + destruct (is_complete _ && _); simpl; [|done]. by apply bounded_all_discard.
  - destruct (generators σ !! s) as [g|] eqn:E; [|unfold on_generator; by rewrite E].
    rewrite (manager_on_generator _ _ _ g E).
    destruct g as [job last|last a q|a q|a q|a q|]; simpl; try done.
    unfold queue_at. destruct (subscribers (buffer_at (manager σ) a) !! q) as [[|x rest]|] eqn:HQ;
      simpl; try done.
    apply bounded_all_set_subscribers; [|done]. intros subs H.
    destruct (Hm a) as [_ Hq]. specialize (Hq q _ HQ). simpl in Hq.
    apply map_Forall_insert_2; [lia|done].
  - destruct (generators σ !! s) as [g|] eqn:E; [|unfold on_generator; by rewrite E].
    rewrite (manager_on_generator _ _ _ g E).
    destruct g as [job last|last a q|a q|a q|a q|]; simpl; try done.
    by destruct (queue_at (manager σ) a q).
  - destruct (generators σ !! s) as [g|] eqn:E; [|unfold on_generator; by rewrite E].
    rewrite (manager_on_generator _ _ _ g E).
    destruct g as [job last|last a q|a q|a q|a q|]; simpl; try done;
      by apply bounded_all_discard.
Qed.

(** X1: whatever has happened, a buffer retains at most 500 lines and a
    subscriber's queue holds at most 100 items. *)
Theorem buffers_and_queues_bounded tr a :
  let b := buffer_at (manager (run tr initial)) a in
  (length (lines b) <= 500)%nat ∧
  ∀ q Q, subscribers b !! q = Some Q → (length Q <= 100)%nat.
Proof.
  assert (∀ tr σ, (∀ a, bounded (buffer_at (manager σ) a)) →
                  ∀ a, bounded (buffer_at (manager (run tr σ)) a)) as Hrun.
  { clear. induction tr as [|act tr IH]; intros σ H; [done|].
    simpl. apply IH. by apply bounded_all_step. }
  destruct (Hrun tr initial (λ _, bounded_new) a) as [Hl Hq].
  split; [exact Hl|]. intros q Q HQ. exact (Hq q Q HQ).
Qed.

(** X2: whatever has happened, the ids retained in a buffer are the
    numerals of strictly increasing numbers between 1 and the counter, so
    no id occurs twice. *)
Theorem retained_ids_distinct tr a :
  let b := buffer_at (manager (run tr initial)) a in
  increasing (lines b) ∧ NoDup (map line_id (lines b)) ∧
  Forall (λ l, line_id l = py_str (line_num l) ∧ 1 ≤ line_num l ≤ event_counter b) (lines b).
Proof.
  destruct (Inv_reachable tr) as (Hb & _ & _). destruct (Hb a) as (_ & Hf & Hinc).
  split; [done|]. split; [|done].
  apply increasing_NoDup; [done|]. eapply Forall_impl; [exact Hf|]. by intros l [? _].
Qed.

Lemma grows_refl b : grows b b.
Proof. split; [lia|done]. Qed.

Lemma grows_set_buffer a b m a' :
  grows (buffer_at m a) b → grows (buffer_at m a') (buffer_at (set_buffer a b m) a').
Proof. intros H. rewrite buffer_at_set_buffer. case_decide; [by subst|apply grows_refl]. Qed.

Lemma grows_trans b1 b2 b3 : grows b1 b2 → grows b2 b3 → grows b1 b3.
Proof. intros [? ?] [? ?]. split; [lia|auto]. Qed.

Lemma grows_broadcast job ty d now m a :
  grows (buffer_at m a) (buffer_at (broadcast job ty d now m) a).
Proof.
  rewrite buffer_at_broadcast. case_decide; [|apply grows_refl].
  split; simpl; [lia|done].
Qed.

Lemma grows_discard a q m a' :
  grows (buffer_at m a') (buffer_at (discard a q m) a').
Proof. apply grows_set_buffer. split; simpl; [lia|done]. Qed.

Lemma grows_step act σ a :
  grows (buffer_at (manager σ) a) (buffer_at (manager (step act σ)) a).
Proof.
  destruct act; simpl.
  - apply grows_broadcast.
  - destruct (_jobs (manager σ) !! job_id) as [a0|] eqn:Hj.
    + rewrite (buffer_at_complete_job job_id now _ a0 a Hj). case_decide; [|apply grows_refl].
      subst. split; simpl; [lia|done].
    + unfold complete_job. rewrite Hj. apply grows_refl.
  - rewrite (buffer_at_buffers _ _ _ (buffers_cleanup _ _)). apply grows_refl.
  - rewrite (buffer_at_buffers _ _ _ (buffers_expire _ _)). apply grows_refl.
  - destruct (generators σ !! s); apply grows_refl.
  - destruct (generators σ !! s) as [g|] eqn:E;
      [|unfold on_generator; rewrite E; apply grows_refl].
    rewrite (manager_on_generator _ _ _ g E).
    destruct g as [job last|last a0 q|a0 q|a0 q|a0 q|]; simpl; try apply grows_refl.
    + pose proof (buffer_at_get_or_create job (manager σ)) as Hgoc.
      destruct (_get_or_create_buffer job (manager σ)) as [a0 m1]. simpl in *.
      assert (∀ a', buffer_at (cancel_pending job m1) a' = buffer_at (manager σ) a') as HB.
      { intros a'. by rewrite (buffer_at_buffers _ _ _ (buffers_cancel_pending _ _)). }
      rewrite <- (HB a) at 1. apply grows_set_buffer. split; simpl; [lia|done].
    + destruct (lines (buffer_at (manager σ) a0)); [apply grows_refl|].
      destruct (history_start_id last ≫= _) as [[|x missed]|]; simpl.
      * apply grows_refl.
      * apply grows_set_buffer. split; simpl; [lia|done].
      * apply grows_discard.
    + destruct (is_complete _ && _); simpl; [apply grows_discard|apply grows_refl].
  - destruct (generators σ !! s) as [g|] eqn:E;
      [|unfold on_generator; rewrite E; apply grows_refl].
    rewrite (manager_on_generator _ _ _ g E).
    destruct g as [job last|last a0 q|a0 q|a0 q|a0 q|]; simpl; try apply grows_refl.
    destruct (queue_at (manager σ) a0 q); simpl; [apply grows_refl|].
    apply grows_set_buffer. split; simpl; [lia|done].
  - destruct (generators σ !! s) as [g|] eqn:E;
      [|unfold on_generator; rewrite E; apply grows_refl].
    rewrite (manager_on_generator _ _ _ g E).
    destruct g as [job last|last a0 q|a0 q|a0 q|a0 q|]; simpl; try apply grows_refl.
    destruct (queue_at (manager σ) a0 q); apply grows_refl.
  - destruct (generators σ !! s) as [g|] eqn:E;
      [|unfold on_generator; rewrite E; apply grows_refl].
    rewrite (manager_on_generator _ _ _ g E).
    destruct g; simpl; try apply grows_refl; apply grows_discard.
Qed.

(** X3: along any sequence of actions, from any state, the counter of a
    buffer object never decreases and a buffer that is complete stays
    complete. *)
Theorem counter_and_completion_monotone tr σ a :
  let b := buffer_at (manager σ) a in
  let b' := buffer_at (manager (run tr σ)) a in
  event_counter b ≤ event_counter b' ∧ (is_complete b = true → is_complete b' = true).
Proof.
  revert σ. induction tr as [|act tr IH]; intros σ; [apply grows_refl|].
  simpl. eapply grows_trans; [apply (grows_step act σ a)|apply IH].
Qed.

Lemma counter_and_completion_monotone_witness :
  let σ := run [ABroadcast "job-1" STDOUT "a" "t0"; ACompleteJob "job-1" "t1"] initial in
  let tr := [ASubscribe 0%nat "job-1" None; AResume 0%nat "t2";
             ABroadcast "job-1" STDERR "b" "t3"] in
  is_complete (buffer_at (manager (run tr σ)) 0%nat) = true.
Proof.
  intros σ tr. apply (proj2 (counter_and_completion_monotone tr σ 0%nat)). reflexivity.
Defined.


(** ** The bus: cleanup and the grace period *)

Lemma cancel_pending_absent job m :
  _cleanup_tasks m !! job = None → cancel_pending job m = m.
Proof. intros H. unfold cancel_pending. by rewrite H. Qed.

Lemma cleanup_tables job m :
  _jobs (cleanup job m) = delete job (_jobs m) ∧
  _cleanup_tasks (cleanup job m) = delete job (_cleanup_tasks m).
Proof.
  unfold cleanup, cancel_pending. simpl.
  destruct (_cleanup_tasks m !! job) eqn:E; simpl; [done|].
  split; [done|]. symmetry. by apply delete_id.
Qed.

(** X4: [cleanup] forgets the buffer and the teardown of the job and
    leaves no pending teardown behind; the other jobs keep their entries;
    on a job the manager does not know it changes nothing, so a second
    [cleanup] is without effect. *)
Theorem cleanup_discards job m :
  let m' := cleanup job m in
  _jobs m' !! job = None ∧ _cleanup_tasks m' !! job = None ∧
  get_client_count job m' = 0%nat ∧ has_buffer job m' = false ∧
  (∀ t, _cleanup_tasks m !! job = Some t →
        task_state <$> tasks m' !! t ≠ Some Pending) ∧
  (∀ job', job' ≠ job →
           _jobs m' !! job' = _jobs m !! job' ∧
           _cleanup_tasks m' !! job' = _cleanup_tasks m !! job') ∧
  buffers m' = buffers m ∧
  (_jobs m !! job = None → _cleanup_tasks m !! job = None → m' = m) ∧
  cleanup job m' = m'.
Proof.
  intros m'. destruct (cleanup_tables job m) as [Hj Hc]. fold m' in Hj, Hc.
  assert (_jobs m' !! job = None) as Hj' by (rewrite Hj; apply lookup_delete_eq).
  assert (_cleanup_tasks m' !! job = None) as Hc' by (rewrite Hc; apply lookup_delete_eq).
  assert (∀ m0, _jobs m0 !! job = None → _cleanup_tasks m0 !! job = None →
                cleanup job m0 = m0) as Hid.
  { intros m0 H1 H2. unfold cleanup. rewrite (cancel_pending_absent _ _ H2).
    rewrite delete_id by done. by destruct m0. }
  split; [done|]. split; [done|].
  split; [unfold get_client_count; by rewrite Hj'|].
  split; [unfold has_buffer; by rewrite Hj'|].
  split.
  { intros t Ht. unfold m', cleanup, cancel_pending. rewrite Ht. simpl.
    rewrite lookup_alter, decide_True by done.
    destruct (tasks m !! t) as [[j st]|]; [|done]. unfold cancel. by destruct st. }
  split.
  { intros job' Hne. rewrite Hj, Hc. by rewrite !lookup_delete_ne. }
  split; [apply buffers_cleanup|].
  split; [apply Hid|by apply Hid].
Qed.

Lemma cleanup_discards_witness :
  cleanup "job-2" (broadcast "job-1" STDOUT "a" "t0" new_manager)
  = broadcast "job-1" STDOUT "a" "t0" new_manager.
Proof.
  refine (proj1 (proj2 (proj2 (proj2 (proj2 (proj2 (proj2 (proj2
            (cleanup_discards "job-2" (broadcast "job-1" STDOUT "a" "t0" new_manager)))))))))
            _ _); reflexivity.
Defined.


Lemma tables_broadcast_known job ty d now m a :
  _jobs m !! job = Some a →
  _jobs (broadcast job ty d now m) = _jobs m ∧
  _cleanup_tasks (broadcast job ty d now m) = _cleanup_tasks m ∧
  tasks (broadcast job ty d now m) = tasks m.
Proof. intros Hj. unfold broadcast, _get_or_create_buffer. by rewrite Hj. Qed.

Lemma tables_broadcast_all_known job rs m a :
  _jobs m !! job = Some a →
  _jobs (broadcast_all job rs m) = _jobs m ∧
  _cleanup_tasks (broadcast_all job rs m) = _cleanup_tasks m ∧
  tasks (broadcast_all job rs m) = tasks m.
Proof.
  revert m. induction rs as [|[[ty d] now] rs IH]; intros m Hj; [done|].
  change (broadcast_all job ((ty, d, now) :: rs) m)
    with (broadcast_all job rs (broadcast job ty d now m)).
  destruct (tables_broadcast_known job ty d now m a Hj) as (H1 & H2 & H3).
  destruct (IH (broadcast job ty d now m)) as (-> & -> & ->); [by rewrite H1|done].
Qed.

(** X5: when the grace period of the teardown that [complete_job]
    scheduled elapses, the buffer of the job is discarded, also when
    further events were broadcast for the job in the meantime; the same
    teardown firing again changes nothing. *)
Theorem grace_period_teardown job now rs m a :
  _jobs m !! job = Some a →
  let m1 := broadcast_all job rs (complete_job job now m) in
  ∃ t, _cleanup_tasks m1 !! job = Some t ∧
       tasks m1 !! t = Some (mkTask job Pending) ∧
       let m2 := expire t m1 in
       _jobs m2 !! job = None ∧ job_buffer job m2 = None ∧
       _cleanup_tasks m2 !! job = None ∧
       tasks m2 !! t = Some (mkTask job Cancelled) ∧
       expire t m2 = m2.
Proof.
  intros Hj m1. set (m0 := complete_job job now m) in *.
  destruct (tasks_complete_job job now m a Hj) as [Hc0 Ht0]. fold m0 in Hc0, Ht0.
  assert (_jobs m0 !! job = Some a) as Hj0 by (unfold m0; by rewrite jobs_complete_job).
  destruct (tables_broadcast_all_known job rs m0 a Hj0) as (Hj1 & Hc1 & Ht1).
  fold m1 in Hj1, Hc1, Ht1. set (t := fresh (dom (tasks m))) in *.
  assert (_cleanup_tasks m1 !! job = Some t) as Hct
    by (rewrite Hc1, Hc0; apply lookup_insert_eq).
  assert (tasks m1 !! t = Some (mkTask job Pending)) as Htt
    by (rewrite Ht1, Ht0; apply lookup_insert_eq).
  exists t. split; [done|]. split; [done|]. cbv zeta.
  assert (tasks (expire t m1) !! t = Some (mkTask job Cancelled)) as Hfin.
  { unfold expire. rewrite Htt. cbn [tasks].
    rewrite lookup_alter, decide_True by done.
    unfold cleanup, cancel_pending. rewrite Hct. cbn [tasks].
    rewrite lookup_alter, decide_True, Htt by done. done. }
  assert (_jobs (expire t m1) !! job = None) as Hgone.
  { unfold expire. rewrite Htt. cbn [_jobs].
    destruct (cleanup_tables job m1) as [-> _]. apply lookup_delete_eq. }
  split; [done|]. split; [unfold job_buffer; by rewrite Hgone|]. split.
  { unfold expire. rewrite Htt. cbn [_cleanup_tasks].
    destruct (cleanup_tables job m1) as [_ ->]. apply lookup_delete_eq. }
  split; [done|]. unfold expire at 1. by rewrite Hfin.
Qed.

Lemma grace_period_teardown_witness :
  job_buffer "job-1"
    (expire 0%nat
       (broadcast_all "job-1" [(STDERR, "late", "t2")]
          (complete_job "job-1" "t1" (broadcast "job-1" STDOUT "x" "t0" new_manager))))
  = None.
Proof.
  destruct (grace_period_teardown "job-1" "t1" [(STDERR, "late", "t2")]
              (broadcast "job-1" STDOUT "x" "t0" new_manager) 0%nat)
    as (t & Ht & _ & H); [reflexivity|].
  assert (t = 0%nat) as -> by (vm_compute in Ht; congruence).
  apply H.
Defined.

(** ** The bus: a job id that is used again *)

(** X6: after [cleanup], the next [broadcast] for the same job id starts a
    new buffer whose first line has id 1; the buffer object the job had
    before is left as it was, so the queues of the subscribers that are
    still attached to it receive nothing. *)
Theorem broadcast_after_cleanup job ty d now m a b :
  _jobs m !! job = Some a →
  buffers m !! a = Some b →
  let m' := broadcast job ty d now (cleanup job m) in
  ∃ a', a' ≠ a ∧ _jobs m' !! job = Some a' ∧
        buffers m' !! a' = Some (mkBuffer [mkLine "1" ty d now] 1 false ∅) ∧
        buffers m' !! a = Some b.
Proof.
  intros Hj Hb m'. subst m'.
  destruct (cleanup_tables job m) as [Hj0 _].
  pose proof (buffers_cleanup job m) as Hb0.
  generalize dependent (cleanup job m). intros m0 Hj0 Hb0.
  assert (_jobs m0 !! job = None) as Hn by (rewrite Hj0; apply lookup_delete_eq).
  set (a' := fresh (dom (buffers m0))).
  assert (a' ≠ a) as Hne.
  { intros Heq. apply (is_fresh (dom (buffers m0))). fold a'.
    rewrite Heq, Hb0. apply elem_of_dom. by eexists. }
  exists a'. split; [done|].
  unfold broadcast, _get_or_create_buffer. rewrite Hn. fold a'. cbn.
  split; [apply lookup_insert_eq|].
  split.
  - rewrite lookup_insert_eq. unfold buffer_at. cbn. rewrite lookup_insert_eq. done.
  - rewrite !lookup_insert_ne by done. by rewrite Hb0.
Qed.

Lemma broadcast_after_cleanup_witness :
  let m := broadcast "job-1" STDOUT "old" "t0" new_manager in
  ∃ a', a' ≠ 0%nat ∧
        _jobs (broadcast "job-1" STDOUT "new" "t1" (cleanup "job-1" m)) !! "job-1" = Some a' ∧
        buffers (broadcast "job-1" STDOUT "new" "t1" (cleanup "job-1" m)) !! a'
          = Some (mkBuffer [mkLine "1" STDOUT "new" "t1"] 1 false ∅) ∧
        buffers (broadcast "job-1" STDOUT "new" "t1" (cleanup "job-1" m)) !! 0%nat
          = Some (mkBuffer [mkLine "1" STDOUT "old" "t0"] 1 false ∅).
Proof.
  intros m.
  apply (broadcast_after_cleanup "job-1" STDOUT "new" "t1" m 0%nat
           (mkBuffer [mkLine "1" STDOUT "old" "t0"] 1 false ∅)); reflexivity.
Defined.

(** ** The subscriber: connecting, leaving, and the end of the stream *)

Lemma fresh_subscribers_None (subs : gmap nat (list StreamLine)) :
  subs !! fresh (dom subs) = None.
Proof. apply not_elem_of_dom, is_fresh. Qed.

(** X7: a subscriber that connects and leaves again is counted while it is
    connected and no longer afterwards: the set of queues of the buffer is
    as before.  The counter of the buffer stays advanced by the connected
    line, the lines are untouched, and a buffer that the subscription
    created stays registered. *)
Theorem subscribe_then_close job last now m :
  let r := resume (GNew job last) now m in
  let r' := close r.1.1 r.1.2 in
  get_client_count job r.1.2 = S (get_client_count job m) ∧
  get_client_count job r'.2 = get_client_count job m ∧
  r'.1 = GClosed ∧
  ∃ a, _jobs r'.2 !! job = Some a ∧
       (_jobs m !! job = None ∨ _jobs m !! job = Some a) ∧
       let b := default new_buffer (job_buffer job m) in
       buffer_at r'.2 a = mkBuffer (lines b) (event_counter b + 1) (is_complete b) (subscribers b).
Proof.
  cbv zeta. unfold resume.
  pose proof (buffer_at_get_or_create job m) as Hgoc.
  pose proof (jobs_get_or_create job m) as Hjgoc.
  assert (default new_buffer (job_buffer job m)
          = buffer_at (_get_or_create_buffer job m).2 (_get_or_create_buffer job m).1
          ∧ (_jobs m !! job = None ∨ _jobs m !! job = Some (_get_or_create_buffer job m).1)
          ∧ get_client_count job m
            = size (subscribers (buffer_at (_get_or_create_buffer job m).2
                                           (_get_or_create_buffer job m).1))) as Hdef.
  { unfold job_buffer, _get_or_create_buffer, get_client_count, buffer_at.
    destruct (_jobs m !! job) as [a0|] eqn:Hj; cbn.
    - split; [done|]. split; [by right|done].
    - rewrite lookup_insert_eq. cbn. split; [done|]. split; [by left|done]. }
  destruct (_get_or_create_buffer job m) as [a m1] eqn:Hg. cbn [fst snd] in *.
  destruct Hdef as (Hdef & Hold & Hcnt).
  assert (_jobs m1 !! job = Some a) as Hj1.
  { revert Hg. unfold _get_or_create_buffer.
    destruct (_jobs m !! job) eqn:Hj; intros [= <- <-]; [done|apply lookup_insert_eq]. }
  set (m2 := cancel_pending job m1).
  assert (buffer_at m2 a = buffer_at m1 a) as HB
    by (unfold m2; by rewrite (buffer_at_buffers _ _ _ (buffers_cancel_pending _ _))).
  assert (_jobs m2 !! job = Some a) as Hj2.
  { unfold m2, cancel_pending. by destruct (_cleanup_tasks m1 !! job). }
  rewrite Hdef, <- HB. set (b := buffer_at m2 a) in *.
  set (q := fresh (dom (subscribers b))).
  assert (subscribers b !! q = None) as Hq by apply fresh_subscribers_None.
  cbn [fst snd close].
  split.
  { rewrite Hcnt, <- HB. unfold get_client_count. cbn [_jobs set_buffer]. rewrite Hj2.
    rewrite buffer_at_set_buffer, decide_True by done. cbn.
    by apply map_size_insert_None. }
  assert (buffer_at (discard a q (set_buffer a
             (mkBuffer (lines b) (event_counter b + 1) (is_complete b)
                       (<[q:=[]]> (subscribers b))) m2)) a
          = mkBuffer (lines b) (event_counter b + 1) (is_complete b) (subscribers b)) as Hfin.
  { unfold discard, set_subscribers.
    rewrite !buffer_at_set_buffer, !decide_True by done. cbn.
    by rewrite delete_insert_id. }
  split.
  { rewrite Hcnt, <- HB. unfold get_client_count.
    cbn [_jobs set_buffer discard set_subscribers].
    rewrite Hj2. fold (set_subscribers a (delete q)). fold (discard a q).
    by rewrite Hfin. }
  split; [done|].
  exists a. split; [cbn; exact Hj2|]. split; [done|]. exact Hfin.
Qed.

Lemma run_app tr1 tr2 σ : run (tr1 ++ tr2) σ = run tr2 (run tr1 σ).
Proof. unfold run. apply foldl_app. Qed.

Lemma chunks_of_yield s c σ m g :
  chunks_of s (mkSystem m g (record_outcome s (Yield c) (received σ)))
  = chunks_of s σ ++ [c].
Proof. unfold chunks_of. cbn. by rewrite lookup_insert_eq. Qed.

Lemma step_deliver_item s a q l rest σ :
  generators σ !! s = Some (GWaiting a q) →
  subscribers (buffer_at (manager σ) a) !! q = Some (l :: rest) →
  step (ADeliver s) σ
  = mkSystem (set_subscribers a (<[q := rest]>) (manager σ))
             (<[s := GLoopYield a q]> (generators σ))
             (record_outcome s (Yield (Event l)) (received σ)).
Proof.
  intros Hg Hq. unfold step, on_generator. rewrite Hg. cbn [deliver].
  unfold queue_at. by rewrite Hq.
Qed.

Lemma step_timeout_idle s a q σ :
  generators σ !! s = Some (GWaiting a q) →
  subscribers (buffer_at (manager σ) a) !! q = Some [] →
  step (ATimeout s) σ
  = mkSystem (manager σ) (<[s := GLoopYield a q]> (generators σ))
             (record_outcome s (Yield Keepalive) (received σ)).
Proof.
  intros Hg Hq. unfold step, on_generator. rewrite Hg. cbn [timeout].
  unfold queue_at. by rewrite Hq.
Qed.

Lemma step_resume_loop s now a q σ :
  generators σ !! s = Some (GLoopYield a q) →
  step (AResume s now) σ
  = if is_complete (buffer_at (manager σ) a) && bool_decide (queue_at (manager σ) a q = [])
    then mkSystem (discard a q (manager σ)) (<[s := GClosed]> (generators σ)) (received σ)
    else mkSystem (manager σ) (<[s := GWaiting a q]> (generators σ)) (received σ).
Proof.
  intros Hg. unfold step, on_generator. rewrite Hg. cbn [resume].
  by destruct (is_complete _ && _).
Qed.

Lemma buffer_at_set_subscribers_eq a f m :
  buffer_at (set_subscribers a f m) a
  = mkBuffer (lines (buffer_at m a)) (event_counter (buffer_at m a))
             (is_complete (buffer_at m a)) (f (subscribers (buffer_at m a))).
Proof. unfold set_subscribers. by rewrite buffer_at_set_buffer, decide_True. Qed.

Lemma drain_items s now a q l rest σ :
  generators σ !! s = Some (GWaiting a q) →
  subscribers (buffer_at (manager σ) a) !! q = Some (l :: rest) →
  is_complete (buffer_at (manager σ) a) = true →
  let σ' := run (read_items s now (S (length rest))) σ in
  chunks_of s σ' = chunks_of s σ ++ (Event <$> (l :: rest)) ∧
  generators σ' !! s = Some GClosed ∧
  subscribers (buffer_at (manager σ') a) = delete q (subscribers (buffer_at (manager σ) a)) ∧
  lines (buffer_at (manager σ') a) = lines (buffer_at (manager σ) a).
Proof.
  revert l σ. induction rest as [|l' rest IH]; intros l σ Hg Hq Hc.
  - cbn [length read_items replicate concat app run foldl].
    rewrite (step_deliver_item s a q l [] σ Hg Hq).
    rewrite (step_resume_loop s now a q) by apply lookup_insert_eq.
    cbn [manager generators received]. unfold queue_at.
    rewrite !buffer_at_set_subscribers_eq. cbn [subscribers is_complete].
    rewrite lookup_insert_eq, Hc. cbn [default andb].
    rewrite bool_decide_eq_true_2 by done. cbv zeta. cbn [manager generators].
    split; [apply chunks_of_yield|]. split; [apply lookup_insert_eq|].
    unfold discard. rewrite !buffer_at_set_subscribers_eq. cbn.
    split; [by rewrite delete_insert_eq|done].
  - change (read_items s now (S (length (l' :: rest))))
      with ([ADeliver s; AResume s now] ++ read_items s now (S (length rest))).
    rewrite run_app. set (σ1 := run [ADeliver s; AResume s now] σ).
    assert (generators σ1 !! s = Some (GWaiting a q) ∧
            buffer_at (manager σ1) a
            = mkBuffer (lines (buffer_at (manager σ) a)) (event_counter (buffer_at (manager σ) a))
                true (<[q := l' :: rest]> (subscribers (buffer_at (manager σ) a))) ∧
            chunks_of s σ1 = chunks_of s σ ++ [Event l]) as (Hg1 & Hb1 & Hr1).
    { unfold σ1. cbn [run foldl].
      rewrite (step_deliver_item s a q l (l' :: rest) σ Hg Hq).
      rewrite (step_resume_loop s now a q) by apply lookup_insert_eq.
      cbn [manager generators received]. unfold queue_at.
      rewrite !buffer_at_set_subscribers_eq. cbn [subscribers is_complete].
      rewrite lookup_insert_eq, Hc. cbn [default andb].
      rewrite bool_decide_eq_false_2 by done. cbn [manager generators].
      split; [apply lookup_insert_eq|].
      split; [by rewrite buffer_at_set_subscribers_eq, Hc|apply chunks_of_yield]. }
    destruct (IH l' σ1 Hg1) as (H1 & H2 & H3 & H4).
    { rewrite Hb1. cbn. apply lookup_insert_eq. }
    { by rewrite Hb1. }
    cbv zeta. rewrite H1, H2, H3, H4, Hr1, Hb1. cbn [subscribers lines].
    split; [by rewrite <- app_assoc|]. split; [done|].
    split; [by rewrite delete_insert_eq|done].
Qed.

(** X8: the end of the stream.  A subscriber that waits on a buffer that
    is complete receives the items left in its queue, in their order, and
    then its generator ends and its queue is removed from the buffer; when
    the queue is empty the generator ends only after the thirty seconds of
    the wait have passed and a keepalive was sent. *)
Theorem completed_stream_ends s now a q Q σ :
  generators σ !! s = Some (GWaiting a q) →
  subscribers (buffer_at (manager σ) a) !! q = Some Q →
  is_complete (buffer_at (manager σ) a) = true →
  let σ' := run (drain s now Q) σ in
  chunks_of s σ' = chunks_of s σ ++ drained Q ∧
  generators σ' !! s = Some GClosed ∧
  subscribers (buffer_at (manager σ') a) = delete q (subscribers (buffer_at (manager σ) a)) ∧
  lines (buffer_at (manager σ') a) = lines (buffer_at (manager σ) a).
Proof.
  intros Hg Hq Hc. destruct Q as [|l rest]; [|by apply drain_items].
  cbn [drain drained run foldl].
  rewrite (step_timeout_idle s a q σ Hg Hq).
  rewrite (step_resume_loop s now a q) by apply lookup_insert_eq.
  cbn [manager generators received]. unfold queue_at. rewrite Hq, Hc.
  cbn [default andb]. rewrite bool_decide_eq_true_2 by done. cbv zeta.
  cbn [manager generators].
  split; [apply chunks_of_yield|]. split; [apply lookup_insert_eq|].
  unfold discard. by rewrite !buffer_at_set_subscribers_eq.
Qed.

Lemma completed_stream_ends_witness :
  let σ := run [ASubscribe 0%nat "job-1" None; AResume 0%nat "t0"; AResume 0%nat "t1";
                ABroadcast "job-1" STDOUT "a" "t2"; ACompleteJob "job-1" "t3"] initial in
  let Q := [mkLine "2" STDOUT "a" "t2"; mkLine "3" STATUS "completed" "t3"] in
  let σ' := run (drain 0%nat "t4" Q) σ in
  chunks_of 0%nat σ' = chunks_of 0%nat σ ++ drained Q ∧
  generators σ' !! 0%nat = Some GClosed ∧
  subscribers (buffer_at (manager σ') 0%nat)
    = delete 0%nat (subscribers (buffer_at (manager σ) 0%nat)) ∧
  lines (buffer_at (manager σ') 0%nat) = lines (buffer_at (manager σ) 0%nat).
Proof.
  intros σ Q.
  apply (completed_stream_ends 0%nat "t4" 0%nat 0%nat Q σ); reflexivity.
Defined.

(** ** The tracker: the log and the fields of a phase *)

Lemma trim_logs_py_last l : trim_logs l = py_last MAX_LOGS l.
Proof.
  unfold trim_logs, py_last. destruct (Nat.ltb_spec MAX_LOGS (length l)) as [H|H]; [done|].
  replace (length l - MAX_LOGS)%nat with 0%nat by lia. done.
Qed.

Lemma job_logs_log msg now j :
  job_logs (log msg now j) = py_last MAX_LOGS (job_logs j ++ [mkLog now msg]).
Proof. unfold job_logs, log. cbn. rewrite trim_logs_py_last. by destruct (progress j). Qed.

Lemma job_logs_call c j :
  job_logs (call c j) = job_logs j ∨
  ∃ e, job_logs (call c j) = py_last MAX_LOGS (job_logs j ++ [e]).
Proof.
  destruct c as [s total now|percent action step file now|msg now|now|msg now]; cbn [call].
  - right. unfold start_phase. rewrite job_logs_log. eexists. f_equal.
  - right. unfold update_progress. rewrite job_logs_log. eexists. f_equal. f_equal.
    unfold job_logs. cbn. by destruct (progress j).
  - right. rewrite job_logs_log. by eexists.
  - unfold complete_phase. destruct (progress j) as [p|] eqn:Hp; [right|by left].
    rewrite job_logs_log. eexists. f_equal. f_equal. unfold job_logs. cbn. by rewrite Hp.
  - right. unfold set_error. rewrite job_logs_log. by eexists.
Qed.

Lemma py_last_all {A} n (l : list A) : (length l <= n)%nat → py_last n l = l.
Proof. intros H. unfold py_last. by replace (length l - n)%nat with 0%nat by lia. Qed.

(** X9: the log of a job never holds more than 50 entries, whatever
    methods of the tracker are called, and entries are lost at the old
    end only: the log is the newest 50 of what it held before followed by
    what was logged since, at most one entry for each call. *)
Theorem tracker_keeps_newest_logs cs j :
  (length (job_logs j) <= MAX_LOGS)%nat →
  (length (job_logs (calls cs j)) <= 50)%nat ∧
  ∃ es, (length es <= length cs)%nat ∧
        job_logs (calls cs j) = py_last 50 (job_logs j ++ es).
Proof.
  intros Hlen.
  assert (∃ es, (length es <= length cs)%nat ∧
                job_logs (calls cs j) = py_last MAX_LOGS (job_logs j ++ es)) as (es & Hes & Heq).
  { induction cs as [|c cs IH] using rev_ind.
    - exists []. split; [done|]. rewrite app_nil_r. by rewrite py_last_all.
    - destruct IH as (es & Hes & Heq). unfold calls. rewrite foldl_snoc. fold (calls cs j).
      rewrite length_app. cbn [length].
      destruct (job_logs_call c (calls cs j)) as [->|[e ->]].
      + exists es. split; [lia|done].
      + exists (es ++ [e]). split; [rewrite length_app; cbn; lia|].
        by rewrite Heq, py_last_app, app_assoc. }
  split; [|by exists es].
  rewrite Heq, length_py_last. unfold MAX_LOGS. lia.
Qed.

Lemma tracker_keeps_newest_logs_witness :
  let j := new_job "job-1" "sorting" "python" BEGINNER 1 "t0" in
  let cs := [CallStartPhase RENDERING None "t1"; CallCompletePhase "t2";
             CallSetError "boom" "t3"] in
  (length (job_logs (calls cs j)) <= 50)%nat ∧
  ∃ es, (length es <= length cs)%nat ∧
        job_logs (calls cs j) = py_last 50 (job_logs j ++ es).
Proof.
  intros j cs. apply (tracker_keeps_newest_logs cs j). cbn. unfold MAX_LOGS. lia.
Defined.

Lemma update_progress_fields percent action step file now j :
  let j' := update_progress percent action step file now j in
  status j' = status j ∧ results j' = results j ∧ error j' = error j ∧
  startedAt j' = startedAt j ∧ completedAt j' = completedAt j ∧
  ∀ p, progress j = Some p →
       ∃ p', progress j' = Some p' ∧ totalSteps p' = totalSteps p ∧
             phaseStartedAt p' = phaseStartedAt p ∧ currentAction p' = action ∧
             currentStep p' = match step with Some k => Some k | None => currentStep p end.
Proof.
  cbv zeta. repeat (split; [done|]). intros p Hp.
  unfold update_progress, log. rewrite Hp. cbn. eexists. split; [done|]. done.
Qed.

Lemma updates_fields us j p :
  progress j = Some p →
  let j' := updates us j in
  status j' = status j ∧ results j' = results j ∧ error j' = error j ∧
  startedAt j' = startedAt j ∧ completedAt j' = completedAt j ∧
  ∃ p', progress j' = Some p' ∧ totalSteps p' = totalSteps p ∧
        phaseStartedAt p' = phaseStartedAt p ∧
        currentAction p' = shown_action (currentAction p) us ∧
        currentStep p' = shown_step (currentStep p) us.
Proof.
  revert j p. induction us as [|[[[percent action] step] now] us IH]; intros j p Hp.
  - cbn. repeat (split; [done|]). by exists p.
  - cbn [updates foldl shown_action shown_step].
    destruct (update_progress_fields percent action step None now j)
      as (H1 & H2 & H3 & H4 & H5 & H6).
    destruct (H6 p Hp) as (p1 & Hp1 & Ht & Hs & Ha & Hc).
    destruct (IH _ p1 Hp1) as (G1 & G2 & G3 & G4 & G5 & p' & Hp' & Gt & Gs & Ga & Gc).
    fold (updates us (update_progress percent action step None now j)).
    cbv zeta. rewrite G1, G2, G3, G4, G5, H1, H2, H3, H4, H5.
    repeat (split; [done|]). exists p'. split; [done|].
    rewrite Gt, Gs, Ga, Gc, Ht, Hs, Ha, Hc. done.
Qed.

(** X10: the fields of a phase.  From [start_phase] through any updates
    to [complete_phase] the job keeps the status, the number of steps and
    the start time the phase was opened with; at the end the phase stands
    at 100 percent, with the action and the step of the last update that
    gave one (without updates: the default action of the status, and step
    1 when a number of steps other than 0 was given).  Results, error and
    the times of the job are not touched. *)
Theorem phase_bookkeeping s total now us now' j :
  let j' := complete_phase now' (updates us (start_phase s total now j)) in
  status j' = s ∧ results j' = results j ∧ error j' = error j ∧
  startedAt j' = startedAt j ∧ completedAt j' = completedAt j ∧
  ∃ p, progress j' = Some p ∧ subProgress p = 100%Q ∧
       totalSteps p = total ∧ phaseStartedAt p = now ∧
       currentAction p = shown_action (_get_default_action s) us ∧
       currentStep p =
         shown_step (match total with
                     | Some k => if (k =? 0)%Z then None else Some 1
                     | None => None
                     end) us.
Proof.
  cbv zeta. set (j0 := start_phase s total now j).
  assert (∃ p0, progress j0 = Some p0 ∧ totalSteps p0 = total ∧ phaseStartedAt p0 = now ∧
                currentAction p0 = _get_default_action s ∧
                currentStep p0 = (if int_truthy total then Some 1 else None))
    as (p0 & Hp0 & I1 & I2 & I3 & I4).
  { unfold j0, start_phase, log. cbn. eexists. split; [done|]. done. }
  destruct (updates_fields us j0 p0 Hp0)
    as (G1 & G2 & G3 & G4 & G5 & p' & Hp' & Gt & Gs & Ga & Gc).
  unfold complete_phase. rewrite Hp'. unfold log. cbn.
  split; [exact G1|]. split; [exact G2|]. split; [exact G3|]. split; [exact G4|].
  split; [exact G5|]. eexists. split; [done|]. cbn.
  rewrite Gt, Gs, Ga, Gc, I1, I2, I3, I4.
  repeat (split; [done|]). f_equal. destruct total as [k|]; [|done]. cbn.
  by destruct (k =? 0)%Z.
Qed.

(** ** The deadline wrapper: where a result comes from *)

(** X11: what [with_timeout] hands back is the coroutine's own result,
    and then the coroutine has finished before the deadline, or the
    [TimeoutError] of this wrapper for this operation; it never lets
    [asyncio.TimeoutError] through. *)
Theorem with_timeout_origin {A} (coro : Coroutine A) timeout_seconds operation :
  (∀ v, with_timeout coro timeout_seconds operation = Returns v →
        ∃ d, finishes_after coro = Some d ∧ (d < timeout_seconds)%Q ∧
             completion coro = Returns v) ∧
  (∀ e, with_timeout coro timeout_seconds operation = Raises e →
        e ≠ AsyncioTimeoutError ∧
        (e = TimeoutError operation timeout_seconds ∨
         ∃ d, finishes_after coro = Some d ∧ (d < timeout_seconds)%Q ∧
              completion coro = Raises e)).
Proof.
  unfold with_timeout, wait_for.
  destruct (finishes_after coro) as [d|]; [destruct (Qlt_le_dec d timeout_seconds) as [Hlt|Hle]|].
  - destruct (completion coro) as [v|e] eqn:Hc.
    + split; [intros ? [= <-]; by exists d|done].
    + split; [by destruct e|]. intros e'.
      destruct e; intros [= <-]; (split; [done|]); try (right; by exists d); by left.
  - split; [done|]. intros e [= <-]. split; [done|by left].
  - split; [done|]. intros e [= <-]. split; [done|by left].
Qed.

Lemma with_timeout_origin_witness :
  ∃ d, finishes_after (mkCoroutine (Some 1%Q) (Returns 5)) = Some d ∧ (d < 60)%Q ∧
       completion (mkCoroutine (Some 1%Q) (Returns 5)) = Returns 5.
Proof.
  apply (proj1 (with_timeout_origin (mkCoroutine (Some 1%Q) (Returns 5)) 60 "op") 5).
  reflexivity.
Defined.


(** ** Speech synthesis *)

Section audio.
Variables (AUDIO_DIR : string) (generate_audio : string → string → Q → Synthesis)
  (percent_of : nat → nat → Z) (clock : nat → string) (total_steps : nat)
  (job_id : string) (voice_speed : Q) (tracker : bool).

Lemma with_timeout_in_time i text :
  in_time AUDIO_DIR generate_audio job_id voice_speed i text →
  with_timeout (synthesis (generate_audio text
                  (tts.audio_path AUDIO_DIR (tts.audio_name job_id i)) voice_speed))
    tts.AUDIO_PER_STEP
    ("Audio generation for step " +:+ py_str (Z.of_nat i + 1)) = Returns ().
Proof. intros (d & Hd & Hlt & Hc). by apply (with_timeout_returns _ d). Qed.

Lemma with_timeout_not_in_time i text :
  ¬ in_time AUDIO_DIR generate_audio job_id voice_speed i text →
  ∃ e, with_timeout (synthesis (generate_audio text
                  (tts.audio_path AUDIO_DIR (tts.audio_name job_id i)) voice_speed))
    tts.AUDIO_PER_STEP
         ("Audio generation for step " +:+ py_str (Z.of_nat i + 1)) = Raises e ∧
       e ≠ AsyncioTimeoutError ∧
       ((∀ d, finishes_after (synthesis (generate_audio text
                  (tts.audio_path AUDIO_DIR (tts.audio_name job_id i)) voice_speed)) = Some d →
              (60 <= d)%Q) →
        e = TimeoutError ("Audio generation for step " +:+ py_str (Z.of_nat i + 1)) 60).
Proof.
  intros Hn. unfold with_timeout, wait_for, tts.AUDIO_PER_STEP.
  destruct (finishes_after _) as [d|] eqn:Hd.
  - destruct (Qlt_le_dec d 60) as [Hlt|Hle].
    + destruct (completion _) as [[]|e] eqn:Hc.
      * destruct Hn. by exists d.
      * destruct e; eexists; (split; [reflexivity|]); (split; [done|]); intros Hlate;
          exfalso; apply (Qlt_not_le _ _ Hlt); by apply Hlate.
    + eexists. split; [reflexivity|]. by split.
  - eexists. split; [reflexivity|]. by split.
Qed.

Lemma written_app_report {A} (report : list Effect) es (o : Completion A) :
  (∀ e, e ∈ report → ∃ p a s f n, e = Progress p a s f n) →
  written (mkRun (report ++ es) o) = written (mkRun es o).
Proof.
  intros H. unfold written. cbn. rewrite omap_app.
  replace (omap _ report) with (@nil string); [done|].
  induction report as [|e report IH]; [done|].
  destruct (H e) as (?&?&?&?&?&->); [left|]. cbn. apply IH.
  intros e' He'. apply H. by right.
Qed.

Lemma written_write {A B} name (r : Run A) (o : Completion B) :
  written (mkRun (WriteAudio name :: effects r) o) = name :: written r.
Proof. done. Qed.

Lemma reported_write {A B} name (r : Run A) (o : Completion B) :
  reported (mkRun (WriteAudio name :: effects r) o) = reported r.
Proof. done. Qed.

Lemma reported_progress {A} p a s f n es (o : Completion A) :
  reported (mkRun (Progress p a s f n :: es) o) = s :: reported (mkRun es o).
Proof. done. Qed.

Lemma report_progress i :
  ∀ e, e ∈ (if tracker
            then [Progress (inject_Z (percent_of i total_steps))
                    ("Generating audio for step " +:+ py_str (Z.of_nat i + 1) +:+ "/"
                       +:+ py_str (Z.of_nat total_steps))
                    (Some (Z.of_nat i + 1)) None (clock i)]
            else []) → ∃ p a s f n, e = Progress p a s f n.
Proof.
  destruct tracker; intros e He; [|by apply elem_of_nil in He].
  apply list_elem_of_singleton in He as ->. by do 5 eexists.
Qed.

Lemma audio_loop_success explanations i acc :
  (∀ k text, explanations !! k = Some text →
             in_time AUDIO_DIR generate_audio job_id voice_speed (i + k) text) →
  outcome (tts.audio_loop AUDIO_DIR generate_audio percent_of clock total_steps job_id
             voice_speed tracker i explanations acc)
  = Returns (acc ++ imap (λ k _, tts.audio_path AUDIO_DIR (tts.audio_name job_id (i + k)))
                         explanations) ∧
  written (tts.audio_loop AUDIO_DIR generate_audio percent_of clock total_steps job_id
             voice_speed tracker i explanations acc)
  = imap (λ k _, tts.audio_name job_id (i + k)) explanations ∧
  (tracker = true →
   reported (tts.audio_loop AUDIO_DIR generate_audio percent_of clock total_steps job_id
             voice_speed tracker i explanations acc)
   = imap (λ k _, Some (Z.of_nat (i + k) + 1)) explanations ++ [Some (Z.of_nat total_steps)]).
Proof.
  revert i acc. induction explanations as [|text rest IH]; intros i acc H.
  - cbn. rewrite app_nil_r. split; [done|]. split; [by destruct tracker|]. by intros ->.
  - cbn [tts.audio_loop].
    rewrite (with_timeout_in_time i text)
      by (specialize (H 0%nat text eq_refl); by rewrite Nat.add_0_r in H).
    destruct (IH (S i) (acc ++ [tts.audio_path AUDIO_DIR (tts.audio_name job_id i)]))
      as (H1 & H2 & H3).
    { intros k t Hk. replace (S i + k)%nat with (i + S k)%nat by lia. by apply H. }
    cbn [outcome]. rewrite H1, <- app_assoc. cbn [app imap].
    rewrite Nat.add_0_r.
    split; [|split].
    + do 3 f_equal. apply imap_ext. intros k ? _. cbn. by rewrite Nat.add_succ_r.
    + rewrite written_app_report by apply report_progress.
      rewrite written_write, H2. f_equal. apply imap_ext. intros k ? _. cbn.
      by rewrite Nat.add_succ_r.
    + intros ->. cbn [app]. rewrite reported_progress, reported_write, H3 by done.
      cbn. f_equal. f_equal. apply imap_ext. intros k ? _. cbn.
      by rewrite Nat.add_succ_r.
Qed.

Lemma audio_loop_failure explanations i acc k text :
  explanations !! k = Some text →
  (∀ n t, (n < k)%nat → explanations !! n = Some t →
          in_time AUDIO_DIR generate_audio job_id voice_speed (i + n) t) →
  ¬ in_time AUDIO_DIR generate_audio job_id voice_speed (i + k) text →
  ∃ e, outcome (tts.audio_loop AUDIO_DIR generate_audio percent_of clock total_steps job_id
             voice_speed tracker i explanations acc) = Raises e ∧
       e ≠ AsyncioTimeoutError ∧
       ((∀ d, finishes_after (synthesis (generate_audio text
                  (tts.audio_path AUDIO_DIR (tts.audio_name job_id (i + k))) voice_speed))
              = Some d → (60 <= d)%Q) →
        e = TimeoutError ("Audio generation for step " +:+ py_str (Z.of_nat (i + k) + 1)) 60) ∧
       written (tts.audio_loop AUDIO_DIR generate_audio percent_of clock total_steps job_id
             voice_speed tracker i explanations acc)
       = imap (λ n _, tts.audio_name job_id (i + n)) (take k explanations)
         ++ (if leaves_file (generate_audio text
                  (tts.audio_path AUDIO_DIR (tts.audio_name job_id (i + k))) voice_speed)
             then [tts.audio_name job_id (i + k)] else []) ∧
       (tracker = true →
        reported (tts.audio_loop AUDIO_DIR generate_audio percent_of clock total_steps job_id
             voice_speed tracker i explanations acc)
        = imap (λ n _, Some (Z.of_nat (i + n) + 1)) (take (S k) explanations)).
Proof.
  revert i acc k. induction explanations as [|t0 rest IH]; intros i acc k Hk Hbefore Hnot;
    [done|].
  destruct k as [|k].
  - injection Hk as ->. rewrite Nat.add_0_r in *.
    destruct (with_timeout_not_in_time i text Hnot) as (e & He & Hne & Hlate).
    exists e. cbn [tts.audio_loop]. rewrite He. cbn [outcome].
    split; [done|]. split; [done|]. split; [done|]. split.
    + rewrite written_app_report by apply report_progress.
      unfold written. cbn. by destruct (leaves_file _).
    + intros ->. unfold reported. cbn [effects]. rewrite omap_app. cbn.
      rewrite Nat.add_0_r.
      replace (omap _ (if leaves_file _ then _ else _)) with (@nil (option Z));
        [done|by destruct (leaves_file _)].
  - cbn [tts.audio_loop].
    rewrite (with_timeout_in_time i t0)
      by (specialize (Hbefore 0%nat t0 ltac:(lia) eq_refl);
          by rewrite Nat.add_0_r in Hbefore).
    destruct (IH (S i) (acc ++ [tts.audio_path AUDIO_DIR (tts.audio_name job_id i)]) k Hk)
      as (e & H1 & Hne & Hlate & H2 & H3).
    { intros n t Hn Ht. replace (S i + n)%nat with (i + S n)%nat by lia.
      apply Hbefore; [lia|done]. }
    { by replace (S i + k)%nat with (i + S k)%nat by lia. }
    replace (S i + k)%nat with (i + S k)%nat in * by lia.
    exists e. cbn [outcome]. split; [done|]. split; [done|]. split; [done|]. split.
    + rewrite written_app_report by apply report_progress.
      rewrite written_write, H2. cbn [take imap app]. rewrite Nat.add_0_r. f_equal. f_equal.
      apply imap_ext. intros n ? _. cbn. by rewrite Nat.add_succ_r.
    + intros ->. cbn [app]. rewrite reported_progress, reported_write, H3 by done.
      cbn [take imap]. rewrite Nat.add_0_r. f_equal.
      apply imap_ext. intros n ? _. cbn. by rewrite Nat.add_succ_r.
Qed.

End audio.

(** X12: when the synthesis of every step ends within its minute,
    [generate_all_audio] returns one path for each explanation, in order,
    the path of step [i] being [AUDIO_DIR/{job_id}_step_{i}.mp3]; it has
    saved exactly these files, and a tracker has seen the steps 1 to n
    and, last, the step n of the closing report.  With no explanations
    the result is the empty list. *)
Theorem generate_all_audio_success AUDIO_DIR generate_audio percent_of clock
    explanations job_id voice_speed tracker :
  (∀ i text, explanations !! i = Some text →
             in_time AUDIO_DIR generate_audio job_id voice_speed i text) →
  let r := tts.generate_all_audio AUDIO_DIR generate_audio percent_of clock
             explanations job_id voice_speed tracker in
  outcome r = Returns (imap (λ i _, tts.audio_path AUDIO_DIR (tts.audio_name job_id i))
                            explanations) ∧
  written r = imap (λ i _, tts.audio_name job_id i) explanations ∧
  (tracker = true →
   reported r = imap (λ i _, Some (Z.of_nat i + 1)) explanations
                ++ [Some (Z.of_nat (length explanations))]).
Proof.
  intros H. apply (audio_loop_success AUDIO_DIR generate_audio percent_of clock
                     (length explanations) job_id voice_speed tracker explanations 0 []).
  exact H.
Qed.

(** X13: the first step whose synthesis does not end in time with its
    file ends [generate_all_audio]: the error is raised (the
    [TimeoutError] of the step when its minute ran out), no later step is
    attempted, and the files of the steps before stay in the audio
    directory. *)
Theorem generate_all_audio_first_failure AUDIO_DIR generate_audio percent_of clock
    explanations job_id voice_speed tracker k text :
  explanations !! k = Some text →
  (∀ n t, (n < k)%nat → explanations !! n = Some t →
          in_time AUDIO_DIR generate_audio job_id voice_speed n t) →
  ¬ in_time AUDIO_DIR generate_audio job_id voice_speed k text →
  let r := tts.generate_all_audio AUDIO_DIR generate_audio percent_of clock
             explanations job_id voice_speed tracker in
  let call := generate_audio text (tts.audio_path AUDIO_DIR (tts.audio_name job_id k))
                voice_speed in
  ∃ e, outcome r = Raises e ∧ e ≠ AsyncioTimeoutError ∧
       ((∀ d, finishes_after (synthesis call) = Some d → (60 <= d)%Q) →
        e = TimeoutError ("Audio generation for step " +:+ py_str (Z.of_nat k + 1)) 60) ∧
       written r = imap (λ n _, tts.audio_name job_id n) (take k explanations)
                   ++ (if leaves_file call then [tts.audio_name job_id k] else []) ∧
       (tracker = true →
        reported r = imap (λ n _, Some (Z.of_nat n + 1)) (take (S k) explanations)).
Proof.
  intros Hk Hbefore Hnot.
  exact (audio_loop_failure AUDIO_DIR generate_audio percent_of clock
           (length explanations) job_id voice_speed tracker explanations 0 [] k text
           Hk Hbefore Hnot).
Qed.

Lemma generate_all_audio_success_witness :
  let r := tts.generate_all_audio "/audio" quick_service (λ _ _, 0) (λ _, "t")
             ["one"; "two"] "job-1" 1 true in
  outcome r = Returns (imap (λ i _, tts.audio_path "/audio" (tts.audio_name "job-1" i))
                            ["one"; "two"]) ∧
  written r = imap (λ i _, tts.audio_name "job-1" i) ["one"; "two"] ∧
  (true = true →
   reported r = imap (λ i _, Some (Z.of_nat i + 1)) ["one"; "two"]
                ++ [Some (Z.of_nat (length ["one"; "two"]))]).
Proof.
  apply (generate_all_audio_success "/audio" quick_service (λ _ _, 0) (λ _, "t")
           ["one"; "two"] "job-1" 1 true).
  intros i text _. exists 2%Q. split; [reflexivity|]. split; reflexivity.
Defined.

Lemma generate_all_audio_first_failure_witness :
  let r := tts.generate_all_audio "/audio" stalling_service (λ _ _, 0) (λ _, "t")
             ["one"; "slow"; "three"] "job-1" 1 true in
  let call := stalling_service "slow" (tts.audio_path "/audio" (tts.audio_name "job-1" 1)) 1 in
  ∃ e, outcome r = Raises e ∧ e ≠ AsyncioTimeoutError ∧
       ((∀ d, finishes_after (synthesis call) = Some d → (60 <= d)%Q) →
        e = TimeoutError ("Audio generation for step " +:+ py_str (Z.of_nat 1 + 1)) 60) ∧
       written r = imap (λ n _, tts.audio_name "job-1" n) (take 1 ["one"; "slow"; "three"])
                   ++ (if leaves_file call then [tts.audio_name "job-1" 1] else []) ∧
       (true = true →
        reported r = imap (λ n _, Some (Z.of_nat n + 1)) (take 2 ["one"; "slow"; "three"])).
Proof.
  apply (generate_all_audio_first_failure "/audio" stalling_service (λ _ _, 0) (λ _, "t")
           ["one"; "slow"; "three"] "job-1" 1 true 1 "slow").
  - reflexivity.
  - intros n t Hn Ht. assert (n = 0%nat) as -> by lia. injection Ht as <-.
    exists 2%Q. split; [reflexivity|]. split; reflexivity.
  - intros (d & Hd & _). discriminate Hd.
Defined.

(** ** The pipeline: a run that succeeds, and the files of a run *)

Lemma apply_effects_app job_id es1 es2 st :
  apply_effects job_id (es1 ++ es2) st = apply_effects job_id es2 (apply_effects job_id es1 st).
Proof. unfold apply_effects. apply foldl_app. Qed.

Lemma apply_effect_server job_id e st :
  let st' := apply_effect job_id e st in
  jobs st'.2 = jobs st.2 ∧
  audio_dir st'.2 = list_to_set (audio_written [e]) ∪ audio_dir st.2 ∧
  output_dir st.2 ⊆ output_dir st'.2 ∧
  (is_Some (_jobs (sse_manager st.2) !! job_id) →
   is_Some (_jobs (sse_manager st'.2) !! job_id)).
Proof.
  destruct st as [j srv]. destruct e; cbn.
  - split; [done|]. split; [by rewrite (left_id_L ∅ (∪))|]. split; [done|done].
  - split; [done|]. split; [by rewrite (left_id_L ∅ (∪))|]. split; [done|].
    intros _. rewrite jobs_broadcast. by eexists.
  - split; [done|]. split; [by rewrite (right_id_L ∅ (∪))|]. split; [done|done].
  - split; [done|]. split; [by rewrite (left_id_L ∅ (∪))|].
    split; [apply union_subseteq_r|done].
Qed.

Lemma apply_effects_server job_id es st :
  let st' := apply_effects job_id es st in
  jobs st'.2 = jobs st.2 ∧
  audio_dir st'.2 = list_to_set (audio_written es) ∪ audio_dir st.2 ∧
  output_dir st.2 ⊆ output_dir st'.2 ∧
  (is_Some (_jobs (sse_manager st.2) !! job_id) →
   is_Some (_jobs (sse_manager st'.2) !! job_id)).
Proof.
  revert st. induction es as [|e es IH]; intros st.
  - cbn. split; [done|]. split; [by rewrite (left_id_L ∅ (∪))|]. done.
  - change (apply_effects job_id (e :: es) st)
      with (apply_effects job_id es (apply_effect job_id e st)).
    destruct (apply_effect_server job_id e st) as (H1 & H2 & H3 & H4).
    destruct (IH (apply_effect job_id e st)) as (G1 & G2 & G3 & G4).
    cbv zeta. rewrite G1, G2, H1, H2. split; [done|]. split.
    + change (e :: es) with ([e] ++ es). unfold audio_written. rewrite omap_app.
      rewrite list_to_set_app_L, (assoc_L (∪)). f_equal. apply (comm_L (∪)).
    + split; [by etrans|auto].
Qed.

Lemma apply_effects_job job_id es st p :
  progress st.1 = Some p →
  let j' := (apply_effects job_id es st).1 in
  status j' = status st.1 ∧ error j' = error st.1 ∧
  startedAt j' = startedAt st.1 ∧ completedAt j' = completedAt st.1 ∧
  ∃ p', progress j' = Some p' ∧ totalSteps p' = totalSteps p ∧
        phaseStartedAt p' = phaseStartedAt p.
Proof.
  revert st p. induction es as [|e es IH]; intros st p Hp.
  - cbn. repeat (split; [done|]). by exists p.
  - change (apply_effects job_id (e :: es) st)
      with (apply_effects job_id es (apply_effect job_id e st)).
    assert (status (apply_effect job_id e st).1 = status st.1 ∧
            error (apply_effect job_id e st).1 = error st.1 ∧
            startedAt (apply_effect job_id e st).1 = startedAt st.1 ∧
            completedAt (apply_effect job_id e st).1 = completedAt st.1 ∧
            ∃ p1, progress (apply_effect job_id e st).1 = Some p1 ∧
                  totalSteps p1 = totalSteps p ∧ phaseStartedAt p1 = phaseStartedAt p)
      as (H1 & H2 & H3 & H4 & p1 & Hp1 & Ht & Hs).
    { destruct st as [j srv].
      destruct e as [percent action step_ file now|ty data now|name|name]; cbn in *;
        try (repeat (split; [done|]); by exists p).
      destruct (update_progress_fields percent action step_ file now j)
        as (U1 & _ & U3 & U4 & U5 & U6).
      destruct (U6 p Hp) as (p1 & Hp1 & Ht & Hs & _).
      repeat (split; [done|]). by exists p1. }
    destruct (IH _ p1 Hp1) as (G1 & G2 & G3 & G4 & p' & Hp' & Gt & Gs).
    cbv zeta. rewrite G1, G2, G3, G4, H1, H2, H3, H4. repeat (split; [done|]).
    exists p'. split; [done|]. by rewrite Gt, Gs.
Qed.

Lemma complete_phase_fields now j :
  status (complete_phase now j) = status j ∧ error (complete_phase now j) = error j ∧
  startedAt (complete_phase now j) = startedAt j ∧
  completedAt (complete_phase now j) = completedAt j.
Proof. unfold complete_phase. by destruct (progress j). Qed.

(** The bus after [complete_job] for a job it knows. *)
Lemma completed_bus job_id now m :
  is_Some (_jobs m !! job_id) →
  let m' := complete_job job_id now m in
  ∃ b pre n t,
    job_buffer job_id m' = Some b ∧ is_complete b = true ∧
    lines b = pre ++ [mkLine (py_str n) STATUS "completed" now] ∧
    event_counter b = n ∧
    _cleanup_tasks m' !! job_id = Some t ∧ tasks m' !! t = Some (mkTask job_id Pending).
Proof.
  intros [a Hj] m'.
  destruct (tasks_complete_job job_id now m a Hj) as [Hc Ht]. fold m' in Hc, Ht.
  destruct (py_last_keeps_suffix MAX_BUFFER_LINES (lines (buffer_at m a))
              [mkLine (py_str (event_counter (buffer_at m a) + 1)) STATUS "completed" now])
    as [pre Hpre]; [simpl; unfold MAX_BUFFER_LINES; lia|].
  exists (buffer_at m' a), pre, (event_counter (buffer_at m a) + 1), (fresh (dom (tasks m))).
  split.
  { apply job_buffer_at; [unfold m'; by rewrite jobs_complete_job|].
    by apply buffers_complete_job_some. }
  unfold m'. rewrite (buffer_at_complete_job job_id now m a a Hj), decide_True by done.
  fold m'. simpl. split; [done|]. split; [by rewrite trim_py_last|].
  split; [done|]. split.
  - rewrite Hc. apply lookup_insert_eq.
  - rewrite Ht. apply lookup_insert_eq.
Qed.

Lemma process_job_body_completed job_id clock co j srv c fs v :
  outcome (generate_tutorial_content co) = Returns c →
  outcome (generate_all_audio co c) = Returns fs →
  outcome (render_video co c fs) = Returns v →
  status (process_job_body job_id clock co (j, srv)).1 = COMPLETED ∧
  videoPath (process_job_body job_id clock co (j, srv)).1 = Some v.
Proof.
  intros H1 H2 H3. unfold process_job_body. rewrite H1, H2, H3. cbv zeta.
  cbn [on_job on_sse fst snd].
  split.
  - by rewrite (proj1 (complete_phase_fields _ _)).
  - by rewrite videoPath_complete_phase.
Qed.

(** X14: a run of [process_job] in which the three stages return.  The
    job ends [COMPLETED] with the content, the audio paths and the video
    path the stages returned, the start and the end time stamped, the
    last phase at 100 percent, and its error field as it was.  No audio
    file of the job is left, the audio files of other jobs are kept, and
    the bus has completed the job: the last line of its buffer is the
    status event [completed] and the teardown is pending. *)
Theorem process_job_success job_id clock co j srv c fs v :
  outcome (generate_tutorial_content co) = Returns c →
  outcome (generate_all_audio co c) = Returns fs →
  outcome (render_video co c fs) = Returns v →
  let st' := process_job_body job_id clock co (j, srv) in
  status st'.1 = COMPLETED ∧ results st'.1 = (Some c, Some fs, Some v) ∧
  startedAt st'.1 = Some (clock 0%nat) ∧ completedAt st'.1 = Some (clock 9%nat) ∧
  error st'.1 = error j ∧
  (∃ p, progress st'.1 = Some p ∧ subProgress p = 100%Q ∧ totalSteps p = None ∧
        phaseStartedAt p = clock 7%nat) ∧
  jobs st'.2 = jobs srv ∧
  (∀ name, name ∈ audio_dir st'.2 → starts_with (job_id +:+ "_") name = false) ∧
  (∀ name, name ∈ audio_dir srv → starts_with (job_id +:+ "_") name = false →
           name ∈ audio_dir st'.2) ∧
  ∃ b pre n t,
    job_buffer job_id (sse_manager st'.2) = Some b ∧ is_complete b = true ∧
    lines b = pre ++ [mkLine (py_str n) STATUS "completed" (clock 11%nat)] ∧
    event_counter b = n ∧
    _cleanup_tasks (sse_manager st'.2) !! job_id = Some t ∧
    tasks (sse_manager st'.2) !! t = Some (mkTask job_id Pending).
Proof.
  intros H1 H2 H3. unfold process_job_body. rewrite H1, H2, H3. cbv zeta.
  set (st0 := on_sse (broadcast job_id STATUS "generating_content" (clock 2%nat))
                (on_job (start_phase GENERATING_CONTENT None (clock 1%nat))
                   (on_job (set_startedAt (Some (clock 0%nat))) (j, srv)))).
  set (st1 := apply_effects job_id (effects (generate_tutorial_content co)) st0).
  set (st2 := on_sse (broadcast job_id STATUS "generating_audio" (clock 5%nat))
                (on_job (start_phase GENERATING_AUDIO (Some (Z.of_nat (length (steps c))))
                           (clock 4%nat))
                   (on_job (complete_phase (clock 3%nat)) (on_job (set_content (Some c)) st1)))).
  set (st3 := apply_effects job_id (effects (generate_all_audio co c)) st2).
  set (st4 := on_sse (broadcast job_id STATUS "rendering" (clock 8%nat))
                (on_job (start_phase RENDERING None (clock 7%nat))
                   (on_job (complete_phase (clock 6%nat))
                      (on_job (set_audioFiles (Some fs)) st3)))).
  set (st5 := apply_effects job_id (effects (render_video co c fs)) st4).
  (* the job *)
  assert (∃ p0, progress st0.1 = Some p0) as [p0 Hp0] by (by eexists).
  destruct (apply_effects_job job_id (effects (generate_tutorial_content co)) st0 p0 Hp0)
    as (A1 & A2 & A3 & A4 & _). fold st1 in A1, A2, A3, A4.
  assert (∃ p2, progress st2.1 = Some p2) as [p2 Hp2] by (by eexists).
  destruct (apply_effects_job job_id (effects (generate_all_audio co c)) st2 p2 Hp2)
    as (B1 & B2 & B3 & B4 & _). fold st3 in B1, B2, B3, B4.
  assert (∃ p4, progress st4.1 = Some p4 ∧ totalSteps p4 = None ∧
                phaseStartedAt p4 = clock 7%nat) as (p4 & Hp4 & Ht4 & Hs4).
  { eexists. split; [done|]. done. }
  destruct (apply_effects_job job_id (effects (render_video co c fs)) st4 p4 Hp4)
    as (C1 & C2 & C3 & C4 & p5 & Hp5 & Ht5 & Hs5). fold st5 in C1, C2, C3, C4, Hp5.
  (* the server *)
  destruct (apply_effects_server job_id (effects (generate_tutorial_content co)) st0)
    as (S1 & D1 & _ & _). fold st1 in S1, D1.
  destruct (apply_effects_server job_id (effects (generate_all_audio co c)) st2)
    as (S3 & D3 & _ & _). fold st3 in S3, D3.
  destruct (apply_effects_server job_id (effects (render_video co c fs)) st4)
    as (S5 & D5 & _ & R5). fold st5 in S5, D5, R5.
  destruct (complete_phase_fields (clock 3%nat) (set_content (Some c) st1.1))
    as (_ & E1 & T1 & _).
  destruct (complete_phase_fields (clock 6%nat) (set_audioFiles (Some fs) st3.1))
    as (_ & E3 & T3 & _).
  assert (results st5.1 = (Some c, Some fs, videoPath j)) as K.
  { unfold st5, st4, st3, st2, st1, st0, results.
    repeat (cbn [fst snd on_job on_sse content audioFiles videoPath set_content
                 set_audioFiles set_videoPath set_status set_startedAt
                 set_completedAt set_progress start_phase log];
            rewrite ?content_complete_phase, ?audioFiles_complete_phase,
              ?videoPath_complete_phase, ?content_apply_effects,
              ?audioFiles_apply_effects, ?videoPath_apply_effects).
    done. }
  assert (error st5.1 = error j ∧ startedAt st5.1 = Some (clock 0%nat)) as [KE KS].
  { rewrite C2, C3. unfold st4. cbn [fst snd on_job on_sse error startedAt set_status
      set_progress start_phase log]. rewrite E3, T3.
    cbn [error startedAt set_audioFiles]. rewrite B2, B3.
    unfold st2. cbn [fst snd on_job on_sse error startedAt set_status
      set_progress start_phase log]. rewrite E1, T1.
    cbn [error startedAt set_content]. rewrite A2, A3. done. }
  cbn [on_job on_sse fst snd].
  set (J := set_completedAt (Some (clock 9%nat))
              (set_status COMPLETED (set_videoPath (Some v) st5.1))).
  destruct (complete_phase_fields (clock 10%nat) J) as (F1 & F2 & F3 & F4).
  rewrite F1, F2, F3, F4, results_complete_phase.
  split; [done|]. split.
  { unfold results in *. cbn. by injection K as -> -> _. }
  split; [exact KS|]. split; [done|]. split; [exact KE|]. split.
  { unfold complete_phase. cbn [progress J set_completedAt set_status set_videoPath].
    rewrite Hp5. unfold log. cbn. eexists. split; [done|]. cbn.
    by rewrite Ht5, Hs5, Ht4, Hs4. }
  cbn [jobs audio_dir sse_manager cleanup_audio].
  split.
  { rewrite S5. unfold st4. cbn [snd on_job on_sse jobs]. rewrite S3.
    unfold st2. cbn [snd on_job on_sse jobs]. by rewrite S1. }
  split.
  { intros name Hn. apply elem_of_filter in Hn. by destruct Hn. }
  split.
  { intros name Hn Hpre. apply elem_of_filter. split; [done|].
    rewrite D5. unfold st4. cbn [snd on_job on_sse audio_dir]. rewrite D3.
    unfold st2. cbn [snd on_job on_sse audio_dir]. rewrite D1.
    unfold st0. cbn [snd on_job on_sse audio_dir].
    rewrite !elem_of_union. by repeat right. }
  apply completed_bus. apply R5. unfold st4. cbn [snd on_job on_sse sse_manager].
  rewrite jobs_broadcast. by eexists.
Qed.

Lemma process_job_success_witness :
  status (process_job_body "job-1" (λ n, py_str (Z.of_nat n)) all_return
            (new_job "job-1" "sorting" "python" BEGINNER 1 "t0", demo_server)).1 = COMPLETED.
Proof.
  refine (proj1 (process_job_success "job-1" _ all_return _ demo_server
                   (mkContent "T" [mkStep "c" "e" "python"])
                   ["/audio/job-1_step_0.mp3"] "/output/job-1.mp4" _ _ _));
    reflexivity.
Defined.

Lemma on_failure_server job_id clock e st :
  jobs (on_failure job_id clock e st).2 = jobs st.2 ∧
  audio_dir (on_failure job_id clock e st).2 = audio_dir st.2 ∧
  output_dir (on_failure job_id clock e st).2 = output_dir st.2.
Proof. done. Qed.

Lemma starts_with_app p s : starts_with p (p +:+ s) = true.
Proof.
  induction p as [|a p IH]; [done|].
  change (String a p +:+ s) with (String a (p +:+ s)). cbn [starts_with].
  by rewrite Ascii.eqb_refl.
Qed.

Lemma string_app_assoc (a b c : string) : (a +:+ b) +:+ c = a +:+ (b +:+ c).
Proof.
  induction a as [|x a IH]; [done|].
  change (String x ((a +:+ b) +:+ c) = String x (a +:+ b +:+ c)). by rewrite IH.
Qed.

Lemma starts_with_audio_name job_id i :
  starts_with (job_id +:+ "_") (tts.audio_name job_id i) = true.
Proof.
  unfold tts.audio_name.
  change ("_step_" +:+ py_str (Z.of_nat i) +:+ ".mp3")
    with ("_" +:+ ("step_" +:+ py_str (Z.of_nat i) +:+ ".mp3")).
  rewrite <- string_app_assoc. apply starts_with_app.
Qed.

(** X15: a run of [process_job] that fails in the audio stage or in the
    rendering removes no audio file: the files that were in the audio
    directory and the files the audio stage has written are all still
    there after the run.  They go when the job is deleted, as far as
    their names begin with the id of the job and an underscore. *)
Theorem failed_run_keeps_audio_files job_id clock co j srv c e :
  jobs srv !! job_id = Some j →
  outcome (generate_tutorial_content co) = Returns c →
  first_failure co = Some e →
  let srv' := process_job job_id clock co srv in
  (∀ name, name ∈ audio_dir srv ∨
           name ∈ audio_written (effects (generate_all_audio co c)) →
           name ∈ audio_dir srv') ∧
  ∀ name, name ∈ audio_dir (delete_job job_id srv').1 ↔
          name ∈ audio_dir srv' ∧ starts_with (job_id +:+ "_") name = false.
Proof.
  intros Hj H1 Hf srv'. split.
  - intros name Hn. unfold srv', process_job. rewrite Hj.
    unfold first_failure in Hf. rewrite H1 in Hf.
    unfold process_job_body. rewrite H1. cbv zeta.
    set (st0 := on_sse (broadcast job_id STATUS "generating_content" (clock 2%nat))
                  (on_job (start_phase GENERATING_CONTENT None (clock 1%nat))
                     (on_job (set_startedAt (Some (clock 0%nat))) (j, srv)))).
    set (st1 := apply_effects job_id (effects (generate_tutorial_content co)) st0).
    set (st2 := on_sse (broadcast job_id STATUS "generating_audio" (clock 5%nat))
                  (on_job (start_phase GENERATING_AUDIO (Some (Z.of_nat (length (steps c))))
                             (clock 4%nat))
                     (on_job (complete_phase (clock 3%nat))
                        (on_job (set_content (Some c)) st1)))).
    set (st3 := apply_effects job_id (effects (generate_all_audio co c)) st2).
    destruct (apply_effects_server job_id (effects (generate_tutorial_content co)) st0)
      as (_ & D1 & _ & _). fold st1 in D1.
    destruct (apply_effects_server job_id (effects (generate_all_audio co c)) st2)
      as (_ & D3 & _ & _). fold st3 in D3.
    assert (name ∈ audio_dir st3.2) as Hn3.
    { rewrite D3. unfold st2. cbn [snd on_job on_sse audio_dir]. rewrite D1.
      unfold st0. cbn [snd on_job on_sse audio_dir]. rewrite !elem_of_union.
      destruct Hn as [Hn|Hn]; [by repeat right|left]. by apply elem_of_list_to_set. }
    destruct (outcome (generate_all_audio co c)) as [fs|e2].
    + destruct (outcome (render_video co c fs)) as [v|e3]; [done|].
      set (st4 := on_sse (broadcast job_id STATUS "rendering" (clock 8%nat))
                    (on_job (start_phase RENDERING None (clock 7%nat))
                       (on_job (complete_phase (clock 6%nat))
                          (on_job (set_audioFiles (Some fs)) st3)))).
      destruct (apply_effects_server job_id (effects (render_video co c fs)) st4)
        as (_ & D5 & _ & _).
      destruct (on_failure job_id clock e3 _) as [j' s'] eqn:Hof.
      pose proof (on_failure_server job_id clock e3
                    (apply_effects job_id (effects (render_video co c fs)) st4)) as (_ & Ha & _).
      rewrite Hof in Ha. cbn [snd audio_dir] in *. rewrite Ha, D5.
      apply elem_of_union. right. exact Hn3.
    + destruct (on_failure job_id clock e2 st3) as [j' s'] eqn:Hof.
      pose proof (on_failure_server job_id clock e2 st3) as (_ & Ha & _).
      rewrite Hof in Ha. cbn [snd audio_dir] in *. by rewrite Ha.
  - intros name. unfold delete_job.
    assert (is_Some (jobs srv' !! job_id)) as [j' Hj'].
    { unfold srv', process_job. rewrite Hj. destruct (process_job_body _ _ _ _).
      cbn. rewrite lookup_insert_eq. by eexists. }
    rewrite Hj'. cbn [fst audio_dir].
    apply (audio_dir_cleanup_audio job_id (delete_video job_id srv')).
Qed.

Lemma failed_run_keeps_audio_files_witness :
  "job-1_step_0.mp3" ∈ audio_dir (process_job "job-1" (λ n, py_str (Z.of_nat n))
                                    second_step_stalls demo_server).
Proof.
  refine (proj1 (failed_run_keeps_audio_files "job-1" (λ n, py_str (Z.of_nat n))
                   second_step_stalls (new_job "job-1" "sorting" "python" BEGINNER 1 "t0")
                   demo_server
                   (mkContent "T" [mkStep "c0" "one" "python"; mkStep "c1" "slow" "python";
                                   mkStep "c2" "three" "python"])
                   (TimeoutError "Audio generation for step 2" 60) _ _ _)
            "job-1_step_0.mp3" _).
  - reflexivity.
  - reflexivity.
  - reflexivity.
  - right. vm_compute. left.
Defined.

(** X16: a step of the speech synthesis that exceeds its minute, seen
    from the job.  When the content was generated, the steps before step
    [k] were synthesised in time and step [k] is not done after 60
    seconds, the job ends in [ERROR], its error names the step, counted
    from 1, and the deadline, no audio paths are recorded in the job, and
    the audio files of the steps before are left in the audio
    directory. *)
Theorem stalled_step_reported AUDIO_DIR generate_audio percent_of ticks
    job_id clock co j srv c k text :
  outcome (generate_tutorial_content co) = Returns c →
  generate_all_audio co
  = audio_stage AUDIO_DIR generate_audio percent_of ticks job_id (voiceSpeed j) →
  (explanation <$> steps c) !! k = Some text →
  (∀ n t, (n < k)%nat → (explanation <$> steps c) !! n = Some t →
          in_time AUDIO_DIR generate_audio job_id (speed_or_default (voiceSpeed j)) n t) →
  (∀ d, finishes_after
          (synthesis (generate_audio text
                        (tts.audio_path AUDIO_DIR (tts.audio_name job_id k))
                        (speed_or_default (voiceSpeed j)))) = Some d → (60 <= d)%Q) →
  let st' := process_job_body job_id clock co (j, srv) in
  status st'.1 = ERROR ∧
  error st'.1
  = Some ("Operation " +:+ dquote +:+ "Audio generation for step "
            +:+ py_str (Z.of_nat k + 1) +:+ dquote +:+ " timed out after 60 seconds") ∧
  audioFiles st'.1 = audioFiles j ∧
  ∀ n, (n < k)%nat → tts.audio_name job_id n ∈ audio_dir st'.2.
Proof.
  intros H1 Hco Hk Hbefore Hlate.
  destruct (audio_loop_failure AUDIO_DIR generate_audio percent_of ticks
              (length (explanation <$> steps c)) job_id (speed_or_default (voiceSpeed j))
              true (explanation <$> steps c) 0 [] k text Hk Hbefore)
    as (e & He & _ & Hto & Hw & _).
  { intros (d & Hd & Hlt & _). apply (Qlt_not_le _ _ Hlt). by apply Hlate. }
  specialize (Hto Hlate). subst e.
  change (tts.audio_loop AUDIO_DIR generate_audio percent_of ticks
            (length (explanation <$> steps c)) job_id (speed_or_default (voiceSpeed j))
            true 0 (explanation <$> steps c) [])
    with (audio_stage AUDIO_DIR generate_audio percent_of ticks job_id (voiceSpeed j) c)
    in He, Hw.
  rewrite <- Hco in He, Hw.
  unfold process_job_body. rewrite H1. cbv zeta. rewrite He.
  set (st0 := on_sse (broadcast job_id STATUS "generating_content" (clock 2%nat))
                (on_job (start_phase GENERATING_CONTENT None (clock 1%nat))
                   (on_job (set_startedAt (Some (clock 0%nat))) (j, srv)))).
  set (st1 := apply_effects job_id (effects (generate_tutorial_content co)) st0).
  set (st2 := on_sse (broadcast job_id STATUS "generating_audio" (clock 5%nat))
                (on_job (start_phase GENERATING_AUDIO (Some (Z.of_nat (length (steps c))))
                           (clock 4%nat))
                   (on_job (complete_phase (clock 3%nat))
                      (on_job (set_content (Some c)) st1)))).
  set (st3 := apply_effects job_id (effects (generate_all_audio co c)) st2).
  destruct (on_failure_spec job_id clock
              (TimeoutError ("Audio generation for step " +:+ py_str (Z.of_nat (0 + k) + 1)) 60)
              st3) as (F1 & F2 & _ & F4 & _).
  destruct (on_failure_server job_id clock
              (TimeoutError ("Audio generation for step " +:+ py_str (Z.of_nat (0 + k) + 1)) 60)
              st3) as (_ & Fa & _).
  split; [exact F1|]. split; [rewrite F2; reflexivity|]. split.
  { apply (f_equal (λ r, r.1.2)) in F4. cbn [fst snd results] in F4. rewrite F4.
    unfold st3. rewrite audioFiles_apply_effects. unfold st2.
    cbn [fst on_job on_sse audioFiles set_progress set_status start_phase log].
    rewrite audioFiles_complete_phase. cbn [audioFiles set_content].
    unfold st1. rewrite audioFiles_apply_effects. done. }
  intros n Hn. rewrite Fa.
  destruct (apply_effects_server job_id (effects (generate_all_audio co c)) st2)
    as (_ & D3 & _ & _). fold st3 in D3. rewrite D3.
  apply elem_of_union. left. apply elem_of_list_to_set.
  change (audio_written (effects (generate_all_audio co c)))
    with (written (generate_all_audio co c)).
  rewrite Hw. apply elem_of_app. left.
  apply list_elem_of_lookup. exists n. rewrite list_lookup_imap, lookup_take_lt by done.
  assert (is_Some ((explanation <$> steps c) !! n)) as [t ->]; [|done].
  apply lookup_lt_is_Some. apply lookup_lt_Some in Hk. lia.
Qed.

Lemma stalled_step_reported_witness :
  error (process_job_body "job-1" (λ n, py_str (Z.of_nat n)) second_step_stalls
           (new_job "job-1" "sorting" "python" BEGINNER 1 "t0", demo_server)).1
  = Some ("Operation " +:+ dquote +:+ "Audio generation for step "
            +:+ py_str (Z.of_nat 1 + 1) +:+ dquote +:+ " timed out after 60 seconds").
Proof.
  refine (proj1 (proj2 (stalled_step_reported "/audio" stalling_service (λ _ _, 0) (λ _, "t")
                   "job-1" (λ n, py_str (Z.of_nat n)) second_step_stalls
                   (new_job "job-1" "sorting" "python" BEGINNER 1 "t0") demo_server
                   (mkContent "T" [mkStep "c0" "one" "python"; mkStep "c1" "slow" "python";
                                   mkStep "c2" "three" "python"])
                   1 "slow" _ _ _ _ _))).
  - reflexivity.
  - reflexivity.
  - reflexivity.
  - intros n t Hn Ht. assert (n = 0%nat) as -> by lia. injection Ht as <-.
    exists 2%Q. split; [reflexivity|]. split; reflexivity.
  - intros d Hd. discriminate Hd.
Defined.

(** ** The endpoints *)

Lemma speed_or_default_nonzero v : ¬ (speed_or_default v == 0)%Q.
Proof.
  unfold speed_or_default. destruct v as [x|]; [|done].
  destruct (Qeq_bool x 0) eqn:E; [done|]. by apply Qeq_bool_neq.
Qed.

Lemma language_or_default_nonempty l : language_or_default l ≠ "".
Proof.
  unfold language_or_default. destruct l as [s|]; [|done].
  destruct s; [done|]. done.
Qed.

(** X17: [start_generation] refuses an empty prompt with status 400 and
    changes nothing; otherwise it stores a pending job under the new id,
    answers with the id, and hands the id to the background run.  The
    stored job has a language that is not empty and a voice speed that is
    not 0, whatever the request gave; it can be read back at once, no
    result is set, and the other jobs, the bus and the files are as
    before. *)
Theorem start_generation_stores request job_id now srv :
  let r := start_generation request job_id now srv in
  (req_prompt request = "" →
   r = (srv, Refused 400 "Prompt is required", None)) ∧
  (req_prompt request ≠ "" →
   r.1.2 = Body (job_id, PENDING) ∧ r.2 = Some job_id ∧
   (∃ job l v,
      get_job job_id r.1.1 = Body job ∧ job_ident job = job_id ∧ status job = PENDING ∧
      prompt job = req_prompt request ∧ createdAt job = now ∧
      language job = Some l ∧ l ≠ "" ∧
      (∀ s, req_language request = Some s → s ≠ "" → l = s) ∧
      voiceSpeed job = Some v ∧ ¬ (v == 0)%Q ∧
      (∀ x, req_voiceSpeed request = Some x → ¬ (x == 0)%Q → v = x) ∧
      results job = (None, None, None) ∧ error job = None ∧ progress job = None) ∧
   (∀ other, other ≠ job_id → get_job other r.1.1 = get_job other srv) ∧
   sse_manager r.1.1 = sse_manager srv ∧ audio_dir r.1.1 = audio_dir srv ∧
   output_dir r.1.1 = output_dir srv).
Proof.
  cbv zeta. unfold start_generation. split.
  - by intros ->.
  - intros Hne. destruct (req_prompt request) as [|a p] eqn:Hp; [done|]. cbn [str_truthy negb].
    cbn [fst snd]. split; [done|]. split; [done|]. split.
    + eexists _, _, _. unfold get_job. cbn [jobs]. rewrite lookup_insert_eq.
      split; [reflexivity|]. cbn.
      split; [done|]. split; [done|]. split; [done|]. split; [done|]. split; [done|].
      split; [apply language_or_default_nonempty|]. split.
      { intros s -> Hs. cbn. by destruct s. }
      split; [done|]. split; [apply speed_or_default_nonzero|]. split; [|done].
      intros x -> Hx. cbn. destruct (Qeq_bool x 0) eqn:E; [|done].
      by apply Qeq_bool_eq in E.
    + split; [|done]. intros other Ho. unfold get_job. cbn [jobs].
      by rewrite lookup_insert_ne.
Qed.

Lemma start_generation_stores_witness :
  (start_generation (mkRequest "sorting" (Some "") None (Some 0%Q)) "job-9" "t0" demo_server).2
  = Some "job-9".
Proof.
  refine (proj1 (proj2 (proj2 (start_generation_stores
            (mkRequest "sorting" (Some "") None (Some 0%Q)) "job-9" "t0" demo_server) _))).
  discriminate.
Defined.

Lemma starts_with_step_name job_id step :
  starts_with (job_id +:+ "_") (job_id +:+ "_step_" +:+ py_str step +:+ ".mp3") = true.
Proof.
  change ("_step_" +:+ py_str step +:+ ".mp3")
    with ("_" +:+ ("step_" +:+ py_str step +:+ ".mp3")).
  rewrite <- string_app_assoc. apply starts_with_app.
Qed.

(** X18: once a job is deleted, every endpoint that names it answers 404:
    the job, its video and its stream are not found, none of its audio
    steps is served, its video file is absent, and a second [delete_job]
    is refused and changes nothing.  The other jobs are read as
    before. *)
Theorem deleted_job_is_gone AUDIO_DIR OUTPUT_DIR job_id srv j last_event_id :
  jobs srv !! job_id = Some j →
  let srv' := (delete_job job_id srv).1 in
  get_job job_id srv' = Refused 404 "Job not found" ∧
  serve_video job_id srv' = Refused 404 "Video not found" ∧
  stream_job job_id last_event_id srv' = Refused 404 "Job not found" ∧
  (∀ step, serve_audio AUDIO_DIR job_id step srv' = Refused 404 "Audio not found") ∧
  get_video_path OUTPUT_DIR job_id srv' = None ∧
  delete_job job_id srv' = (srv', HTTPException 404 "Job not found") ∧
  ∀ other, other ≠ job_id → get_job other srv' = get_job other srv.
Proof.
  intros Hj srv'.
  assert (jobs srv' = delete job_id (jobs srv)) as Hjobs
    by (unfold srv', delete_job; by rewrite Hj).
  assert (jobs srv' !! job_id = None) as Hnone by (rewrite Hjobs; apply lookup_delete_eq).
  split; [unfold get_job; by rewrite Hnone|].
  split; [unfold serve_video; by rewrite Hnone|].
  split; [unfold stream_job; by rewrite Hnone|].
  split.
  { intros step. unfold serve_audio. rewrite bool_decide_eq_false_2; [done|].
    unfold srv', delete_job. rewrite Hj. cbn [fst audio_dir].
    intros Hin. apply (audio_dir_cleanup_audio job_id (delete_video job_id srv)) in Hin.
    destruct Hin as [_ Hin]. by rewrite starts_with_step_name in Hin. }
  split.
  { unfold get_video_path. rewrite bool_decide_eq_false_2; [done|].
    unfold srv', delete_job. rewrite Hj. cbn. rewrite elem_of_difference.
    intros [_ H]. apply H. by apply elem_of_singleton. }
  split; [unfold delete_job at 1; by rewrite Hnone|].
  intros other Ho. unfold get_job. by rewrite Hjobs, lookup_delete_ne.
Qed.

Lemma deleted_job_is_gone_witness :
  serve_audio "/audio" "job-1" 0 (delete_job "job-1" demo_server).1
  = Refused 404 "Audio not found".
Proof.
  refine (proj1 (proj2 (proj2 (proj2 (deleted_job_is_gone "/audio" "/output" "job-1" demo_server
            (new_job "job-1" "sorting" "python" BEGINNER 1 "t0") None _)))) 0).
  reflexivity.
Defined.

Lemma process_job_stores job_id clock co srv j :
  jobs srv !! job_id = Some j →
  jobs (process_job job_id clock co srv) !! job_id
  = Some (process_job_body job_id clock co (j, srv)).1.
Proof.
  intros Hj. unfold process_job. rewrite Hj.
  destruct (process_job_body job_id clock co (j, srv)). cbn. apply lookup_insert_eq.
Qed.

Lemma process_job_body_raises job_id clock co j srv e :
  first_failure co = Some e →
  status (process_job_body job_id clock co (j, srv)).1 = ERROR.
Proof.
  intros Hf. unfold first_failure in Hf. unfold process_job_body.
  destruct (outcome (generate_tutorial_content co)) as [c|e1];
    [destruct (outcome (generate_all_audio co c)) as [fs|e2];
      [destruct (outcome (render_video co c fs)) as [v|e3]; [done|]|]|];
    cbv zeta; apply on_failure_spec.
Qed.

Lemma first_failure_None co :
  first_failure co = None →
  ∃ c fs v, outcome (generate_tutorial_content co) = Returns c ∧
            outcome (generate_all_audio co c) = Returns fs ∧
            outcome (render_video co c fs) = Returns v.
Proof.
  unfold first_failure. intros Hf.
  destruct (outcome (generate_tutorial_content co)) as [c|]; [|done].
  destruct (outcome (generate_all_audio co c)) as [fs|] eqn:E2; [|done].
  destruct (outcome (render_video co c fs)) as [v|] eqn:E3; [|done].
  by exists c, fs, v.
Qed.

(** X19: the video of a job is served only when the job is [COMPLETED]
    and has a video path that is not empty.  So a job that has not run is
    answered 404, a job whose run failed is answered 404, and after a run
    in which every stage returned the answer carries the path that the
    rendering returned, under the file name [{job_id}.mp4]. *)
Theorem serve_video_after_run job_id clock co srv j :
  jobs srv !! job_id = Some j →
  (∀ x, serve_video job_id srv = Body x →
        status j = COMPLETED ∧ videoPath j = Some x.1 ∧ x.1 ≠ "" ∧ x.2 = job_id +:+ ".mp4") ∧
  (status j = PENDING → serve_video job_id srv = Refused 404 "Video not found") ∧
  let srv' := process_job job_id clock co srv in
  match first_failure co with
  | Some _ => serve_video job_id srv' = Refused 404 "Video not found"
  | None =>
      ∃ c fs v, outcome (generate_tutorial_content co) = Returns c ∧
                outcome (generate_all_audio co c) = Returns fs ∧
                outcome (render_video co c fs) = Returns v ∧
                serve_video job_id srv'
                = if str_truthy v then Body (v, job_id +:+ ".mp4")
                  else Refused 404 "Video not found"
  end.
Proof.
  intros Hj. split; [|split].
  - intros x. unfold serve_video. rewrite Hj.
    destruct (status j), (videoPath j) as [p|]; try done.
    destruct p as [|a p]; [done|]. by intros [= <-].
  - intros Hs. unfold serve_video. by rewrite Hj, Hs.
  - cbv zeta. unfold serve_video. rewrite (process_job_stores job_id clock co srv j Hj).
    destruct (first_failure co) as [e|] eqn:Hf.
    + by rewrite (process_job_body_raises job_id clock co j srv e Hf).
    + destruct (first_failure_None co Hf) as (c & fs & v & H1 & H2 & H3).
      exists c, fs, v. split; [done|]. split; [done|]. split; [done|].
      destruct (process_job_body_completed job_id clock co j srv c fs v H1 H2 H3)
        as (Hs & Hv).
      by rewrite Hs, Hv.
Qed.

Lemma serve_video_after_run_witness :
  serve_video "job-1"
    (process_job "job-1" (λ n, py_str (Z.of_nat n)) audio_times_out demo_server)
  = Refused 404 "Video not found".
Proof.
  exact (proj2 (proj2 (serve_video_after_run "job-1" (λ n, py_str (Z.of_nat n))
                         audio_times_out demo_server
                         (new_job "job-1" "sorting" "python" BEGINNER 1 "t0") eq_refl))).
Defined.

(** ** A stream opened after the teardown *)

Lemma step_subscribe_new s job last σ :
  generators σ !! s = None →
  step (ASubscribe s job last) σ
  = mkSystem (manager σ) (<[s := GNew job last]> (generators σ)) (received σ).
Proof. intros H. unfold step. by rewrite H. Qed.

Lemma idle_keeps_waiting s now a q n σ :
  generators σ !! s = Some (GWaiting a q) →
  subscribers (buffer_at (manager σ) a) !! q = Some [] →
  is_complete (buffer_at (manager σ) a) = false →
  let σ' := run (idle s now n) σ in
  manager σ' = manager σ ∧ generators σ' !! s = Some (GWaiting a q) ∧
  chunks_of s σ' = chunks_of s σ ++ replicate n Keepalive.
Proof.
  revert σ. induction n as [|n IH]; intros σ Hg Hq Hc.
  - cbn. by rewrite app_nil_r.
  - change (idle s now (S n)) with ([ATimeout s; AResume s now] ++ idle s now n).
    rewrite run_app. set (σ1 := run [ATimeout s; AResume s now] σ).
    assert (manager σ1 = manager σ ∧ generators σ1 !! s = Some (GWaiting a q) ∧
            chunks_of s σ1 = chunks_of s σ ++ [Keepalive]) as (Hm & Hg1 & Hr).
    { unfold σ1. cbn [run foldl].
      rewrite (step_timeout_idle s a q σ Hg Hq).
      rewrite (step_resume_loop s now a q) by apply lookup_insert_eq.
      cbn [manager generators received]. rewrite Hc. cbn [andb manager generators].
      split; [done|]. split; [apply lookup_insert_eq|apply chunks_of_yield]. }
    destruct (IH σ1 Hg1) as (H1 & H2 & H3); [by rewrite Hm|by rewrite Hm|].
    cbv zeta. rewrite H1, H2, H3, Hm, Hr. split; [done|]. split; [done|].
    by rewrite <- app_assoc.
Qed.

Lemma resume_new_unknown job last now m :
  _jobs m !! job = None →
  let a := fresh (dom (buffers m)) in
  let q := fresh (dom (subscribers new_buffer)) in
  ∃ m2, resume (GNew job last) now m
        = (GConnected last a q, m2,
           Yield (Event (mkLine "1" CONNECTED ("Connected to job " +:+ job) now))) ∧
        _jobs m2 !! job = Some a ∧
        buffer_at m2 a = mkBuffer [] 1 false {[q := []]}.
Proof.
  intros Hj a q. cbn [resume]. unfold _get_or_create_buffer. rewrite Hj. fold a.
  set (m1 := mkManager (<[job:=a]> (_jobs m)) (_cleanup_tasks m)
               (<[a:=new_buffer]> (buffers m)) (tasks m)).
  assert (buffer_at (cancel_pending job m1) a = new_buffer) as Hnb.
  { rewrite (buffer_at_buffers _ _ _ (buffers_cancel_pending _ _)).
    unfold buffer_at, m1. cbn. by rewrite lookup_insert_eq. }
  rewrite Hnb. fold q. eexists. split; [reflexivity|]. split.
  - unfold set_buffer, cancel_pending. cbn [_jobs].
    destruct (_cleanup_tasks m1 !! job); cbn; apply lookup_insert_eq.
  - by rewrite buffer_at_set_buffer, decide_True.
Qed.

Lemma step_resume s now g σ :
  generators σ !! s = Some g →
  step (AResume s now) σ
  = mkSystem (resume g now (manager σ)).1.2
             (<[s := (resume g now (manager σ)).1.1]> (generators σ))
             (record_outcome s (resume g now (manager σ)).2 (received σ)).
Proof.
  intros Hg. unfold step, on_generator. rewrite Hg.
  by destruct (resume g now (manager σ)) as [[g' m'] o].
Qed.

(** X20: a stream opened for a job the bus does not know, as it is once
    [cleanup] has discarded the buffer of a finished job.  The subscriber
    gets a new, empty buffer that is not complete: it receives the
    connected event with id 1, no history, and from then on, as long as
    nothing is broadcast, a keepalive every thirty seconds; its generator
    does not end. *)
Theorem stream_after_teardown_stays_open s job last now n σ :
  generators σ !! s = None →
  _jobs (manager σ) !! job = None →
  let σ' := run ([ASubscribe s job last; AResume s now; AResume s now] ++ idle s now n) σ in
  ∃ a q, generators σ' !! s = Some (GWaiting a q) ∧
         _jobs (manager σ') !! job = Some a ∧
         buffer_at (manager σ') a = mkBuffer [] 1 false {[q := []]} ∧
         chunks_of s σ'
         = chunks_of s σ
           ++ Event (mkLine "1" CONNECTED ("Connected to job " +:+ job) now)
              :: replicate n Keepalive.
Proof.
  intros Hg Hj. cbv zeta. rewrite run_app.
  set (σ1 := run [ASubscribe s job last; AResume s now; AResume s now] σ).
  set (a := fresh (dom (buffers (manager σ)))).
  set (q := fresh (dom (subscribers new_buffer))).
  assert (generators σ1 !! s = Some (GWaiting a q) ∧
          _jobs (manager σ1) !! job = Some a ∧
          buffer_at (manager σ1) a = mkBuffer [] 1 false {[q := []]} ∧
          chunks_of s σ1
          = chunks_of s σ ++ [Event (mkLine "1" CONNECTED ("Connected to job " +:+ job) now)])
    as (Hg1 & Hj1 & Hb1 & Hr1).
  { unfold σ1. cbn [run foldl]. rewrite (step_subscribe_new s job last σ Hg).
    destruct (resume_new_unknown job last now (manager σ) Hj) as (m2 & Hres & Hj2 & Hb2).
    fold a q in Hres, Hj2, Hb2.
    rewrite (step_resume s now (GNew job last)
               (mkSystem (manager σ) (<[s:=GNew job last]> (generators σ)) (received σ)))
      by apply lookup_insert_eq.
    cbn [manager generators received]. rewrite Hres. cbn [fst snd].
    rewrite (step_resume s now (GConnected last a q)) by apply lookup_insert_eq.
    cbn [manager generators received resume]. rewrite Hb2. cbn [lines fst snd].
    split; [apply lookup_insert_eq|]. split; [exact Hj2|]. split; [exact Hb2|].
    unfold chunks_of. cbn [received record_outcome]. by rewrite lookup_insert_eq. }
  destruct (idle_keeps_waiting s now a q n σ1 Hg1) as (Hm & Hg2 & Hr2).
  { rewrite Hb1. cbn. apply lookup_singleton_eq. }
  { by rewrite Hb1. }
  exists a, q. rewrite Hm, Hr2, Hr1, <- app_assoc. done.
Qed.

Lemma stream_after_teardown_stays_open_witness :
  let σ := run [ABroadcast "job-1" STDOUT "a" "t0"; ACompleteJob "job-1" "t1";
                AExpire 0%nat] initial in
  let σ' := run ([ASubscribe 0%nat "job-1" None; AResume 0%nat "t2"; AResume 0%nat "t2"]
                 ++ idle 0%nat "t2" 3) σ in
  ∃ a q, generators σ' !! 0%nat = Some (GWaiting a q) ∧
         _jobs (manager σ') !! "job-1" = Some a ∧
         buffer_at (manager σ') a = mkBuffer [] 1 false {[q := []]} ∧
         chunks_of 0%nat σ'
         = chunks_of 0%nat σ
           ++ Event (mkLine "1" CONNECTED ("Connected to job " +:+ "job-1") "t2")
              :: replicate 3 Keepalive.
Proof.
  intros σ.
  apply (stream_after_teardown_stays_open 0%nat "job-1" None "t2" 3 σ); reflexivity.
Defined.

(** ** The audio files seen by the renderer *)

(** X21: the audio URLs that the renderer is given, one for each index of
    the list of audio paths, are answered by [serve_audio] with the very
    file the speech synthesis returned at that index, as long as the
    files have not been cleaned up: after a synthesis in which every step
    ended in time, step [i] is served from the [i]-th returned path. *)
Theorem audio_step_is_served AUDIO_DIR generate_audio percent_of ticks
    explanations job_id voice_speed tracker st :
  (∀ i text, explanations !! i = Some text →
             in_time AUDIO_DIR generate_audio job_id voice_speed i text) →
  let r := tts.generate_all_audio AUDIO_DIR generate_audio percent_of ticks
             explanations job_id voice_speed tracker in
  ∃ audio_files,
    outcome r = Returns audio_files ∧ length audio_files = length explanations ∧
    ∀ i p, audio_files !! i = Some p →
           ∃ name, serve_audio AUDIO_DIR job_id (Z.of_nat i)
                     (apply_effects job_id (effects r) st).2 = Body (p, name).
Proof.
  intros Hin r.
  destruct (audio_loop_success AUDIO_DIR generate_audio percent_of ticks
              (length explanations) job_id voice_speed tracker explanations 0 [] Hin)
    as (Ho & Hw & _).
  fold (tts.generate_all_audio AUDIO_DIR generate_audio percent_of ticks
          explanations job_id voice_speed tracker) in Ho, Hw. fold r in Ho, Hw.
  exists (imap (λ k _, tts.audio_path AUDIO_DIR (tts.audio_name job_id k)) explanations).
  split; [exact Ho|]. split; [by rewrite length_imap|].
  intros i p Hp. rewrite list_lookup_imap in Hp.
  destruct (explanations !! i) as [text|] eqn:Hi; [|done]. injection Hp as <-.
  exists (tts.audio_name job_id i). unfold serve_audio.
  change (job_id +:+ "_step_" +:+ py_str (Z.of_nat i) +:+ ".mp3")
    with (tts.audio_name job_id i).
  rewrite bool_decide_eq_true_2; [done|].
  destruct (apply_effects_server job_id (effects r) st) as (_ & -> & _).
  apply elem_of_union. left. apply elem_of_list_to_set.
  change (audio_written (effects r)) with (written r). rewrite Hw.
  apply list_elem_of_lookup. exists i. by rewrite list_lookup_imap, Hi.
Qed.

Lemma audio_step_is_served_witness :
  let r := tts.generate_all_audio "/audio" quick_service (λ _ _, 0) (λ _, "t")
             ["one"; "two"] "job-1" 1 true in
  ∃ audio_files,
    outcome r = Returns audio_files ∧ length audio_files = length ["one"; "two"] ∧
    ∀ i p, audio_files !! i = Some p →
           ∃ name, serve_audio "/audio" "job-1" (Z.of_nat i)
                     (apply_effects "job-1" (effects r)
                        (new_job "job-1" "sorting" "python" BEGINNER 1 "t0", demo_server)).2
                   = Body (p, name).
Proof.
  apply (audio_step_is_served "/audio" quick_service (λ _ _, 0) (λ _, "t")
           ["one"; "two"] "job-1" 1 true
           (new_job "job-1" "sorting" "python" BEGINNER 1 "t0", demo_server)).
  intros i text _. exists 2%Q. split; [reflexivity|]. split; reflexivity.
Defined.

(** ** The validation of the generated content *)

Lemma as_str_Some v s : as_str v = Some s → v = JStr s.
Proof. destruct v; try done. by intros [= ->]. Qed.

Lemma truthy_JStr s : truthy (JStr s) = true → s ≠ "".
Proof. by destruct s. Qed.

Lemma validated_steps_valid steps vs :
  validated_steps steps = Valid vs →
  Forall2 (λ step v,
             ∃ items, step = JDict items ∧
                      dict_get "code" items = JStr (code v) ∧
                      dict_get "explanation" items = JStr (explanation v) ∧
                      dict_get "language" items = JStr (step_language v) ∧
                      code v ≠ "" ∧ explanation v ≠ "" ∧ step_language v ≠ "")
          steps vs.
Proof.
  revert vs. induction steps as [|step rest IH]; intros vs H.
  - injection H as <-. constructor.
  - cbn [validated_steps] in H. destruct step as [| | | | | |items]; try done.
    destruct (truthy (dict_get "code" items)) eqn:T1; [|done].
    destruct (truthy (dict_get "explanation" items)) eqn:T2; [|done].
    destruct (truthy (dict_get "language" items)) eqn:T3; [|done].
    cbn [negb orb] in H.
    destruct (as_str (dict_get "code" items)) as [c|] eqn:A1; [|done].
    destruct (as_str (dict_get "explanation" items)) as [e|] eqn:A2; [|done].
    destruct (as_str (dict_get "language" items)) as [l|] eqn:A3; [|done].
    destruct (validated_steps rest) as [vs'| | |] eqn:Hrest; try done.
    injection H as <-. constructor; [|by apply IH].
    apply as_str_Some in A1, A2, A3. rewrite A1 in T1. rewrite A2 in T2. rewrite A3 in T3.
    exists items. cbn [code explanation step_language].
    split; [done|]. split; [done|]. split; [done|]. split; [done|].
    split; [by apply truthy_JStr|]. split; by apply truthy_JStr.
Qed.

(** X22: content that passes the checks of [generate_tutorial_content]
    is complete: its title is the title of the parsed value and is not
    empty, it has as many steps as the parsed list, at least one, and
    every step carries the code, the explanation and the language of its
    entry, none of them empty.  The closing progress report has then been
    made. *)
Theorem validated_content_is_complete content_dict c :
  (validate_content content_dict).2 = Valid c →
  (validate_content content_dict).1 = true ∧
  ∃ items entries,
    content_dict = JDict items ∧
    dict_get "title" items = JStr (title c) ∧ title c ≠ "" ∧
    dict_get "steps" items = JList entries ∧
    entries ≠ [] ∧ length (steps c) = length entries ∧
    Forall2 (λ step v,
               ∃ fields, step = JDict fields ∧
                         dict_get "code" fields = JStr (code v) ∧
                         dict_get "explanation" fields = JStr (explanation v) ∧
                         dict_get "language" fields = JStr (step_language v) ∧
                         code v ≠ "" ∧ explanation v ≠ "" ∧ step_language v ≠ "")
            entries (steps c).
Proof.
  unfold validate_content. destruct content_dict as [| | | | | |items]; try done.
  destruct (truthy (dict_get "title" items)) eqn:T1; [|done].
  destruct (truthy (dict_get "steps" items)) eqn:T2; [|done]. cbn [negb orb].
  destruct (dict_get "steps" items) as [| | | | |l|] eqn:Hs; try done.
  destruct l as [|s0 l]; [done|].
  destruct (validated_steps (s0 :: l)) as [vs| | |] eqn:Hv; try done. cbn [fst snd].
  destruct (as_str (dict_get "title" items)) as [t|] eqn:At; [|done].
  intros [= <-]. split; [done|]. exists items, (s0 :: l). cbn [title steps].
  pose proof (validated_steps_valid _ _ Hv) as HF.
  apply as_str_Some in At. rewrite At in T1.
  split; [done|]. split; [done|]. split; [by apply truthy_JStr|].
  split; [done|]. split; [done|]. split; [|done].
  symmetry. by apply (Forall2_length _ _ _ HF).
Qed.

Lemma validated_content_is_complete_witness :
  (validate_content one_step_answer).1 = true ∧
  ∃ items entries,
    one_step_answer = JDict items ∧
    dict_get "title" items = JStr (title (mkContent "T" [mkStep "c" "e" "python"])) ∧
    title (mkContent "T" [mkStep "c" "e" "python"]) ≠ "" ∧
    dict_get "steps" items = JList entries ∧
    entries ≠ [] ∧
    length (steps (mkContent "T" [mkStep "c" "e" "python"])) = length entries ∧
    Forall2 (λ step v,
               ∃ fields, step = JDict fields ∧
                         dict_get "code" fields = JStr (code v) ∧
                         dict_get "explanation" fields = JStr (explanation v) ∧
                         dict_get "language" fields = JStr (step_language v) ∧
                         code v ≠ "" ∧ explanation v ≠ "" ∧ step_language v ≠ "")
            entries (steps (mkContent "T" [mkStep "c" "e" "python"])).
Proof.
  apply (validated_content_is_complete one_step_answer
           (mkContent "T" [mkStep "c" "e" "python"])).
  reflexivity.
Defined.

Lemma validated_steps_invalid steps msg :
  validated_steps steps = Invalid msg →
  msg = "Invalid step structure: missing code, explanation, or language".
Proof.
  induction steps as [|step rest IH]; [done|]. cbn [validated_steps].
  destruct step as [| | | | | |items]; try done.
  destruct (negb _ || negb _ || negb _); [by intros [= <-]|].
  destruct (as_str (dict_get "code" items)); [|done].
  destruct (as_str (dict_get "explanation" items)); [|done].
  destruct (as_str (dict_get "language" items)); [|done].
  destruct (validated_steps rest); try done; intros [= <-]; by apply IH.
Qed.

(** X23: the two messages about the steps.  A parsed value whose [steps]
    is the empty list is rejected by the first check, as having no title
    or steps; the message of the second check, that the steps must be a
    non-empty array, is given exactly when title and steps are both true
    values and [steps] is not a list.  A parsed value that is not a dict
    ends in an [AttributeError]. *)
Theorem steps_check_messages content_dict :
  (∀ items, content_dict = JDict items → dict_get "steps" items = JList [] →
            validate_content content_dict
            = (false, Invalid "Invalid tutorial structure: missing title or steps")) ∧
  ((validate_content content_dict).2 = Invalid not_an_array ↔
   ∃ items, content_dict = JDict items ∧
            truthy (dict_get "title" items) = true ∧
            truthy (dict_get "steps" items) = true ∧
            ∀ l, dict_get "steps" items ≠ JList l) ∧
  ((∀ items, content_dict ≠ JDict items) →
   validate_content content_dict = (false, AttributeError)).
Proof.
  split; [|split].
  - intros items -> Hs. unfold validate_content. rewrite Hs. cbn [truthy negb].
    by rewrite orb_true_r.
  - unfold validate_content. destruct content_dict as [| | | | | |items];
      try (split; [done|by intros (? & ? & _)]).
    destruct (truthy (dict_get "title" items)) eqn:T1;
      [|split; [done|intros (? & [= <-] & ? & _); congruence]].
    destruct (truthy (dict_get "steps" items)) eqn:T2;
      [|split; [done|intros (? & [= <-] & ? & ? & _); congruence]].
    cbn [negb orb].
    destruct (dict_get "steps" items) as [| | | | |l|] eqn:Hs;
      try (split; [intros _; exists items; by rewrite Hs|done]).
    destruct l as [|s0 l]; [done|].
    split.
    + destruct (validated_steps (s0 :: l)) as [vs|msg| |] eqn:Hv; cbn [snd]; try done.
      * by destruct (as_str _).
      * intros [= ->]. by apply validated_steps_invalid in Hv.
    + intros (items' & [= <-] & _ & _ & Hl). rewrite Hs in Hl. by destruct (Hl (s0 :: l)).
  - intros Hn. destruct content_dict; try done. by destruct (Hn items).
Qed.

Lemma steps_check_messages_witness :
  validate_content (JDict [("title", JStr "T"); ("steps", JList [])])
  = (false, Invalid "Invalid tutorial structure: missing title or steps").
Proof.
  apply (proj1 (steps_check_messages (JDict [("title", JStr "T"); ("steps", JList [])]))
           [("title", JStr "T"); ("steps", JList [])]); reflexivity.
Defined.
